(** * xhs-image-mcp: pagination engine and page markup

    A shallow embedding of the text-to-pages core of the repository:
    - [smart-paginator.ts]: [findPageBreak], [measureAvailableHeight],
      [smartPaginate] (the measurement-driven paginator);
    - [paginator.ts]: [paginateText], [splitIntoSentences] (the
      character-count paginator);
    - [renderer.ts]: [escapeHtml], [paragraphsToHtml],
      [generateContentHTML] (the page compositor's markup).

    JavaScript strings are sequences of UTF-16 code units; they are modelled
    as lists of code units ([N]).  Rendered heights are exact rationals; only
    their order and the subtraction of the safety margin are used.  The
    browser is an oracle from markup to the measured height of an element.
    The two [while] loops take a bound on their iterations; the bound the
    callers pass is shown never to be what ends them. *)

From Stdlib Require Import List ZArith NArith QArith Lia Bool Ascii String.
From Stdlib Require Import DecimalString.
Import ListNotations.

(** ** JavaScript strings and the primitives the sources use *)

Module JS.

Definition jsstring := list N.

(** An ASCII literal as code units. *)
Definition lit (s : string) : jsstring := map N_of_ascii (list_ascii_of_string s).

Definition LF : N := 10.
Definition CR : N := 13.
Definition nl : jsstring := [LF].
(** The double-quote character. *)
Definition dq : jsstring := [34%N].
Definition quoted (s : string) : jsstring := dq ++ lit s ++ dq.

(** [String(n)] for an integer [n]. *)
Definition num (z : Z) : jsstring := lit (NilZero.string_of_int (Z.to_int z)).

(** [arr.length] and [s.length] *)
Definition len {A : Type} (l : list A) : Z := Z.of_nat (List.length l).
Definition strlen (s : jsstring) : Z := len s.

(** Truthiness of a string: non-empty. *)
Definition truthy (s : jsstring) : bool :=
  match s with [] => false | _ :: _ => true end.

(** ECMAScript WhiteSpace and LineTerminator code units, as stripped by
    [String.prototype.trim] and matched by [\s]. *)
Definition is_space (c : N) : bool :=
  ((c =? 9) || (c =? 10) || (c =? 11) || (c =? 12) || (c =? 13) || (c =? 32)
   || (c =? 160) || (c =? 5760) || ((8192 <=? c) && (c <=? 8202))
   || (c =? 8232) || (c =? 8233) || (c =? 8239) || (c =? 8287)
   || (c =? 12288) || (c =? 65279))%N.

Fixpoint trimStart (s : jsstring) : jsstring :=
  match s with
  | c :: r => if is_space c then trimStart r else s
  | [] => []
  end.

Definition trimEnd (s : jsstring) : jsstring := rev (trimStart (rev s)).

Definition trim (s : jsstring) : jsstring := trimEnd (trimStart s).

(** [arr.join(sep)] *)
Fixpoint join (sep : jsstring) (l : list jsstring) : jsstring :=
  match l with
  | [] => []
  | [x] => x
  | x :: r => x ++ sep ++ join sep r
  end.

(** [s.replace(/c/g, by)] for a single-character pattern. *)
Definition replaceAll (c : N) (by_ : jsstring) (s : jsstring) : jsstring :=
  flat_map (fun x => if (x =? c)%N then by_ else [x]) s.

(** [s.replace(/\r\n/g, '\n')] *)
Fixpoint replaceCRLF (s : jsstring) : jsstring :=
  match s with
  | c :: r =>
      match r with
      | d :: r' => if ((c =? CR) && (d =? LF))%N then LF :: replaceCRLF r'
                   else c :: replaceCRLF r
      | [] => [c]
      end
  | [] => []
  end.

(** [s.replace(/\n{3,}/g, '\n\n')]: [pending] counts the line feeds of the
    run being scanned; a run of three or more is emitted as two. *)
Definition emitNewlines (pending : nat) : jsstring :=
  if (3 <=? pending)%nat then [LF; LF] else repeat LF pending.

Fixpoint collapseNewlines_from (pending : nat) (s : jsstring) : jsstring :=
  match s with
  | [] => emitNewlines pending
  | c :: r => if (c =? LF)%N then collapseNewlines_from (S pending) r
              else emitNewlines pending ++ c :: collapseNewlines_from 0 r
  end.

Definition collapseNewlines (s : jsstring) : jsstring := collapseNewlines_from 0 s.

(** [s.split(/\n+/)]: the pieces between maximal runs of line feeds; a run
    at either end leaves an empty piece there, and the empty string gives
    one empty piece.  [in_run] tells that the previous unit was a line
    feed, [cur] is the piece being read. *)
Fixpoint splitNewlines_from (in_run : bool) (cur : jsstring) (s : jsstring)
  : list jsstring :=
  match s with
  | [] => [cur]
  | c :: r =>
      if (c =? LF)%N then
        if in_run then splitNewlines_from true [] r
        else cur :: splitNewlines_from true [] r
      else splitNewlines_from false (cur ++ [c]) r
  end.

Definition splitNewlines (s : jsstring) : list jsstring :=
  splitNewlines_from false [] s.

(** [Array.prototype.slice(start, end)] on integer arguments: a negative
    index counts from the end, and both are clamped to the array. *)
Definition relativeIndex (n i : Z) : Z :=
  if (i <? 0)%Z then Z.max (n + i) 0 else Z.min i n.

Definition slice {A : Type} (l : list A) (start end_ : Z) : list A :=
  let n := Z.of_nat (List.length l) in
  let k := relativeIndex n start in
  let final := relativeIndex n end_ in
  firstn (Z.to_nat (final - k)) (skipn (Z.to_nat k) l).

(** The test [/^[-*_]{3,}$/] (no flags): the whole string is three or
    more of [-], [*], [_]. *)
Definition is_rule_char (c : N) : bool := ((c =? 45) || (c =? 42) || (c =? 95))%N.

Definition isRule (s : jsstring) : bool :=
  (3 <=? List.length s)%nat && forallb is_rule_char s.

(** [arr.map((x, i) => f(x, i))], the indices counted from [i]. *)
Fixpoint mapi_from {A B : Type} (f : A -> Z -> B) (i : Z) (l : list A) : list B :=
  match l with
  | [] => []
  | x :: rest => f x i :: mapi_from f (i + 1)%Z rest
  end.

End JS.

Import JS.

(** ** Static tables shared by the renderer and the smart paginator *)

Inductive Theme := minimal | elegant | warm | dark.
Inductive Ratio := ratio_3_4 | ratio_1_1 | ratio_4_3.
Inductive FontSize := small | medium | large.

Record Dimensions := { width : Z; height : Z }.
Record FontConfig := { title_px : Z; content_px : Z }.

Definition DIMENSIONS (r : Ratio) : Dimensions :=
  match r with
  | ratio_3_4 => {| width := 1080; height := 1440 |}
  | ratio_1_1 => {| width := 1080; height := 1080 |}
  | ratio_4_3 => {| width := 1080; height := 810 |}
  end.

Definition FONT_SIZES (f : FontSize) : FontConfig :=
  match f with
  | small => {| title_px := 36; content_px := 24 |}
  | medium => {| title_px := 42; content_px := 28 |}
  | large => {| title_px := 48; content_px := 32 |}
  end.

(** The page record of [paginator.ts], consumed by the renderer. *)
Record Page := {
  content : jsstring;
  pageNumber : Z;
  isFirst : bool;
  isLast : bool
}.

(** ** renderer.ts *)

Module Renderer.

Record RenderOptions := {
  theme : option Theme;
  ratio : option Ratio;
  fontSize : option FontSize;
  title : option jsstring;
  showCover : option bool;
  aiCoverImage : option jsstring
}.

Definition escapeHtml (text : jsstring) : jsstring :=
  replaceAll 39 (lit "&#039;")
    (replaceAll 34 (lit "&quot;")
      (replaceAll 62 (lit "&gt;")
        (replaceAll 60 (lit "&lt;")
          (replaceAll 38 (lit "&amp;") text)))).

Definition paragraphsToHtml (content : jsstring) : jsstring :=
  join nl
    (map (fun p =>
            if isRule (trim p) then lit "<hr class=" ++ quoted "divider" ++ lit " />"
            else lit "<p>" ++ escapeHtml p ++ lit "</p>")
       (filter (fun p => truthy (trim p)) (splitNewlines content))).

Section WithThemes.
(** The stylesheet files under [themes/] are not part of the sources. *)
Variable loadThemeCSS : Theme -> jsstring.

Definition generateContentHTML (page : Page) (totalPages : Z)
    (options : RenderOptions) : jsstring :=
  let theme := match theme options with Some t => t | None => minimal end in
  let fontSize := match fontSize options with Some f => f | None => medium end in
  let css := loadThemeCSS theme in
  let fontConfig := FONT_SIZES fontSize in
  let paragraphs := paragraphsToHtml (content page) in
  join nl [
    lit "<!DOCTYPE html>";
    lit "<html>";
    lit "<head>";
    lit "  <meta charset=" ++ quoted "UTF-8" ++ lit ">";
    lit "  <style>";
    lit "    " ++ css;
    lit "    .title { font-size: " ++ num (title_px fontConfig) ++ lit "px; }";
    lit "    .content { font-size: " ++ num (content_px fontConfig) ++ lit "px; }";
    lit "  </style>";
    lit "</head>";
    lit "<body>";
    lit "  <div class=" ++ quoted "page-container" ++ lit ">";
    lit "    <div class=" ++ quoted "content" ++ lit ">";
    lit "      " ++ paragraphs;
    lit "    </div>";
    lit "    <div class=" ++ quoted "page-number" ++ lit ">";
    lit "      <span>" ++ num (pageNumber page) ++ lit "</span> / " ++ num totalPages;
    lit "    </div>";
    lit "  </div>";
    lit "</body>";
    lit "</html>"
  ].

Definition generateFirstPageWithTitleHTML (title : jsstring) (page : Page)
    (totalPages : Z) (options : RenderOptions) : jsstring :=
  let theme := match theme options with Some t => t | None => minimal end in
  let fontSize := match fontSize options with Some f => f | None => medium end in
  let css := loadThemeCSS theme in
  let fontConfig := FONT_SIZES fontSize in
  let paragraphs := paragraphsToHtml (content page) in
  join nl [
    lit "<!DOCTYPE html>";
    lit "<html>";
    lit "<head>";
    lit "  <meta charset=" ++ quoted "UTF-8" ++ lit ">";
    lit "  <style>";
    lit "    " ++ css;
    lit "    .title { font-size: " ++ num (title_px fontConfig) ++ lit "px; }";
    lit "    .content { font-size: " ++ num (content_px fontConfig) ++ lit "px; }";
    lit "  </style>";
    lit "</head>";
    lit "<body>";
    lit "  <div class=" ++ quoted "page-container" ++ lit ">";
    lit "    <h1 class=" ++ quoted "title" ++ lit ">" ++ escapeHtml title ++ lit "</h1>";
    lit "    <div class=" ++ quoted "content" ++ lit ">";
    lit "      " ++ paragraphs;
    lit "    </div>";
    lit "    <div class=" ++ quoted "page-number" ++ lit ">";
    lit "      <span>" ++ num (pageNumber page) ++ lit "</span> / " ++ num totalPages;
    lit "    </div>";
    lit "  </div>";
    lit "</body>";
    lit "</html>"
  ].

Definition generateAICoverWithContentHTML (title aiImageBase64 mimeType : jsstring)
    (page : Page) (totalPages : Z) (options : RenderOptions) : jsstring :=
  let theme := match theme options with Some t => t | None => minimal end in
  let fontSize := match fontSize options with Some f => f | None => medium end in
  let css := loadThemeCSS theme in
  let fontConfig := FONT_SIZES fontSize in
  let paragraphs := paragraphsToHtml (content page) in
  join nl [
    lit "<!DOCTYPE html>";
    lit "<html>";
    lit "<head>";
    lit "  <meta charset=" ++ quoted "UTF-8" ++ lit ">";
    lit "  <style>";
    lit "    " ++ css;
    lit "    .title { font-size: " ++ num (title_px fontConfig) ++ lit "px; }";
    lit "    .content { font-size: " ++ num (content_px fontConfig) ++ lit "px; }";
    [];
    lit "    /* AI " ++ [26631; 39064; 32972; 26223; 21306; 22495]%N ++ lit " */";
    lit "    .title-banner {";
    lit "      position: relative;";
    lit "      margin: -50px -50px 30px -50px;";
    lit "      padding: 40px 50px;";
    lit "      overflow: hidden;";
    lit "    }";
    lit "    .title-banner-bg {";
    lit "      position: absolute;";
    lit "      top: 0;";
    lit "      left: 0;";
    lit "      width: 100%;";
    lit "      height: 100%;";
    lit "      object-fit: cover;";
    lit "      z-index: 1;";
    lit "    }";
    lit "    .title-banner-overlay {";
    lit "      position: absolute;";
    lit "      top: 0;";
    lit "      left: 0;";
    lit "      width: 100%;";
    lit "      height: 100%;";
    lit "      background: linear-gradient(to bottom, rgba(0,0,0,0.3) 0%, rgba(0,0,0,0.5) 100%);";
    lit "      z-index: 2;";
    lit "    }";
    lit "    .title-banner h1 {";
    lit "      position: relative;";
    lit "      z-index: 3;";
    lit "      color: #ffffff;";
    lit "      text-shadow: 0 2px 10px rgba(0, 0, 0, 0.5);";
    lit "      border: none;";
    lit "      padding: 0;";
    lit "      margin: 0;";
    lit "    }";
    lit "  </style>";
    lit "</head>";
    lit "<body>";
    lit "  <div class=" ++ quoted "page-container" ++ lit ">";
    lit "    <div class=" ++ quoted "title-banner" ++ lit ">";
    lit "      <img class=" ++ quoted "title-banner-bg" ++ lit " src=" ++ dq
      ++ lit "data:" ++ mimeType ++ lit ";base64," ++ aiImageBase64 ++ dq
      ++ lit " alt=" ++ quoted "bg" ++ lit " />";
    lit "      <div class=" ++ quoted "title-banner-overlay" ++ lit "></div>";
    lit "      <h1 class=" ++ quoted "title" ++ lit ">" ++ escapeHtml title ++ lit "</h1>";
    lit "    </div>";
    lit "    <div class=" ++ quoted "content" ++ lit ">";
    lit "      " ++ paragraphs;
    lit "    </div>";
    lit "    <div class=" ++ quoted "page-number" ++ lit ">";
    lit "      <span>" ++ num (pageNumber page) ++ lit "</span> / " ++ num totalPages;
    lit "    </div>";
    lit "  </div>";
    lit "</body>";
    lit "</html>"
  ].

End WithThemes.

End Renderer.

(** ** The browser as a measurement oracle *)

(** The outcome of an asynchronous call: a value, a rejected promise, or no
    outcome at all (a loop of the model that was cut before it ended). *)
Inductive run (A : Type) : Type :=
| Returns (a : A)
| Throws
| Diverges.
Arguments Returns {A} a.
Arguments Throws {A}.
Arguments Diverges {A}.

Definition bind {A B : Type} (m : run A) (k : A -> run B) : run B :=
  match m with
  | Returns a => k a
  | Throws => Throws
  | Diverges => Diverges
  end.

Notation "x <- m ;; k" := (bind m (fun x => k))
  (at level 61, m at next level, right associativity).

(** The element whose bounding box a probe reads. *)
Inductive Element :=
| ContentClass      (* document.querySelector('.content') *)
| MeasureContentId. (* document.getElementById('measure-content') *)

(** A tab with its viewport set: [setContent html] followed by [evaluate]
    of a callback that looks an element up.  [Returns None] is a lookup that
    found no element, [Returns (Some h)] the height of its bounding box,
    [Throws] a rejected Playwright call. *)
Definition PlaywrightPage := jsstring -> Element -> run (option Q).

(** A browser opens a tab for a viewport (width, height). *)
Definition Browser := Z -> Z -> PlaywrightPage.

(** ** smart-paginator.ts *)

Module SmartPaginator.

Record SmartPaginatorOptions := {
  theme : option Theme;
  ratio : option Ratio;
  fontSize : option FontSize;
  hasTitle : option bool;
  titleHeight : option Z
}.

Record SmartPage := {
  content : jsstring;
  pageNumber : Z;
  isFirst : bool;
  isLast : bool;
  paragraphs : list jsstring
}.

Definition SAFETY_MARGIN : Q := 30.

Definition escapeHtml (text : jsstring) : jsstring :=
  replaceAll 39 (lit "&#039;")
    (replaceAll 34 (lit "&quot;")
      (replaceAll 62 (lit "&gt;")
        (replaceAll 60 (lit "&lt;")
          (replaceAll 38 (lit "&amp;") text)))).

Definition paragraphToHtml (p : jsstring) : jsstring :=
  if isRule (trim p) then lit "<hr class=" ++ quoted "divider" ++ lit " />"
  else lit "<p>" ++ escapeHtml p ++ lit "</p>".

Section WithThemes.
Variable loadThemeCSS : Theme -> jsstring.

(** The markup of one probe of [findPageBreak]. *)
Definition probeHTML (css : jsstring) (fontConfig : FontConfig)
    (testParagraphs : list jsstring) : jsstring :=
  join nl [
    lit "<!DOCTYPE html>";
    lit "<html>";
    lit "<head>";
    lit "  <meta charset=" ++ quoted "UTF-8" ++ lit ">";
    lit "  <style>";
    lit "    " ++ css;
    lit "    .title { font-size: " ++ num (title_px fontConfig) ++ lit "px; }";
    lit "    .content { font-size: " ++ num (content_px fontConfig) ++ lit "px; }";
    lit "  </style>";
    lit "</head>";
    lit "<body>";
    lit "  <div class=" ++ quoted "page-container" ++ lit ">";
    lit "    <div class=" ++ quoted "content" ++ lit ">";
    lit "      " ++ join nl (map paragraphToHtml testParagraphs);
    lit "    </div>";
    lit "    <div class=" ++ quoted "page-number" ++ lit ">";
    lit "      <span>1</span> / 1";
    lit "    </div>";
    lit "  </div>";
    lit "</body>";
    lit "</html>"
  ].

(** [content ? content.getBoundingClientRect().height : 0] *)
Definition contentHeightOf (found : option Q) : Q :=
  match found with Some h => h | None => 0 end.

Section FindPageBreak.
Variable page : PlaywrightPage.
Variable paragraphs : list jsstring.
Variable startIndex : Z.
Variable options : SmartPaginatorOptions.
Variable availableHeight : Q.

Definition probe (mid : Z) : jsstring :=
  let theme := match theme options with Some t => t | None => minimal end in
  let fontSize := match fontSize options with Some f => f | None => medium end in
  probeHTML (loadThemeCSS theme) (FONT_SIZES fontSize)
    (slice paragraphs startIndex (startIndex + mid)).

(** The [while (low <= high)] loop; [fuel] bounds its iterations. *)
Fixpoint findPageBreak_loop (fuel : nat) (low high result : Z) : run Z :=
  if (low <=? high)%Z then
    match fuel with
    | O => Diverges
    | S fuel' =>
        let mid := ((low + high) / 2)%Z in
        found <- page (probe mid) ContentClass ;;
        let contentHeight := contentHeightOf found in
        if Qle_bool contentHeight availableHeight
        then findPageBreak_loop fuel' (mid + 1)%Z high mid
        else findPageBreak_loop fuel' low (mid - 1)%Z result
    end
  else Returns result.

Definition findPageBreak : run Z :=
  let low := 1%Z in
  let high := (len paragraphs - startIndex)%Z in
  let result := 0%Z in
  result <- findPageBreak_loop (Z.to_nat high) low high result ;;
  Returns (if (result >? 0)%Z then result else 1%Z).

End FindPageBreak.

Definition measureHTML (css : jsstring) (fontConfig : FontConfig)
    (hasTitle : bool) (dimensions : Dimensions) : jsstring :=
  join nl [
    lit "<!DOCTYPE html>";
    lit "<html>";
    lit "<head>";
    lit "  <meta charset=" ++ quoted "UTF-8" ++ lit ">";
    lit "  <style>";
    lit "    " ++ css;
    lit "    .title { font-size: " ++ num (title_px fontConfig) ++ lit "px; }";
    lit "    .content { font-size: " ++ num (content_px fontConfig) ++ lit "px; }";
    lit "    html, body {";
    lit "      height: " ++ num (height dimensions) ++ lit "px;";
    lit "      overflow: hidden;";
    lit "    }";
    lit "  </style>";
    lit "</head>";
    lit "<body>";
    lit "  <div class=" ++ quoted "page-container" ++ lit " style="
      ++ quoted "height: 100%;" ++ lit ">";
    lit "    " ++ (if hasTitle
                   then lit "<h1 class=" ++ quoted "title" ++ lit ">"
                        ++ [27979; 35797; 26631; 39064]%N ++ lit "</h1>"
                   else []);
    lit "    <div class=" ++ quoted "content" ++ lit " id="
      ++ quoted "measure-content" ++ lit ">";
    lit "      <p>" ++ [27979; 37327; 29992; 21344; 20301; 31526]%N ++ lit "</p>";
    lit "    </div>";
    lit "    <div class=" ++ quoted "page-number" ++ lit ">";
    lit "      <span>1</span> / 1";
    lit "    </div>";
    lit "  </div>";
    lit "</body>";
    lit "</html>"
  ].

Definition measureAvailableHeight (page : PlaywrightPage)
    (options : SmartPaginatorOptions) (hasTitle : bool)
    (dimensions : Dimensions) : run Q :=
  let theme := match theme options with Some t => t | None => minimal end in
  let fontSize := match fontSize options with Some f => f | None => medium end in
  let html := measureHTML (loadThemeCSS theme) (FONT_SIZES fontSize) hasTitle dimensions in
  found <- page html MeasureContentId ;;
  let availableHeight := match found with None => 0 | Some h => h end in
  Returns (availableHeight - SAFETY_MARGIN).

(** The text cleaning and paragraph split of [smartPaginate]. *)
Definition cleanText (text : jsstring) : jsstring :=
  trim (collapseNewlines (replaceCRLF text)).

Definition splitParagraphs (cleanedText : jsstring) : list jsstring :=
  filter (fun p => truthy (trim p)) (splitNewlines cleanedText).

(** [pages[pages.length - 1].isLast = true] *)
Fixpoint markLast (pages : list SmartPage) : list SmartPage :=
  match pages with
  | [] => []
  | [p] => [ {| content := content p; pageNumber := pageNumber p;
                isFirst := isFirst p; isLast := true;
                paragraphs := paragraphs p |} ]
  | p :: rest => p :: markLast rest
  end.

Section Paginate.
Variable page : PlaywrightPage.
Variable options : SmartPaginatorOptions.
(** The paragraph array of the run ([paragraphs] in the source). *)
Variable allParagraphs : list jsstring.
Variables firstPageContentHeight baseContentHeight : Q.

(** The [while (currentIndex < paragraphs.length)] loop. *)
Fixpoint paginate_loop (fuel : nat) (pages : list SmartPage) (currentIndex : Z)
  : run (list SmartPage) :=
  if (currentIndex <? len allParagraphs)%Z then
    match fuel with
    | O => Diverges
    | S fuel' =>
        let isFirstPage := (List.length pages =? 0)%nat in
        let availableHeight :=
          if isFirstPage then firstPageContentHeight else baseContentHeight in
        count <- findPageBreak page allParagraphs currentIndex options availableHeight ;;
        let pageParagraphs := slice allParagraphs currentIndex (currentIndex + count) in
        paginate_loop fuel'
          (pages ++ [ {| content := join (nl ++ nl) pageParagraphs;
                         pageNumber := len pages + 1;
                         isFirst := isFirstPage;
                         isLast := false;
                         paragraphs := pageParagraphs |} ])
          (currentIndex + count)%Z
    end
  else Returns pages.

End Paginate.

Definition smartPaginate (browser : Browser) (text : jsstring)
    (options : SmartPaginatorOptions) : run (list SmartPage) :=
  let ratio := match ratio options with Some r => r | None => ratio_3_4 end in
  let hasTitle := match hasTitle options with Some b => b | None => false end in
  let dimensions := DIMENSIONS ratio in
  let paragraphs := splitParagraphs (cleanText text) in
  if (List.length paragraphs =? 0)%nat then Returns []
  else
    let page := browser 1080%Z (height dimensions) in
    firstPageContentHeight <- measureAvailableHeight page options hasTitle dimensions ;;
    baseContentHeight <- measureAvailableHeight page options false dimensions ;;
    pages <- paginate_loop page options paragraphs
               firstPageContentHeight baseContentHeight
               (List.length paragraphs) [] 0%Z ;;
    Returns (markLast pages).

(** [smartPaginateCompat]: the pages in the shape the renderer takes. *)
Definition smartPaginateCompat (browser : Browser) (text : jsstring)
    (options : SmartPaginatorOptions) : run (list Page) :=
  pages <- smartPaginate browser text options ;;
  Returns (map (fun p => Build_Page (content p) (pageNumber p) (isFirst p) (isLast p))
             pages).

End WithThemes.

End SmartPaginator.

(** ** paginator.ts *)

Module Paginator.

Record PaginatorOptions := {
  charsPerPage : option Z;
  firstPageChars : option Z;
  fontSize : option FontSize;
  ratio : option Ratio;
  dynamicCount : option bool;
  hasTitle : option bool
}.

Definition BASE_CHARS_PER_PAGE (r : Ratio) (f : FontSize) : Z :=
  match r, f with
  | ratio_3_4, small => 420 | ratio_3_4, medium => 320 | ratio_3_4, large => 240
  | ratio_1_1, small => 300 | ratio_1_1, medium => 230 | ratio_1_1, large => 180
  | ratio_4_3, small => 250 | ratio_4_3, medium => 200 | ratio_4_3, large => 150
  end.

(** [a || b] on numbers: zero is falsy. *)
Definition orElse (a : option Z) (b : Z) : Z :=
  match a with
  | Some z => if (z =? 0)%Z then b else z
  | None => b
  end.

(** [!a] on an optional number. *)
Definition isFalsy (a : option Z) : bool :=
  match a with
  | Some z => (z =? 0)%Z
  | None => true
  end.

(** [/[a-zA-Z0-9]/] *)
Definition is_alnum (c : N) : bool :=
  (((97 <=? c) && (c <=? 122)) || ((65 <=? c) && (c <=? 90))
   || ((48 <=? c) && (c <=? 57)))%N.

Definition detectEnglishRatio (text : jsstring) : Q :=
  let cleaned := filter (fun c => negb (is_space c)) text in
  if (List.length cleaned =? 0)%nat then 0
  else
    let englishChars := filter is_alnum cleaned in
    inject_Z (strlen englishChars) / inject_Z (strlen cleaned).

(** The sentence terminators [。！？；.!?]. *)
Definition is_ender (c : N) : bool :=
  ((c =? 12290) || (c =? 65281) || (c =? 65311) || (c =? 65307)
   || (c =? 46) || (c =? 33) || (c =? 63))%N.

(** [text.split(/([。！？；.!?]+)/g)]: the pieces between maximal runs of
    terminators alternate with the runs themselves (the capture group);
    the array starts and ends with a piece, empty when the text starts or
    ends with a run.  [in_run] tells whether [cur] is a run. *)
Fixpoint splitEnders_from (in_run : bool) (cur : jsstring) (s : jsstring)
  : list jsstring :=
  match s with
  | [] => if in_run then [cur; []] else [cur]
  | c :: r =>
      if is_ender c then
        if in_run then splitEnders_from true (cur ++ [c]) r
        else cur :: splitEnders_from true [c] r
      else
        if in_run then cur :: splitEnders_from false [c] r
        else splitEnders_from false (cur ++ [c]) r
  end.

Definition splitEnders (text : jsstring) : list jsstring :=
  splitEnders_from false [] text.

(** The [for (i = 0; i < parts.length; i += 2)] loop. *)
Fixpoint collectSentences (parts : list jsstring) : list jsstring :=
  match parts with
  | [] => []
  | part :: rest =>
      match rest with
      | [] =>
          let sentence := part ++ [] in
          if truthy (trim sentence) then [sentence] else []
      | next :: rest' =>
          let sentence := part ++ (if truthy next then next else []) in
          (if truthy (trim sentence) then [sentence] else [])
            ++ collectSentences rest'
      end
  end.

Definition splitIntoSentences (text : jsstring) : list jsstring :=
  collectSentences (splitEnders text).

(** [pages[pages.length - 1].isLast = true] *)
Fixpoint markLast (pages : list Page) : list Page :=
  match pages with
  | [] => []
  | [p] => [ {| content := content p; pageNumber := pageNumber p;
                isFirst := isFirst p; isLast := true |} ]
  | p :: rest => p :: markLast rest
  end.

Section Loop.
Variables firstPageMaxChars maxChars : Z.

(** The mutable locals of [paginateText]. *)
Record State := {
  pages : list Page;
  currentPageContent : jsstring;
  currentCharCount : Z
}.

Definition getCurrentMaxChars (st : State) : Z :=
  if (List.length (pages st) =? 0)%nat then firstPageMaxChars else maxChars.

Definition newPage (st : State) (last : bool) : Page :=
  {| content := trim (currentPageContent st);
     pageNumber := len (pages st) + 1;
     isFirst := (List.length (pages st) =? 0)%nat;
     isLast := last |}.

(** Both [if (currentCharCount + n > limit && currentPageContent)] blocks. *)
Definition flushIfOver (n : Z) (st : State) : State :=
  if ((currentCharCount st + n >? getCurrentMaxChars st)%Z
      && truthy (currentPageContent st))%bool
  then {| pages := pages st ++ [newPage st false];
          currentPageContent := [];
          currentCharCount := 0 |}
  else st.

(** The body of [for (const sentence of sentences)]. *)
Definition addSentence (st : State) (sentence : jsstring) : State :=
  let st := flushIfOver (strlen sentence) st in
  {| pages := pages st;
     currentPageContent := currentPageContent st ++ sentence;
     currentCharCount := currentCharCount st + strlen sentence |}.

(** The body of [for (let i = 0; i < paragraphs.length; i++)]. *)
Definition addParagraph (st : State) (raw : jsstring) : State :=
  let paragraph := trim raw in
  let paragraphLength := strlen paragraph in
  let st := flushIfOver paragraphLength st in
  let newMaxChars := getCurrentMaxChars st in
  if (paragraphLength >? newMaxChars)%Z then
    fold_left addSentence (splitIntoSentences paragraph) st
  else
    {| pages := pages st;
       currentPageContent := currentPageContent st ++ paragraph ++ nl ++ nl;
       currentCharCount := currentCharCount st + paragraphLength |}.

Definition initial : State :=
  {| pages := []; currentPageContent := []; currentCharCount := 0 |}.

Definition finish (st : State) : list Page :=
  let pages :=
    if truthy (trim (currentPageContent st))
    then pages st ++ [newPage st true] else pages st in
  markLast pages.

Definition paginateFrom (paragraphs : list jsstring) : list Page :=
  finish (fold_left addParagraph paragraphs initial).

(** *** The same loop with a record of what each page was built from

    [paginateText] keeps only the text of each page.  The traced loop runs
    the same steps and also remembers, for the page being built and for
    each emitted page, the units appended and their counted characters. *)

Inductive TextUnit :=
| WholeParagraph (paragraph : jsstring)
| Sentence (paragraph sentence : jsstring).

Definition unitLength (u : TextUnit) : Z :=
  match u with
  | WholeParagraph p => strlen p
  | Sentence _ s => strlen s
  end.

Definition unitText (u : TextUnit) : jsstring :=
  match u with
  | WholeParagraph p => p ++ nl ++ nl
  | Sentence _ s => s
  end.

Definition totalLength (us : list TextUnit) : Z :=
  fold_right (fun u acc => unitLength u + acc)%Z 0%Z us.

Record Traced := {
  state : State;
  emitted : list (list TextUnit);
  currentUnits : list TextUnit
}.

Definition flushIfOverT (n : Z) (t : Traced) : Traced :=
  if ((currentCharCount (state t) + n >? getCurrentMaxChars (state t))%Z
      && truthy (currentPageContent (state t)))%bool
  then {| state := flushIfOver n (state t);
          emitted := emitted t ++ [currentUnits t];
          currentUnits := [] |}
  else t.

Definition addSentenceT (paragraph : jsstring) (t : Traced) (sentence : jsstring)
  : Traced :=
  let t' := flushIfOverT (strlen sentence) t in
  {| state := addSentence (state t) sentence;
     emitted := emitted t';
     currentUnits := currentUnits t' ++ [Sentence paragraph sentence] |}.

Definition addParagraphT (t : Traced) (raw : jsstring) : Traced :=
  let paragraph := trim raw in
  let paragraphLength := strlen paragraph in
  let t' := flushIfOverT paragraphLength t in
  if (paragraphLength >? getCurrentMaxChars (state t'))%Z then
    fold_left (addSentenceT paragraph) (splitIntoSentences paragraph) t'
  else
    {| state := addParagraph (state t) raw;
       emitted := emitted t';
       currentUnits := currentUnits t' ++ [WholeParagraph paragraph] |}.

Definition initialT : Traced :=
  {| state := initial; emitted := []; currentUnits := [] |}.

Definition finishT (t : Traced) : list (list TextUnit) :=
  if truthy (trim (currentPageContent (state t)))
  then emitted t ++ [currentUnits t] else emitted t.

Definition tracePages (paragraphs : list jsstring) : list (list TextUnit) :=
  finishT (fold_left addParagraphT paragraphs initialT).

End Loop.

Section WithFloats.
(** [Math.floor(baseChars * (1 + englishRatio * 0.7))] is computed in
    floating point, which is not modelled: the function is taken as given. *)
Variable adjustCharsForLanguage : Z -> Q -> Z.

Definition maxCharsOf (text : jsstring) (options : PaginatorOptions) : Z :=
  let fontSize := match fontSize options with Some f => f | None => medium end in
  let ratio := match ratio options with Some r => r | None => ratio_3_4 end in
  let dynamicCount := match dynamicCount options with Some b => b | None => true end in
  let baseChars :=
    orElse (charsPerPage options)
      (orElse (Some (BASE_CHARS_PER_PAGE ratio fontSize)) 350) in
  if (dynamicCount && isFalsy (charsPerPage options))%bool
  then adjustCharsForLanguage baseChars (detectEnglishRatio text)
  else baseChars.

(** [Math.floor(maxChars * 0.75)] is exact on integers of this size:
    three quarters, rounded down. *)
Definition firstPageMaxCharsOf (text : jsstring) (options : PaginatorOptions) : Z :=
  let hasTitle := match hasTitle options with Some b => b | None => false end in
  let maxChars := maxCharsOf text options in
  orElse (firstPageChars options)
    (if hasTitle then (3 * maxChars) / 4 else maxChars)%Z.

Definition cleanText (text : jsstring) : jsstring :=
  trim (collapseNewlines (replaceCRLF text)).

Definition splitParagraphs (cleanedText : jsstring) : list jsstring :=
  filter (fun p => truthy (trim p)) (splitNewlines cleanedText).

Definition paginateText (text : jsstring) (options : PaginatorOptions) : list Page :=
  paginateFrom (firstPageMaxCharsOf text options) (maxCharsOf text options)
    (splitParagraphs (cleanText text)).

Definition estimatePageCount (text : jsstring) (options : PaginatorOptions) : Z :=
  let pages := paginateText text options in
  len pages.

End WithFloats.

End Paginator.

(** ** renderer.ts: from pages to images *)

Module RenderPages.

(** The bytes of a PNG screenshot. *)
Definition Buffer := list N.

(** [renderPage]: a fresh tab at the given viewport, the markup set, a
    screenshot taken, the tab closed.  [Throws] is a rejected call. *)
Definition Screenshot := jsstring -> Dimensions -> run Buffer.

Section WithEngine.
Variable loadThemeCSS : Theme -> jsstring.
Variable renderPage : Screenshot.
(** [buffer.toString('base64')], a function of the Node library. *)
Variable toBase64 : Buffer -> jsstring.

(** The markup the loop of [renderPages] builds for the page at index [i]. *)
Definition htmlOfPage (options : Renderer.RenderOptions) (totalPages : Z)
    (i : Z) (page : Page) : jsstring :=
  let showCover :=
    match Renderer.showCover options with Some b => b | None => false end in
  match Renderer.title options with
  | Some title =>
      if ((i =? 0)%Z && showCover && truthy title)%bool then
        match Renderer.aiCoverImage options with
        | Some aiCoverImage =>
            if truthy aiCoverImage then
              Renderer.generateAICoverWithContentHTML loadThemeCSS title aiCoverImage
                (lit "image/png") page totalPages options
            else
              Renderer.generateFirstPageWithTitleHTML loadThemeCSS title page
                totalPages options
        | None =>
            Renderer.generateFirstPageWithTitleHTML loadThemeCSS title page
              totalPages options
        end
      else Renderer.generateContentHTML loadThemeCSS page totalPages options
  | None => Renderer.generateContentHTML loadThemeCSS page totalPages options
  end.

(** The [for (let i = 0; i < pages.length; i++)] loop, from index [i] with
    the pages still to render. *)
Fixpoint renderPages_from (options : Renderer.RenderOptions) (totalPages : Z)
    (i : Z) (rest : list Page) (images : list Buffer) : run (list Buffer) :=
  match rest with
  | [] => Returns images
  | page :: rest' =>
      let ratio :=
        match Renderer.ratio options with Some r => r | None => ratio_3_4 end in
      let dimensions := DIMENSIONS ratio in
      let html := htmlOfPage options totalPages i page in
      image <- renderPage html dimensions ;;
      renderPages_from options totalPages (i + 1)%Z rest' (images ++ [image])
  end.

Definition renderPages (pages : list Page) (options : Renderer.RenderOptions)
  : run (list Buffer) :=
  let totalPages := len pages in
  renderPages_from options totalPages 0%Z pages [].

(** The result record of [textToImages]: the images and [pageCount]. *)
Definition textToImages (text : jsstring) (pages : list Page)
    (options : Renderer.RenderOptions) : run (list jsstring * Z) :=
  imageBuffers <- renderPages pages options ;;
  let images := map toBase64 imageBuffers in
  Returns (images, len images).

End WithEngine.

End RenderPages.

(** ** auto-paginator.ts *)

Module AutoPaginator.

Record AutoPaginatorOptions := {
  theme : option Theme;
  ratio : option Ratio;
  fontSize : option FontSize;
  hasTitle : option bool;
  hasAICover : option bool
}.

Definition escapeHtml (text : jsstring) : jsstring :=
  replaceAll 39 (lit "&#039;")
    (replaceAll 34 (lit "&quot;")
      (replaceAll 62 (lit "&gt;")
        (replaceAll 60 (lit "&lt;")
          (replaceAll 38 (lit "&amp;") text)))).

(** What the callback of [page.evaluate] finds in the tab: the content
    area or the page-number strip missing, no last [p] or [hr] in the
    content area, or the bottom of that last element and the top of the
    strip. *)
Inductive Layout :=
| MissingFrame
| NoLastElement
| Boxes (lastBottom pageNumTop : Q).

(** A tab: [setContent html] followed by [evaluate] of the callback. *)
Definition AutoTab := jsstring -> run Layout.

(** A browser opens a tab for a viewport (width, height). *)
Definition AutoBrowser := Z -> Z -> AutoTab.

(** The value the callback returns. *)
Definition overflowsOf (found : Layout) : bool :=
  match found with
  | MissingFrame => true
  | NoLastElement => false
  | Boxes lastBottom pageNumTop => negb (Qle_bool lastBottom (pageNumTop - 20))
  end.

Section WithThemes.
Variable loadThemeCSS : Theme -> jsstring.

Definition generateMeasureHTML (paragraphs : list jsstring)
    (options : AutoPaginatorOptions) (isFirstPage : bool) : jsstring :=
  let theme := match theme options with Some t => t | None => warm end in
  let fontSize := match fontSize options with Some f => f | None => medium end in
  let hasTitle := match hasTitle options with Some b => b | None => false end in
  let hasAICover := match hasAICover options with Some b => b | None => false end in
  let ratio := match ratio options with Some r => r | None => ratio_3_4 end in
  let css := loadThemeCSS theme in
  let fontConfig := FONT_SIZES fontSize in
  let dims := DIMENSIONS ratio in
  let showTitle := (isFirstPage && hasTitle)%bool in
  let showAICover := (isFirstPage && hasAICover)%bool in
  let paragraphsHtml :=
    join nl
      (mapi_from
         (fun p i =>
            if isRule (trim p)
            then lit "<hr class=" ++ quoted "divider" ++ lit " data-index=" ++ dq
                 ++ num i ++ dq ++ lit " />"
            else lit "<p data-index=" ++ dq ++ num i ++ dq ++ lit ">"
                 ++ escapeHtml p ++ lit "</p>")
         0%Z paragraphs) in
  let aiBannerHTML :=
    if showAICover then
      join nl [
        [];
        lit "    <div class=" ++ quoted "title-banner" ++ lit ">";
        lit "      <div class=" ++ quoted "title-banner-placeholder" ++ lit "></div>";
        lit "      <h1 class=" ++ quoted "title" ++ lit ">"
          ++ [26631; 39064; 21344; 20301]%N ++ lit "</h1>";
        lit "    </div>";
        lit "  "
      ]
    else if showTitle then
      lit "<h1 class=" ++ quoted "title" ++ lit " id=" ++ quoted "title-placeholder"
        ++ lit ">" ++ [26631; 39064; 21344; 20301]%N ++ lit "</h1>"
    else [] in
  let aiBannerCSS :=
    if showAICover then
      join nl [
        [];
        lit "    .title-banner {";
        lit "      position: relative;";
        lit "      margin: -32px -32px 25px -32px;";
        lit "      padding: 35px 32px;";
        lit "      background: linear-gradient(135deg, #ff6b6b 0%, #ff8e8e 100%);";
        lit "      min-height: 80px;";
        lit "    }";
        lit "    .title-banner h1 {";
        lit "      color: #ffffff;";
        lit "      margin: 0;";
        lit "    }";
        lit "  "
      ]
    else [] in
  join nl [
    lit "<!DOCTYPE html>";
    lit "<html>";
    lit "<head>";
    lit "  <meta charset=" ++ quoted "UTF-8" ++ lit ">";
    lit "  <style>";
    lit "    " ++ css;
    lit "    html, body {";
    lit "      margin: 0;";
    lit "      padding: 0;";
    lit "      width: " ++ num (width dims) ++ lit "px;";
    lit "      height: " ++ num (height dims) ++ lit "px;";
    lit "    }";
    lit "    .page-container {";
    lit "      width: " ++ num (width dims - 80) ++ lit "px;";
    lit "      height: " ++ num (height dims - 80) ++ lit "px;";
    lit "      margin: 45px 40px 35px;";
    lit "      position: relative;";
    lit "    }";
    lit "    .title { font-size: " ++ num (title_px fontConfig) ++ lit "px; }";
    lit "    .content { ";
    lit "      font-size: " ++ num (content_px fontConfig) ++ lit "px; ";
    lit "      flex: none !important;";
    lit "    }";
    lit "    .page-number {";
    lit "      position: absolute;";
    lit "      bottom: 0;";
    lit "      left: 0;";
    lit "      right: 0;";
    lit "    }";
    lit "    " ++ aiBannerCSS;
    lit "  </style>";
    lit "</head>";
    lit "<body>";
    lit "  <div class=" ++ quoted "page-container" ++ lit ">";
    lit "    " ++ aiBannerHTML;
    lit "    <div class=" ++ quoted "content" ++ lit " id=" ++ quoted "content-area"
      ++ lit ">";
    lit "      " ++ paragraphsHtml;
    lit "    </div>";
    lit "    <div class=" ++ quoted "page-number" ++ lit ">";
    lit "      <span>1</span> / 1";
    lit "    </div>";
    lit "  </div>";
    lit "</body>";
    lit "</html>"
  ].

Definition cleanText (text : jsstring) : jsstring :=
  trim (collapseNewlines (replaceCRLF text)).

Definition splitParagraphs (cleanedText : jsstring) : list jsstring :=
  filter (fun p => truthy (trim p)) (splitNewlines cleanedText).

Section Paginate.
Variable page : AutoTab.
Variable options : AutoPaginatorOptions.
Variable allParagraphs : list jsstring.

(** The [for (let i = startIdx; i < allParagraphs.length; i++)] loop: it
    returns [endIdx] as the [break] or the end of the array leaves it. *)
Fixpoint scan (fuel : nat) (startIdx i endIdx : Z) (isFirstPage : bool) : run Z :=
  if (i <? len allParagraphs)%Z then
    match fuel with
    | O => Diverges
    | S fuel' =>
        let hasTitle := match hasTitle options with Some b => b | None => false end in
        let testParagraphs := slice allParagraphs startIdx (i + 1) in
        let html := generateMeasureHTML testParagraphs options
                      (isFirstPage && hasTitle)%bool in
        found <- page html ;;
        let overflows := overflowsOf found in
        if overflows then Returns endIdx
        else scan fuel' startIdx (i + 1)%Z (i + 1)%Z isFirstPage
    end
  else Returns endIdx.

(** The [while (startIdx < allParagraphs.length)] loop. *)
Fixpoint paginate_loop (fuel : nat) (pages : list Page) (startIdx pageNum : Z)
  : run (list Page) :=
  if (startIdx <? len allParagraphs)%Z then
    match fuel with
    | O => Diverges
    | S fuel' =>
        let pageNum := (pageNum + 1)%Z in
        let isFirstPage := (pageNum =? 1)%Z in
        endIdx <- scan (Z.to_nat (len allParagraphs - startIdx))
                    startIdx startIdx startIdx isFirstPage ;;
        let endIdx := if (endIdx <=? startIdx)%Z then (startIdx + 1)%Z else endIdx in
        let pageContent := join (nl ++ nl) (slice allParagraphs startIdx endIdx) in
        paginate_loop fuel'
          (pages ++ [ {| content := pageContent;
                         pageNumber := pageNum;
                         isFirst := (pageNum =? 1)%Z;
                         isLast := (len allParagraphs <=? endIdx)%Z |} ])
          endIdx pageNum
    end
  else Returns pages.

End Paginate.

Definition autoPaginate (browser : AutoBrowser) (text : jsstring)
    (options : AutoPaginatorOptions) : run (list Page) :=
  let ratio := match ratio options with Some r => r | None => ratio_3_4 end in
  let dimensions := DIMENSIONS ratio in
  let allParagraphs := splitParagraphs (cleanText text) in
  if (List.length allParagraphs =? 0)%nat then Returns []
  else
    let page := browser (width dimensions) (height dimensions) in
    paginate_loop page options allParagraphs (List.length allParagraphs) [] 0%Z 0%Z.

End WithThemes.

(** The [for (i = 0; i < parts.length; i += 2)] loop of this file's
    [splitIntoSentences], which pushes the sentences trimmed. *)
Fixpoint collectTrimmed (parts : list jsstring) : list jsstring :=
  match parts with
  | [] => []
  | part :: rest =>
      match rest with
      | [] =>
          let sentence := part ++ [] in
          if truthy (trim sentence) then [trim sentence] else []
      | next :: rest' =>
          let sentence := part ++ (if truthy next then next else []) in
          (if truthy (trim sentence) then [trim sentence] else [])
            ++ collectTrimmed rest'
      end
  end.

Definition splitIntoSentences (text : jsstring) : list jsstring :=
  let parts := Paginator.splitEnders text in
  let sentences := collectTrimmed parts in
  if (len sentences >? 0)%Z then sentences else [text].

End AutoPaginator.

(** ** Vocabulary of the statements *)

(** What [escapeHtml] writes for one code unit. *)
Definition escapeChar (c : N) : jsstring :=
  if (c =? 38)%N then lit "&amp;"
  else if (c =? 60)%N then lit "&lt;"
  else if (c =? 62)%N then lit "&gt;"
  else if (c =? 34)%N then lit "&quot;"
  else if (c =? 39)%N then lit "&#039;"
  else [c].

(** The five entities [escapeHtml] emits. *)
Definition entities : list jsstring :=
  [lit "&amp;"; lit "&lt;"; lit "&gt;"; lit "&quot;"; lit "&#039;"].


(** The content height [findPageBreak] reads when it probes the first [k]
    paragraphs from [startIndex]. *)
Definition probeHeight (loadThemeCSS : Theme -> jsstring) (page : PlaywrightPage)
    (paragraphs : list jsstring) (startIndex : Z)
    (options : SmartPaginator.SmartPaginatorOptions) (k : Z) : run Q :=
  found <- page (SmartPaginator.probe loadThemeCSS paragraphs startIndex options k)
             ContentClass ;;
  Returns (SmartPaginator.contentHeightOf found).

(** The same height as a number, for a probe that returns. *)
Definition answeredHeight (loadThemeCSS : Theme -> jsstring) (page : PlaywrightPage)
    (paragraphs : list jsstring) (startIndex : Z)
    (options : SmartPaginator.SmartPaginatorOptions) (k : Z) : Q :=
  match probeHeight loadThemeCSS page paragraphs startIndex options k with
  | Returns q => q
  | _ => 0
  end.

(** A tab every call of which settles with a value: none is rejected and
    none hangs. *)
Definition always_answers (page : PlaywrightPage) : Prop :=
  forall html el, exists found, page html el = Returns found.

(** The reading of the measurer's failure rule: an absent content element
    makes [measureAvailableHeight] raise. *)
Definition missing_element_is_an_error : Prop :=
  forall loadThemeCSS page options hasTitle dimensions,
    page
      (SmartPaginator.measureHTML
         (loadThemeCSS match SmartPaginator.theme options with
                       | Some t => t | None => minimal end)
         (FONT_SIZES match SmartPaginator.fontSize options with
                     | Some f => f | None => medium end)
         hasTitle dimensions)
      MeasureContentId = Returns None ->
    SmartPaginator.measureAvailableHeight loadThemeCSS page options hasTitle
      dimensions = Throws.

(** A paragraph as the split produces it: no line feed inside, and not
    whitespace-only. *)
Definition is_paragraph (p : jsstring) : Prop :=
  ~ In LF p /\ truthy (trim p) = true.

(** The reading of the split rule under which only blank lines separate
    paragraphs: two non-blank lines with a single line feed between them
    stay one paragraph. *)
Definition split_only_at_blank_lines : Prop :=
  forall a b,
    is_paragraph a -> is_paragraph b ->
    SmartPaginator.splitParagraphs (a ++ nl ++ b) = [a ++ nl ++ b].

(** The three fields every page record carries. *)
Class PageLike (P : Type) := {
  number_of : P -> Z;
  first_of : P -> bool;
  last_of : P -> bool
}.

#[export] Instance Page_PageLike : PageLike Page :=
  {| number_of := pageNumber; first_of := isFirst; last_of := isLast |}.

#[export] Instance SmartPage_PageLike : PageLike SmartPaginator.SmartPage :=
  {| number_of := SmartPaginator.pageNumber;
     first_of := SmartPaginator.isFirst;
     last_of := SmartPaginator.isLast |}.

(** Numbering from 1 without gaps, [isFirst] exactly at index 0 and
    [isLast] exactly at the last index. *)
Definition well_flagged {P : Type} `{PageLike P} (pages : list P) : Prop :=
  forall i p,
    nth_error pages i = Some p ->
    number_of p = (Z.of_nat i + 1)%Z
    /\ first_of p = (i =? 0)%nat
    /\ last_of p = (S i =? List.length pages)%nat.

(** The same before the last page is marked: the flag of the last page is
    left open. *)
Definition flagged_but_last {P : Type} `{PageLike P} (pages : list P) : Prop :=
  forall i p,
    nth_error pages i = Some p ->
    number_of p = (Z.of_nat i + 1)%Z
    /\ first_of p = (i =? 0)%nat
    /\ ((S i < List.length pages)%nat -> last_of p = false).

(** The pages a loop has pushed so far: numbered, and none marked last. *)
Definition all_unmarked {P : Type} `{PageLike P} (pages : list P) : Prop :=
  forall i p,
    nth_error pages i = Some p ->
    number_of p = (Z.of_nat i + 1)%Z
    /\ first_of p = (i =? 0)%nat
    /\ last_of p = false.

(** A page of [smartPaginate] whose text is its paragraphs joined by a
    blank line, and which holds at least one paragraph. *)
Definition page_holds_its_paragraphs (p : SmartPaginator.SmartPage) : Prop :=
  SmartPaginator.content p = join (nl ++ nl) (SmartPaginator.paragraphs p)
  /\ SmartPaginator.paragraphs p <> [].

(** The markup both the probe and the content page write before the page
    number, around a content block [body], and after the total. *)
Definition markupUpToFooter (css : jsstring) (fontConfig : FontConfig)
    (body : jsstring) : jsstring :=
  join nl [
    lit "<!DOCTYPE html>";
    lit "<html>";
    lit "<head>";
    lit "  <meta charset=" ++ quoted "UTF-8" ++ lit ">";
    lit "  <style>";
    lit "    " ++ css;
    lit "    .title { font-size: " ++ num (title_px fontConfig) ++ lit "px; }";
    lit "    .content { font-size: " ++ num (content_px fontConfig) ++ lit "px; }";
    lit "  </style>";
    lit "</head>";
    lit "<body>";
    lit "  <div class=" ++ quoted "page-container" ++ lit ">";
    lit "    <div class=" ++ quoted "content" ++ lit ">";
    lit "      " ++ body;
    lit "    </div>";
    lit "    <div class=" ++ quoted "page-number" ++ lit ">";
    lit "      <span>"
  ].

Definition markupAfterFooter : jsstring :=
  nl ++ join nl [lit "    </div>"; lit "  </div>"; lit "</body>"; lit "</html>"].

(** The reading of the markup rule under which a probe and the content
    page built from the same paragraphs are the same bytes, footer
    included, whatever the page's number and the total. *)
Definition probe_markup_is_page_markup : Prop :=
  forall loadThemeCSS paragraphs startIndex k options renderOptions page totalPages,
    Forall is_paragraph paragraphs ->
    Renderer.theme renderOptions = SmartPaginator.theme options ->
    Renderer.fontSize renderOptions = SmartPaginator.fontSize options ->
    content page = join (nl ++ nl) (slice paragraphs startIndex (startIndex + k)) ->
    SmartPaginator.probe loadThemeCSS paragraphs startIndex options k
    = Renderer.generateContentHTML loadThemeCSS page totalPages renderOptions.

(** *** Sentences *)

Definition no_enders (s : jsstring) : Prop :=
  forallb (fun c => negb (Paginator.is_ender c)) s = true.

Definition all_enders (s : jsstring) : Prop :=
  forallb Paginator.is_ender s = true.

(** A returned sentence: text without terminators, then a run of
    terminators (empty when the text ended without one); never
    whitespace-only. *)
Definition is_sentence (s : jsstring) : Prop :=
  exists fragment run,
    s = fragment ++ run /\ no_enders fragment /\ all_enders run
    /\ truthy (trim s) = true.

Definition ends_with_run (s : jsstring) : Prop :=
  exists fragment run,
    s = fragment ++ run /\ no_enders fragment /\ all_enders run /\ run <> [].

Definition starts_without_ender (s : jsstring) : Prop :=
  exists c rest, s = c :: rest /\ Paginator.is_ender c = false.

(** The array of [split] with a capture group, as the statements see it:
    pieces without terminators alternate with non-empty runs of
    terminators, starting and ending with a piece; a piece between two
    runs is not empty ([inner] tells that a run precedes the first piece). *)
Fixpoint alternating (inner : bool) (parts : list jsstring) : Prop :=
  match parts with
  | [] => False
  | piece :: rest =>
      no_enders piece
      /\ match rest with
         | [] => True
         | run :: rest' =>
             (inner = true -> piece <> [])
             /\ all_enders run /\ run <> [] /\ alternating true rest'
         end
  end.

(** The pieces of the array: its entries at even indices. *)
Fixpoint pieces (parts : list jsstring) : list jsstring :=
  match parts with
  | [] => []
  | piece :: rest =>
      piece :: match rest with
               | [] => []
               | _ :: rest' => pieces rest'
               end
  end.

(** The fragments of a text: what its runs of terminators separate, the
    fragment before the first run and the one after the last included. *)
Definition fragments (text : jsstring) : list jsstring :=
  pieces (Paginator.splitEnders text).

(** Not whitespace-only: the fragment is empty or has a code unit other
    than white space. *)
Definition not_whitespace_only (fragment : jsstring) : Prop :=
  fragment = [] \/ truthy (trim fragment) = true.

(** [cur] put in front of the first entry. *)
Definition onHead (cur : jsstring) (parts : list jsstring) : list jsstring :=
  match parts with
  | [] => []
  | h :: t => (cur ++ h) :: t
  end.

(** *** Pages of [paginateText] and what they were built from *)

(** The limit that applies to the page at index [i]. *)
Definition limit_of (firstPageMaxChars maxChars : Z) (i : nat) : Z :=
  if (i =? 0)%nat then firstPageMaxChars else maxChars.

(** A sentence unit comes from splitting a paragraph longer than one of
    the two limits. *)
Definition unit_ok (firstPageMaxChars maxChars : Z) (u : Paginator.TextUnit) : Prop :=
  match u with
  | Paginator.WholeParagraph _ => True
  | Paginator.Sentence paragraph sentence =>
      In sentence (Paginator.splitIntoSentences paragraph)
      /\ (firstPageMaxChars < strlen paragraph
          \/ maxChars < strlen paragraph)%Z
  end.

(** A page within its limit [L]: with two or more units its counted
    characters are at most [L], and it exceeds [L] only as one sentence. *)
Definition page_within (firstPageMaxChars maxChars L : Z)
    (units : list Paginator.TextUnit) : Prop :=
  Forall (unit_ok firstPageMaxChars maxChars) units
  /\ ((2 <= List.length units)%nat -> (Paginator.totalLength units <= L)%Z)
  /\ ((L < Paginator.totalLength units)%Z ->
      exists paragraph sentence, units = [Paginator.Sentence paragraph sentence]).

(** The text of a page built from [units]. *)
Definition textOf (units : list Paginator.TextUnit) : jsstring :=
  List.concat (map Paginator.unitText units).

(** What the traced loop maintains. *)
Definition trace_invariant (firstPageMaxChars maxChars : Z) (t : Paginator.Traced)
  : Prop :=
  let st := Paginator.state t in
  List.length (Paginator.emitted t) = List.length (Paginator.pages st)
  /\ Paginator.currentCharCount st = Paginator.totalLength (Paginator.currentUnits t)
  /\ Paginator.currentPageContent st = textOf (Paginator.currentUnits t)
  /\ (Paginator.currentUnits t = []
      \/ page_within firstPageMaxChars maxChars
           (Paginator.getCurrentMaxChars firstPageMaxChars maxChars st)
           (Paginator.currentUnits t))
  /\ (forall i units page,
        nth_error (Paginator.emitted t) i = Some units ->
        nth_error (Paginator.pages st) i = Some page ->
        units <> []
        /\ page_within firstPageMaxChars maxChars
             (limit_of firstPageMaxChars maxChars i) units
        /\ content page = trim (textOf units)).

(** ** Sample inputs *)

Definition noCSS : Theme -> jsstring := fun _ => [].

(** A tab that measures one unit of height per code unit of markup. *)
Definition lengthPage : PlaywrightPage :=
  fun html _ => Returns (Some (inject_Z (strlen html))).

(** A tab in which no looked-up element exists. *)
Definition emptyPage : PlaywrightPage := fun _ _ => Returns None.

(** A browser whose tabs report a content area of 374 units and measure
    probes by the length of their markup. *)
Definition rulerBrowser : Browser :=
  fun _ _ html el =>
    match el with
    | MeasureContentId => Returns (Some 374)
    | ContentClass => Returns (Some (inject_Z (strlen html)))
    end.

Definition defaults : SmartPaginator.SmartPaginatorOptions :=
  {| SmartPaginator.theme := None; SmartPaginator.ratio := None;
     SmartPaginator.fontSize := None; SmartPaginator.hasTitle := None;
     SmartPaginator.titleHeight := None |}.

Definition abc : list jsstring := [lit "a"; lit "b"; lit "c"].

(** Five characters a page, and a text whose second paragraph is longer. *)
Definition fiveChars : Paginator.PaginatorOptions :=
  {| Paginator.charsPerPage := Some 5%Z; Paginator.firstPageChars := None;
     Paginator.fontSize := None; Paginator.ratio := None;
     Paginator.dynamicCount := None; Paginator.hasTitle := None |}.

Definition noAdjust : Z -> Q -> Z := fun baseChars _ => baseChars.

Definition shortAndLong : jsstring := lit "ab" ++ nl ++ lit "cd efgh. ij".

Definition renderDefaults : Renderer.RenderOptions :=
  {| Renderer.theme := None; Renderer.ratio := None; Renderer.fontSize := None;
     Renderer.title := None; Renderer.showCover := None;
     Renderer.aiCoverImage := None |}.

(** The second of two pages, holding the paragraph [c]. *)
Definition secondPage : Page :=
  {| content := lit "c"; pageNumber := 2; isFirst := false; isLast := true |}.

(** *** More sample inputs *)

(** Heights that are not monotone in the number of paragraphs: the
    prefix of two is shorter than the prefix of one. *)
Definition zigzagHeights (k : Z) : Q :=
  if (k =? 2)%Z then 5 else 20.

(** A tab that measures the probes of [paragraphs] from index 0 by
    [zigzagHeights] of their number of paragraphs. *)
Definition zigzagPage (paragraphs : list jsstring) : PlaywrightPage :=
  fun html _ =>
    if list_eq_dec N.eq_dec html (SmartPaginator.probe noCSS paragraphs 0 defaults 2)
    then Returns (Some 5)
    else Returns (Some 20).

(** A browser whose tabs fail at every lookup. *)
Definition silentBrowser : Browser := fun _ _ _ _ => Throws.

(** A browser all of whose tabs measure by the length of the markup. *)
Definition lengthBrowser : Browser := fun _ _ => lengthPage.

(** Three paragraphs, the last after a blank line. *)
Definition abcText : jsstring := lit "a" ++ nl ++ lit "b" ++ nl ++ nl ++ lit "c".

Definition blankText : jsstring := lit "  " ++ nl ++ [CR] ++ nl ++ lit " ".

(** A code unit that [escapeHtml] leaves alone. *)
Definition is_plain (c : N) : bool :=
  negb ((c =? 38) || (c =? 60) || (c =? 62) || (c =? 34) || (c =? 39))%N.

(** Whether the tab reports an overflow when [autoPaginate] tries the
    paragraphs from [startIdx] up to and including index [i]. *)
Definition overflowsAt (loadThemeCSS : Theme -> jsstring) (page : AutoPaginator.AutoTab)
    (options : AutoPaginator.AutoPaginatorOptions) (allParagraphs : list jsstring)
    (startIdx : Z) (isFirstPage : bool) (i : Z) : run bool :=
  let hasTitle := match AutoPaginator.hasTitle options with
                  | Some b => b | None => false end in
  found <- page (AutoPaginator.generateMeasureHTML loadThemeCSS
                   (slice allParagraphs startIdx (i + 1)) options
                   (isFirstPage && hasTitle)%bool) ;;
  Returns (AutoPaginator.overflowsOf found).

(** The pages are the joins of consecutive non-empty groups of the
    paragraphs [all], in order. *)
Definition pages_partition (all : list jsstring) (pages : list Page) : Prop :=
  exists groups,
    List.concat groups = all
    /\ Forall (fun g => g <> []) groups
    /\ map content pages = map (join (nl ++ nl)) groups.

Definition autoDefaults : AutoPaginator.AutoPaginatorOptions :=
  {| AutoPaginator.theme := None; AutoPaginator.ratio := None;
     AutoPaginator.fontSize := None; AutoPaginator.hasTitle := None;
     AutoPaginator.hasAICover := None |}.

(** A browser whose tabs lay the last element out at the length of the
    markup, above a page-number strip at [strip]. *)
Definition stripBrowser (strip : Q) : AutoPaginator.AutoBrowser :=
  fun _ _ html => Returns (AutoPaginator.Boxes (inject_Z (strlen html)) strip).

(** A browser in whose tabs the measuring frame is never found. *)
Definition framelessBrowser : AutoPaginator.AutoBrowser :=
  fun _ _ _ => Returns AutoPaginator.MissingFrame.

(** The units one paragraph contributes to the pages: the paragraph
    itself, trimmed, or the sentences [splitIntoSentences] returns for it. *)
Definition block_of (raw : jsstring) (block : list Paginator.TextUnit) : Prop :=
  block = [Paginator.WholeParagraph (trim raw)]
  \/ block = map (Paginator.Sentence (trim raw))
               (Paginator.splitIntoSentences (trim raw)).

(** Every unit of the traced loop so far, emitted or on the page being
    built. *)
Definition allUnits (t : Paginator.Traced) : list Paginator.TextUnit :=
  List.concat (Paginator.emitted t) ++ Paginator.currentUnits t.

(** A unit whose text is not white space only. *)
Definition unit_nonblank (u : Paginator.TextUnit) : Prop :=
  truthy (trim (Paginator.unitText u)) = true.

Definition plainOptions : Paginator.PaginatorOptions :=
  {| Paginator.charsPerPage := None; Paginator.firstPageChars := None;
     Paginator.fontSize := None; Paginator.ratio := None;
     Paginator.dynamicCount := None; Paginator.hasTitle := None |}.

(** The characters [paginateText] counts for a list of paragraphs. *)
Definition countedChars (paragraphs : list jsstring) : Z :=
  fold_right (fun p acc => strlen (trim p) + acc)%Z 0%Z paragraphs.

(** The line [generateFirstPageWithTitleHTML] writes for the title. *)
Definition titleLine (title : jsstring) : jsstring :=
  lit "    <h1 class=" ++ quoted "title" ++ lit ">" ++ Renderer.escapeHtml title
  ++ lit "</h1>".

(** The viewport [renderPages] uses. *)
Definition viewportOf (options : Renderer.RenderOptions) : Dimensions :=
  DIMENSIONS match Renderer.ratio options with Some r => r | None => ratio_3_4 end.

(** A screenshot engine whose image is the markup itself. *)
Definition echoShot : RenderPages.Screenshot := fun html _ => Returns html.

(** An engine that fails on the markup of a page numbered 2. *)
Definition failsOnSecond : RenderPages.Screenshot :=
  fun html _ =>
    if list_eq_dec N.eq_dec html
         (Renderer.generateContentHTML noCSS secondPage 2 renderDefaults)
    then Throws else Returns html.

Definition firstPage : Page :=
  {| content := lit "a"; pageNumber := 1; isFirst := true; isLast := false |}.

Definition titled : Renderer.RenderOptions :=
  {| Renderer.theme := None; Renderer.ratio := None; Renderer.fontSize := None;
     Renderer.title := Some (lit "T<1>"); Renderer.showCover := Some true;
     Renderer.aiCoverImage := None |}.

(** What the loop of [autoPaginate] keeps true of the pages pushed so
    far, with the cursor at [startIdx]: they are numbered, and only the
    one pushed last can be flagged last, when the cursor is at the end. *)
Definition auto_flags (allParagraphs : list jsstring) (pages : list Page)
    (startIdx : Z) : Prop :=
  forall i p,
    nth_error pages i = Some p ->
    pageNumber p = (Z.of_nat i + 1)%Z
    /\ isFirst p = (i =? 0)%nat
    /\ isLast p = ((S i =? List.length pages)%nat
                   && (len allParagraphs <=? startIdx)%Z)%bool.

(** *** Statements revisited *)

(** The seven sentence terminators, fullwidth full stop, exclamation
    mark, question mark and semicolon, then [.], [!] and [?]. *)
Definition terminators : list N := [12290; 65281; 65311; 65307; 46; 33; 63]%N.


(** The paragraphs [s, s + k) of a list. *)
Definition window (paragraphs : list jsstring) (s k : Z) : list jsstring :=
  firstn (Z.to_nat k) (skipn (Z.to_nat s) paragraphs).

(** The page skeleton around the paragraphs [shown]: the document whose
    content block holds the markup of each of them, one per line, and
    whose footer reads 1 / 1. *)
Definition skeletonAround (css : jsstring) (fontConfig : FontConfig)
    (shown : list jsstring) : jsstring :=
  markupUpToFooter css fontConfig
    (join nl (map SmartPaginator.paragraphToHtml shown))
  ++ lit "1" ++ lit "</span> / " ++ lit "1" ++ markupAfterFooter.

(** The content height a tab reports for a document. *)
Definition measuredHeight (page : PlaywrightPage) (document : jsstring) : run Q :=
  found <- page document ContentClass ;;
  Returns (SmartPaginator.contentHeightOf found).

(** The document of a content page up to and including the line that
    opens the page container. *)
Definition pageOpening (css : jsstring) (fontConfig : FontConfig) : jsstring :=
  join nl [
    lit "<!DOCTYPE html>";
    lit "<html>";
    lit "<head>";
    lit "  <meta charset=" ++ quoted "UTF-8" ++ lit ">";
    lit "  <style>";
    lit "    " ++ css;
    lit "    .title { font-size: " ++ num (title_px fontConfig) ++ lit "px; }";
    lit "    .content { font-size: " ++ num (content_px fontConfig) ++ lit "px; }";
    lit "  </style>";
    lit "</head>";
    lit "<body>";
    lit "  <div class=" ++ quoted "page-container" ++ lit ">"
  ] ++ nl.

(** The length of the skeleton around [shown], without a stylesheet and
    at the medium font scale: what [lengthPage] measures for a probe. *)
Definition skeletonLength (shown : list jsstring) : Q :=
  inject_Z (strlen (skeletonAround [] (FONT_SIZES medium) shown)).

(** A text with each of the seven terminators once. *)
Definition sevenEnders : jsstring :=
  lit "a" ++ [65307]%N ++ lit "b? c" ++ [12290]%N ++ lit "d" ++ [65281]%N
  ++ lit "e" ++ [65311]%N ++ lit "f.g!h".

(** * Properties *)

(** ** [escapeHtml] *)

Section EscapeHtml.

Lemma replaceAll_flat_map (c : N) (b : jsstring) (f : N -> jsstring) (s : jsstring) :
  replaceAll c b (flat_map f s) = flat_map (fun x => replaceAll c b (f x)) s.
Proof.
  induction s as [|x s IH]; simpl; [reflexivity|].
  unfold replaceAll in *. now rewrite flat_map_app, IH.
Qed.

Lemma escapeHtml_per_char (s : jsstring) :
  Renderer.escapeHtml s = flat_map escapeChar s.
Proof.
  unfold Renderer.escapeHtml.
  unfold replaceAll at 5.
  rewrite !replaceAll_flat_map.
  apply flat_map_ext; intro c. unfold escapeChar.
  destruct (N.eqb_spec c 38) as [->|]; [reflexivity|].
  destruct (N.eqb_spec c 60) as [->|]; [reflexivity|].
  destruct (N.eqb_spec c 62) as [->|]; [reflexivity|].
  destruct (N.eqb_spec c 34) as [->|]; [reflexivity|].
  destruct (N.eqb_spec c 39) as [->|]; [reflexivity|].
  unfold replaceAll; simpl.
  repeat match goal with
         | |- context [(c =? ?k)%N] =>
             destruct (N.eqb_spec c k); [congruence|]; simpl
         end.
  reflexivity.
Qed.

Lemma escapeChar_cases (c : N) :
  (escapeChar c = [c] /\ c <> 38 /\ c <> 60 /\ c <> 62 /\ c <> 34 /\ c <> 39)%N
  \/ In (escapeChar c) entities.
Proof.
  unfold escapeChar, entities.
  destruct (N.eqb_spec c 38); [right; simpl; tauto|].
  destruct (N.eqb_spec c 60); [right; simpl; tauto|].
  destruct (N.eqb_spec c 62); [right; simpl; tauto|].
  destruct (N.eqb_spec c 34); [right; simpl; tauto|].
  destruct (N.eqb_spec c 39); [right; simpl; tauto|].
  left; tauto.
Qed.

(** No entity contains a markup character, and its only ampersand is its
    first code unit. *)
Lemma entity_shape (e : jsstring) :
  In e entities ->
  exists body, e = 38%N :: body
               /\ ~ In 38%N body /\ ~ In 60%N e /\ ~ In 62%N e
               /\ ~ In 34%N e /\ ~ In 39%N e.
Proof.
  unfold entities; simpl.
  intros [<-|[<-|[<-|[<-|[<-|[]]]]]]; eexists; (split; [reflexivity|]);
    simpl; repeat split; intros H; repeat destruct H as [H|H]; try discriminate H;
    exact H.
Qed.







End EscapeHtml.

(** ** [findPageBreak]: the binary search *)

Section FindPageBreak.

Variable loadThemeCSS : Theme -> jsstring.
Variable page : PlaywrightPage.
Variable paragraphs : list jsstring.
Variable startIndex : Z.
Variable options : SmartPaginator.SmartPaginatorOptions.

Local Abbreviation loop := (SmartPaginator.findPageBreak_loop loadThemeCSS page
                          paragraphs startIndex options).
Local Abbreviation findPageBreak := (SmartPaginator.findPageBreak loadThemeCSS page
                                   paragraphs startIndex options).
Local Abbreviation height_at := (probeHeight loadThemeCSS page paragraphs startIndex options).
Local Abbreviation n := (len paragraphs - startIndex)%Z.

Local Open Scope Z_scope.

Lemma midpoint_bounds (low high : Z) :
  low <= high -> low <= (low + high) / 2 <= high.
Proof.
  intros H.
  pose proof (Z.div_mod (low + high) 2 ltac:(lia)).
  pose proof (Z.mod_pos_bound (low + high) 2 ltac:(lia)).
  lia.
Qed.

(** One iteration of the loop, once the probe has returned. *)
Lemma loop_step (h : Q) (fuel : nat) (low high result : Z) (hk : Q) :
  low <= high ->
  height_at ((low + high) / 2) = Returns hk ->
  loop h (S fuel) low high result =
    if Qle_bool hk h
    then loop h fuel ((low + high) / 2 + 1) high ((low + high) / 2)
    else loop h fuel low ((low + high) / 2 - 1) result.
Proof.
  intros Hle Hk. simpl.
  apply Z.leb_le in Hle. rewrite Hle.
  unfold probeHeight in Hk.
  destruct (page _ ContentClass) as [found| |]; simpl in *; try discriminate.
  now inversion Hk.
Qed.

Lemma loop_exit (h : Q) (fuel : nat) (low high result : Z) :
  high < low -> loop h fuel low high result = Returns result.
Proof.
  intros H. apply Z.leb_gt in H. destruct fuel; simpl; now rewrite H.
Qed.

(** The fuel given to the loop is never what ends it: the interval
    shrinks at every iteration, so a search without outcome is a probe
    without outcome. *)
Lemma loop_fuel_suffices (h : Q) (fuel : nat) :
  (forall html el, page html el <> Diverges) ->
  forall low high result,
    (Z.to_nat (high + 1 - low) <= fuel)%nat ->
    loop h fuel low high result <> Diverges.
Proof.
  intros Hpage. induction fuel as [|fuel IH]; intros low high result Hfuel; simpl;
    destruct (Z.leb_spec low high) as [Hle|Hgt]; try discriminate; try lia.
  pose proof (midpoint_bounds _ _ Hle) as Hmid.
  destruct (page _ ContentClass) as [found| |] eqn:Hprobe; simpl;
    [| discriminate | now apply Hpage in Hprobe].
  destruct (Qle_bool _ h); apply IH; lia.
Qed.

Lemma findPageBreak_fuel_suffices (h : Q) :
  (forall html el, page html el <> Diverges) ->
  findPageBreak h <> Diverges.
Proof.
  intros Hpage. unfold SmartPaginator.findPageBreak.
  pose proof (loop_fuel_suffices h (Z.to_nat n) Hpage 1 n 0 ltac:(lia)) as Hloop.
  destruct (SmartPaginator.findPageBreak_loop _ _ _ _ _ _ _ _ _ _);
    simpl; [discriminate | discriminate | contradiction].
Qed.

Section Returning.
(** The probes of this search all return. *)
Variable heights : Z -> Q.
Hypothesis probes_return :
  forall k, 1 <= k <= n -> height_at k = Returns (heights k).

(** Whatever the oracle, the search ends at a boundary: the count it
    settles on fits unless it is [low - 1], and the next one does not fit
    unless the count is [high]. *)
Lemma loop_boundary (h : Q) (fuel : nat) :
  forall low high,
    (Z.to_nat (high + 1 - low) <= fuel)%nat ->
    1 <= low -> high <= n ->
    exists r,
      loop h fuel low high (low - 1) = Returns r
      /\ low - 1 <= r /\ (low <= high + 1 -> r <= high)
      /\ (low <= r -> Qle_bool (heights r) h = true)
      /\ (r < high -> Qle_bool (heights (r + 1)) h = false).
Proof.
  induction fuel as [|fuel IH]; intros low high Hfuel Hlow Hhigh.
  - exists (low - 1). rewrite loop_exit by lia. repeat split; lia.
  - destruct (Z_lt_le_dec high low) as [Hgt|Hle].
    + exists (low - 1). rewrite loop_exit by lia. repeat split; lia.
    + pose proof (midpoint_bounds _ _ Hle) as Hmid.
      rewrite (loop_step h fuel low high (low - 1) _ Hle (probes_return ((low + high) / 2) ltac:(lia))).
      set (mid := (low + high) / 2) in *.
      destruct (Qle_bool (heights mid) h) eqn:Hfit.
      * destruct (IH (mid + 1) high ltac:(lia) ltac:(lia) Hhigh)
          as (r & Hr & Hlo & Hhi & Hfits & Hnext).
        replace (mid + 1 - 1) with mid in Hr by lia.
        exists r. split; [exact Hr|]. repeat split; try lia.
        -- intros _. destruct (Z.eq_dec r mid) as [->|]; [exact Hfit|].
           apply Hfits; lia.
        -- exact Hnext.
      * destruct (IH low (mid - 1) ltac:(lia) Hlow ltac:(lia))
          as (r & Hr & Hlo & Hhi & Hfits & Hnext).
        exists r. split; [exact Hr|]. repeat split; try lia.
        -- exact Hfits.
        -- intros Hlt. destruct (Z.eq_dec r (mid - 1)) as [->|].
           ++ now replace (mid - 1 + 1) with mid by lia.
           ++ apply Hnext; lia.
Qed.

Lemma findPageBreak_boundary (h : Q) :
  exists r,
    SmartPaginator.findPageBreak_loop loadThemeCSS page paragraphs startIndex
      options h (Z.to_nat n) 1 n 0 = Returns r
    /\ 0 <= r /\ (0 <= n -> r <= n)
    /\ (1 <= r -> Qle_bool (heights r) h = true)
    /\ (r < n -> Qle_bool (heights (r + 1)) h = false).
Proof.
  destruct (loop_boundary h (Z.to_nat n) 1 n ltac:(lia) ltac:(lia) ltac:(lia))
    as (r & Hr & H1 & H2 & H3 & H4).
  exists r. simpl in Hr. repeat split; auto; lia.
Qed.

(** The search over the heights of the probes: when they are monotone
    non-decreasing in the number of paragraphs probed, the count returned
    is the largest that fits, and 1 when none fits. *)
Lemma findPageBreak_largest_among_heights (h : Q) :
  startIndex < len paragraphs ->
  (forall i j, 1 <= i <= j -> j <= n -> (heights i <= heights j)%Q) ->
  exists k,
    findPageBreak h = Returns k
    /\ 1 <= k <= n
    /\ ((exists j, 1 <= j <= n /\ (heights j <= h)%Q) ->
        (heights k <= h)%Q
        /\ forall j, 1 <= j <= n -> (heights j <= h)%Q -> j <= k)
    /\ (~ (heights 1 <= h)%Q -> k = 1).
Proof.
  intros Hstart Hmono.
  destruct (findPageBreak_boundary h) as (r & Hr & H0 & Hn & Hfits & Hnext).
  unfold SmartPaginator.findPageBreak. rewrite Hr. simpl.
  destruct (Z.gtb_spec r 0) as [Hpos|Hzero].
  - exists r. split; [reflexivity|]. split; [lia|].
    pose proof (proj1 (Qle_bool_iff _ _) (Hfits ltac:(lia))) as Hfit.
    split.
    + intros _. split; [exact Hfit|].
      intros j Hj Hjfit. destruct (Z_le_gt_dec j r) as [|Hgt]; [assumption|].
      exfalso.
      assert (Hbad : Qle_bool (heights (r + 1)) h = true).
      { apply Qle_bool_iff. apply Qle_trans with (heights j); [|exact Hjfit].
        apply Hmono; lia. }
      rewrite Hnext in Hbad by lia. discriminate.
    + intros Hover. exfalso. apply Hover.
      apply Qle_trans with (heights r); [|exact Hfit]. apply Hmono; lia.
  - assert (r = 0) by lia. subst r.
    assert (Hover : ~ (heights 1 <= h)%Q).
    { intros Hfit. apply Qle_bool_iff in Hfit. simpl in Hnext.
      rewrite Hnext in Hfit by lia. discriminate. }
    exists 1. split; [reflexivity|]. split; [lia|]. split.
    + intros (j & Hj & Hjfit). exfalso. apply Hover.
      apply Qle_trans with (heights j); [|exact Hjfit]. apply Hmono; lia.
    + reflexivity.
Qed.

End Returning.

Local Abbreviation height_of :=
  (answeredHeight loadThemeCSS page paragraphs startIndex options).

Lemma height_of_returns :
  (forall k, 1 <= k <= n -> exists q, height_at k = Returns q) ->
  forall k, 1 <= k <= n -> height_at k = Returns (height_of k).
Proof.
  intros H k Hk. destruct (H k Hk) as (q & Hq). unfold answeredHeight. now rewrite Hq.
Qed.

(** Two searches over the same probes with budgets [h1 <= h2]: from the
    same state, the second ends at a count at least as large. *)
Lemma loop_monotone (h1 h2 : Q) (fuel : nat) :
  (forall k, 1 <= k <= n -> exists q, height_at k = Returns q) ->
  (h1 <= h2)%Q ->
  forall low high,
    (Z.to_nat (high + 1 - low) <= fuel)%nat ->
    1 <= low -> high <= n ->
    exists r1 r2,
      loop h1 fuel low high (low - 1) = Returns r1
      /\ loop h2 fuel low high (low - 1) = Returns r2
      /\ r1 <= r2.
Proof.
  intros Hret Hh.
  pose proof (height_of_returns Hret) as Hheights.
  induction fuel as [|fuel IH]; intros low high Hfuel Hlow Hhigh.
  - exists (low - 1), (low - 1). rewrite !loop_exit by lia. repeat split; lia.
  - destruct (Z_lt_le_dec high low) as [Hgt|Hle].
    + exists (low - 1), (low - 1). rewrite !loop_exit by lia. repeat split; lia.
    + pose proof (midpoint_bounds _ _ Hle) as Hmid.
      rewrite !(loop_step _ fuel low high (low - 1) _ Hle
                  (Hheights ((low + high) / 2) ltac:(lia))).
      set (mid := (low + high) / 2) in *.
      destruct (Qle_bool (height_of mid) h1) eqn:Hfit1;
        destruct (Qle_bool (height_of mid) h2) eqn:Hfit2.
      * destruct (IH (mid + 1) high ltac:(lia) ltac:(lia) Hhigh)
          as (r1 & r2 & H1 & H2 & Hr).
        replace (mid + 1 - 1) with mid in H1, H2 by lia. eauto.
      * apply Qle_bool_iff in Hfit1.
        assert (Hbad : Qle_bool (height_of mid) h2 = true)
          by (apply Qle_bool_iff; eapply Qle_trans; eassumption).
        congruence.
      * destruct (loop_boundary height_of Hheights h1 fuel low (mid - 1)
                    ltac:(lia) Hlow ltac:(lia)) as (r1 & H1 & _ & Hup & _).
        destruct (loop_boundary height_of Hheights h2 fuel (mid + 1) high
                    ltac:(lia) ltac:(lia) Hhigh) as (r2 & H2 & Hdown & _).
        replace (mid + 1 - 1) with mid in H2 by lia.
        exists r1, r2. repeat split; [assumption..|lia].
      * apply (IH low (mid - 1)); lia.
Qed.

(** C6. With the paragraphs, the start index, the options and the oracle
    fixed, and every probe answered, the count [findPageBreak] returns is
    monotone non-decreasing in the budget: [h1 <= h2] gives counts
    [k1 <= k2]. *)
Theorem findPageBreak_monotone_in_budget (h1 h2 : Q) :
  (forall k, 1 <= k <= n -> exists q, height_at k = Returns q) ->
  (h1 <= h2)%Q ->
  exists k1 k2,
    findPageBreak h1 = Returns k1
    /\ findPageBreak h2 = Returns k2
    /\ k1 <= k2.
Proof.
  intros Hret Hh.
  destruct (loop_monotone h1 h2 (Z.to_nat n) Hret Hh 1 n
              ltac:(lia) ltac:(lia) ltac:(lia)) as (r1 & r2 & H1 & H2 & Hr).
  pose proof (height_of_returns Hret) as Hheights.
  destruct (findPageBreak_boundary height_of Hheights h1) as (r1' & H1' & Hpos1 & _).
  simpl in H1, H2. rewrite H1 in H1'. inversion H1'; subst r1'.
  unfold SmartPaginator.findPageBreak. rewrite H1, H2. simpl.
  do 2 eexists. split; [reflexivity|]. split; [reflexivity|].
  destruct (Z.gtb_spec r1 0), (Z.gtb_spec r2 0); lia.
Qed.

End FindPageBreak.

Lemma findPageBreak_monotone_in_budget_witness :
  exists k1 k2,
    SmartPaginator.findPageBreak noCSS lengthPage abc 0 defaults 335 = Returns k1
    /\ SmartPaginator.findPageBreak noCSS lengthPage abc 0 defaults 344 = Returns k2
    /\ (k1 <= k2)%Z.
Proof.
  apply findPageBreak_monotone_in_budget.
  - intros k _. eexists. reflexivity.
  - vm_compute; discriminate.
Defined.

(** ** [measureAvailableHeight] *)

Section MeasureAvailableHeight.

Variable loadThemeCSS : Theme -> jsstring.

Local Abbreviation measureAvailableHeight :=
  (SmartPaginator.measureAvailableHeight loadThemeCSS).

Local Abbreviation markup options hasTitle dimensions :=
  (SmartPaginator.measureHTML
     (loadThemeCSS match SmartPaginator.theme options with
                   | Some t => t | None => minimal end)
     (FONT_SIZES match SmartPaginator.fontSize options with
                 | Some f => f | None => medium end)
     hasTitle dimensions).

(** The measurer raises exactly when the Playwright call is rejected. *)
Lemma measureAvailableHeight_throws_iff page options hasTitle dimensions :
  measureAvailableHeight page options hasTitle dimensions = Throws
  <-> page (markup options hasTitle dimensions) MeasureContentId = Throws.
Proof.
  unfold SmartPaginator.measureAvailableHeight.
  destruct (page _ MeasureContentId) as [found| |]; simpl; split; congruence.
Qed.

(** C3, as the code has it. For every theme, font scale, dimensions and
    [hasTitle] flag, when the lookup of the content element finds nothing,
    [measureAvailableHeight] raises no error: the callback puts 0 in place
    of the height and the function returns [0 - SAFETY_MARGIN], that is
    -30, to its caller. *)
Theorem measureAvailableHeight_absent_element page options hasTitle dimensions :
  page (markup options hasTitle dimensions) MeasureContentId = Returns None ->
  exists budget,
    measureAvailableHeight page options hasTitle dimensions = Returns budget
    /\ budget = (0 - SmartPaginator.SAFETY_MARGIN)%Q
    /\ (budget == -30)%Q.
Proof.
  intros Habsent. exists (0 - SmartPaginator.SAFETY_MARGIN)%Q.
  unfold SmartPaginator.measureAvailableHeight. rewrite Habsent. simpl.
  repeat split.
Qed.

End MeasureAvailableHeight.

Lemma measureAvailableHeight_absent_element_witness :
  exists budget,
    SmartPaginator.measureAvailableHeight noCSS emptyPage defaults true
      (DIMENSIONS ratio_3_4) = Returns budget
    /\ budget = (0 - SmartPaginator.SAFETY_MARGIN)%Q
    /\ (budget == -30)%Q.
Proof.
  apply (measureAvailableHeight_absent_element noCSS emptyPage defaults true
           (DIMENSIONS ratio_3_4)).
  reflexivity.
Defined.

(** C3 as stated does not hold: on a tab where the content element is
    absent the measurer returns a budget instead of raising. *)
Lemma measureAvailableHeight_absent_not_loud :
  ~ missing_element_is_an_error.
Proof.
  intros H.
  specialize (H noCSS emptyPage defaults false (DIMENSIONS ratio_3_4) eq_refl).
  discriminate H.
Qed.

(** ** Splitting the cleaned text into paragraphs *)

Section Paragraphs.

Lemma splitNewlines_from_line (a : jsstring) :
  ~ In LF a ->
  forall in_run cur rest,
    (a = [] -> in_run = false) ->
    splitNewlines_from in_run cur (a ++ rest)
    = splitNewlines_from false (cur ++ a) rest.
Proof.
  induction a as [|c a IH]; intros Hnl in_run cur rest Hrun.
  - rewrite (Hrun eq_refl), app_nil_r. reflexivity.
  - simpl. destruct (N.eqb_spec c LF) as [->|_]; [exfalso; apply Hnl; now left|].
    rewrite IH; [| intros H; apply Hnl; now right | reflexivity].
    now rewrite <- app_assoc.
Qed.

Lemma splitNewlines_from_run (k : nat) (rest : jsstring) :
  splitNewlines_from true [] (repeat LF k ++ rest) = splitNewlines_from true [] rest.
Proof.
  induction k as [|k IH]; simpl; [reflexivity | exact IH].
Qed.

Lemma blank_is_dropped (p : jsstring) (l : list jsstring) :
  truthy (trim p) = false ->
  filter (fun p => truthy (trim p)) (p :: l) = filter (fun p => truthy (trim p)) l.
Proof.
  intros H. simpl. now rewrite H.
Qed.

(** After a run of line feeds the split goes on as from the start of the
    text, up to an empty piece that the filter discards. *)
Lemma paragraphs_after_run (rest : jsstring) :
  filter (fun p => truthy (trim p)) (splitNewlines_from true [] rest)
  = SmartPaginator.splitParagraphs rest.
Proof.
  unfold SmartPaginator.splitParagraphs, splitNewlines.
  destruct rest as [|c rest]; [reflexivity|].
  simpl. destruct (c =? LF)%N; [|reflexivity].
  now rewrite blank_is_dropped.
Qed.

Lemma paragraphs_line_then_run (a rest : jsstring) (k : nat) :
  ~ In LF a ->
  SmartPaginator.splitParagraphs (a ++ repeat LF (S k) ++ rest)
  = filter (fun p => truthy (trim p)) [a] ++ SmartPaginator.splitParagraphs rest.
Proof.
  intros Hnl. unfold SmartPaginator.splitParagraphs at 1, splitNewlines.
  rewrite splitNewlines_from_line by auto.
  change (repeat LF (S k) ++ rest) with (LF :: repeat LF k ++ rest).
  cbn [splitNewlines_from app]. rewrite N.eqb_refl, splitNewlines_from_run.
  cbn [filter]. rewrite paragraphs_after_run.
  now destruct (truthy (trim a)).
Qed.

Lemma splitNewlines_from_pieces (s : jsstring) :
  forall in_run cur p,
    ~ In LF cur ->
    In p (splitNewlines_from in_run cur s) -> ~ In LF p.
Proof.
  induction s as [|c s IH]; intros in_run cur p Hcur Hin; simpl in Hin.
  - destruct Hin as [<-|[]]. exact Hcur.
  - destruct (N.eqb_spec c LF) as [->|Hc].
    + destruct in_run.
      * apply (IH true [] p); [intros []|exact Hin].
      * destruct Hin as [<-|Hin]; [exact Hcur|].
        apply (IH true [] p); [intros []|exact Hin].
    + apply (IH false (cur ++ [c]) p); [|exact Hin].
      rewrite in_app_iff. intros [H|[H|[]]]; [now apply Hcur | now apply Hc].
Qed.

Lemma splitParagraphs_are_paragraphs (text p : jsstring) :
  In p (SmartPaginator.splitParagraphs text) -> is_paragraph p.
Proof.
  unfold SmartPaginator.splitParagraphs. rewrite filter_In. intros [Hin Hp].
  split; [|exact Hp].
  apply (splitNewlines_from_pieces text false [] p); [intros []|exact Hin].
Qed.

Lemma splitParagraphs_line (a : jsstring) :
  is_paragraph a -> SmartPaginator.splitParagraphs a = [a].
Proof.
  intros [Hnl Ha]. unfold SmartPaginator.splitParagraphs, splitNewlines.
  rewrite <- (app_nil_r a) at 1.
  rewrite splitNewlines_from_line by auto. simpl. now rewrite Ha.
Qed.

(** Joining paragraphs with a blank line and splitting again gives the
    paragraphs back. *)
Lemma splitParagraphs_join (ps : list jsstring) :
  Forall is_paragraph ps ->
  SmartPaginator.splitParagraphs (join (nl ++ nl) ps) = ps.
Proof.
  induction 1 as [|a ps Ha Hps IH]; [reflexivity|].
  destruct ps as [|b ps]; [now apply splitParagraphs_line|].
  change (join (nl ++ nl) (a :: b :: ps))
    with (a ++ repeat LF 2 ++ join (nl ++ nl) (b :: ps)).
  rewrite paragraphs_line_then_run by apply Ha.
  rewrite IH. simpl. destruct Ha as [_ ->]. reflexivity.
Qed.

(** C4, as the code has it. The paragraphs of a cleaned text are its
    maximal runs of code units other than the line feed that are not
    whitespace-only: a split occurs at every run of one or more line feeds,
    a single one included, so two non-blank lines separated by one line
    feed are two paragraphs; whitespace-only pieces are discarded; and the
    character-count paginator splits the same way. *)
Theorem paragraphs_split_at_every_line_feed :
  (forall text p, In p (SmartPaginator.splitParagraphs text) -> is_paragraph p)
  /\ (forall a, is_paragraph a -> SmartPaginator.splitParagraphs a = [a])
  /\ (forall a rest k,
        is_paragraph a ->
        SmartPaginator.splitParagraphs (a ++ repeat LF (S k) ++ rest)
        = a :: SmartPaginator.splitParagraphs rest)
  /\ (forall a rest k,
        ~ In LF a -> truthy (trim a) = false ->
        SmartPaginator.splitParagraphs (a ++ repeat LF (S k) ++ rest)
        = SmartPaginator.splitParagraphs rest)
  /\ (forall text, Paginator.splitParagraphs text = SmartPaginator.splitParagraphs text).
Proof.
  split; [exact splitParagraphs_are_paragraphs|].
  split; [exact splitParagraphs_line|].
  split; [|split].
  - intros a rest k [Hnl Ha]. rewrite paragraphs_line_then_run by exact Hnl.
    simpl. now rewrite Ha.
  - intros a rest k Hnl Ha. rewrite paragraphs_line_then_run by exact Hnl.
    simpl. now rewrite Ha.
  - reflexivity.
Qed.

End Paragraphs.

Lemma paragraphs_split_at_every_line_feed_witness :
  SmartPaginator.splitParagraphs (lit "a" ++ repeat LF 1 ++ lit "b")
  = lit "a" :: SmartPaginator.splitParagraphs (lit "b").
Proof.
  apply (proj1 (proj2 (proj2 paragraphs_split_at_every_line_feed))).
  split; [intros [H|[]]; discriminate H | reflexivity].
Defined.

(** C4 as stated does not hold: two lines separated by a single line feed
    come out as two paragraphs, in both paginators. *)
Lemma single_line_feed_splits_paragraphs :
  SmartPaginator.splitParagraphs (SmartPaginator.cleanText (lit "a" ++ nl ++ lit "b"))
  = [lit "a"; lit "b"]
  /\ Paginator.splitParagraphs (Paginator.cleanText (lit "a" ++ nl ++ lit "b"))
     = [lit "a"; lit "b"]
  /\ ~ split_only_at_blank_lines.
Proof.
  split; [reflexivity|]. split; [reflexivity|].
  intros H.
  assert (Ha : is_paragraph (lit "a")) by (split; [intros [E|[]]; discriminate E | reflexivity]).
  assert (Hb : is_paragraph (lit "b")) by (split; [intros [E|[]]; discriminate E | reflexivity]).
  specialize (H (lit "a") (lit "b") Ha Hb). discriminate H.
Qed.

(** ** [smartPaginate]: the page loop *)

Section SmartPaginate.

Variable loadThemeCSS : Theme -> jsstring.

Local Open Scope Z_scope.

Lemma findPageBreak_at_least_one page paragraphs startIndex options h k :
  SmartPaginator.findPageBreak loadThemeCSS page paragraphs startIndex options h
  = Returns k -> 1 <= k.
Proof.
  unfold SmartPaginator.findPageBreak.
  destruct (SmartPaginator.findPageBreak_loop _ _ _ _ _ _ _ _ _ _) as [r| |];
    simpl; intros E; inversion E.
  destruct (Z.gtb_spec r 0); lia.
Qed.

Lemma findPageBreak_returns page paragraphs startIndex options h :
  always_answers page ->
  exists k,
    SmartPaginator.findPageBreak loadThemeCSS page paragraphs startIndex options h
    = Returns k.
Proof.
  intros Hpage.
  assert (Hret : forall j, 1 <= j <= len paragraphs - startIndex ->
                   exists q, probeHeight loadThemeCSS page paragraphs startIndex
                               options j = Returns q).
  { intros j _. unfold probeHeight.
    destruct (Hpage (SmartPaginator.probe loadThemeCSS paragraphs startIndex options j)
                ContentClass) as (found & ->).
    simpl. eauto. }
  destruct (findPageBreak_boundary loadThemeCSS page paragraphs startIndex options _
              (height_of_returns loadThemeCSS page paragraphs startIndex options Hret) h)
    as (r & Hr & _).
  unfold SmartPaginator.findPageBreak. rewrite Hr. simpl. eauto.
Qed.

(** For a start index and a count that are not negative, the slice is the
    window of [k] elements from [s], cut at the end of the array. *)
Lemma slice_window {A : Type} (l : list A) (s k : Z) :
  0 <= s -> 0 <= k ->
  slice l s (s + k) = firstn (Z.to_nat k) (skipn (Z.to_nat s) l).
Proof.
  intros Hs Hk. unfold slice, relativeIndex.
  destruct (Z.ltb_spec s 0); [lia|]. destruct (Z.ltb_spec (s + k) 0); [lia|].
  set (n := Z.of_nat (List.length l)).
  destruct (Z_le_gt_dec s n) as [Hsn|Hsn].
  - rewrite (Z.min_l s n) by lia.
    destruct (Z_le_gt_dec (s + k) n) as [Hkn|Hkn].
    + rewrite (Z.min_l (s + k) n) by lia. f_equal. lia.
    + rewrite (Z.min_r (s + k) n) by lia.
      rewrite !firstn_all2 by (rewrite length_skipn; lia). reflexivity.
  - rewrite (Z.min_r s n), (Z.min_r (s + k) n) by lia.
    rewrite Z.sub_diag, (skipn_all2 (n := Z.to_nat s)) by lia.
    now rewrite firstn_nil.
Qed.

(** [firstn] as a prefix that a slice extends. *)
Lemma slice_extends_prefix {A : Type} (l : list A) (s k : Z) :
  0 <= s -> 0 <= k ->
  firstn (Z.to_nat s) l ++ slice l s (s + k) = firstn (Z.to_nat (s + k)) l.
Proof.
  intros Hs Hk. unfold slice, relativeIndex.
  destruct (Z.ltb_spec s 0); [lia|]. destruct (Z.ltb_spec (s + k) 0); [lia|].
  set (n := Z.of_nat (List.length l)).
  destruct (Z_le_gt_dec s n) as [Hsn|Hsn].
  - rewrite (Z.min_l s n) by lia.
    destruct (Z_le_gt_dec (s + k) n) as [Hkn|Hkn].
    + rewrite (Z.min_l (s + k) n) by lia.
      replace (Z.to_nat (s + k - s)) with (Z.to_nat k) by lia.
      replace (Z.to_nat (s + k)) with (Z.to_nat s + Z.to_nat k)%nat by lia.
      rewrite firstn_skipn_comm.
      rewrite <- (firstn_skipn (Z.to_nat s) (firstn (Z.to_nat s + Z.to_nat k) l)) at 2.
      rewrite firstn_firstn. f_equal. f_equal. lia.
    + rewrite (Z.min_r (s + k) n) by lia.
      rewrite (firstn_all2 (n := Z.to_nat (n - s))) by (rewrite length_skipn; lia).
      rewrite firstn_skipn. symmetry. apply firstn_all2. lia.
  - rewrite (Z.min_r s n), (Z.min_r (s + k) n) by lia.
    rewrite Z.sub_diag. simpl. rewrite app_nil_r.
    rewrite !firstn_all2 by lia. reflexivity.
Qed.

Lemma slice_nonempty {A : Type} (l : list A) (s k : Z) :
  0 <= s < len l -> 1 <= k -> slice l s (s + k) <> [].
Proof.
  unfold len. intros Hs Hk E. apply (f_equal (@List.length A)) in E.
  unfold slice, relativeIndex in E.
  destruct (Z.ltb_spec s 0); [lia|]. destruct (Z.ltb_spec (s + k) 0); [lia|].
  rewrite length_firstn, length_skipn in E. simpl in E. lia.
Qed.

(** *** Page flags *)

Lemma all_unmarked_snoc {P : Type} `{PageLike P} (pages : list P) (p : P) :
  all_unmarked pages ->
  number_of p = len pages + 1 ->
  first_of p = (List.length pages =? 0)%nat ->
  flagged_but_last (pages ++ [p])
  /\ (last_of p = false -> all_unmarked (pages ++ [p])).
Proof.
  intros Hpages Hnum Hfirst.
  assert (Hcase : forall i q, nth_error (pages ++ [p]) i = Some q ->
            (i < List.length pages)%nat /\ nth_error pages i = Some q
            \/ i = List.length pages /\ q = p).
  { intros i q Hq. destruct (Nat.lt_ge_cases i (List.length pages)) as [Hlt|Hge].
    - left. split; [assumption|]. now rewrite nth_error_app1 in Hq.
    - right. rewrite nth_error_app2 in Hq by assumption.
      destruct (i - List.length pages)%nat as [|[|j]] eqn:E; simpl in Hq;
        try discriminate. inversion Hq. split; [lia | reflexivity]. }
  split; [|intros Hlast]; intros i q Hq;
    destruct (Hcase i q Hq) as [[Hlt Hold]|[-> ->]].
  - destruct (Hpages i q Hold) as (? & ? & ?). auto.
  - unfold len in Hnum. rewrite length_app. simpl. repeat split; auto; lia.
  - exact (Hpages i q Hold).
  - unfold len in Hnum. auto.
Qed.

Lemma all_unmarked_flagged_but_last {P : Type} `{PageLike P} (pages : list P) :
  all_unmarked pages -> flagged_but_last pages.
Proof.
  intros Hpages i p Hp. destruct (Hpages i p Hp) as (? & ? & ?). auto.
Qed.

Lemma smart_markLast_snoc pages p :
  SmartPaginator.markLast (pages ++ [p])
  = pages ++ [ {| SmartPaginator.content := SmartPaginator.content p;
                  SmartPaginator.pageNumber := SmartPaginator.pageNumber p;
                  SmartPaginator.isFirst := SmartPaginator.isFirst p;
                  SmartPaginator.isLast := true;
                  SmartPaginator.paragraphs := SmartPaginator.paragraphs p |} ].
Proof.
  induction pages as [|a pages IH]; [reflexivity|].
  change ((a :: pages) ++ [p]) with (a :: (pages ++ [p])).
  destruct (pages ++ [p]) as [|b rest] eqn:E.
  - destruct pages; discriminate.
  - change (SmartPaginator.markLast (a :: b :: rest))
      with (a :: SmartPaginator.markLast (b :: rest)).
    now rewrite IH.
Qed.

(** Marking the last page of a list whose other pages are unmarked. *)
Lemma well_flagged_snoc {P : Type} `{PageLike P} (pages : list P) (p p' : P) :
  flagged_but_last (pages ++ [p]) ->
  number_of p' = number_of p -> first_of p' = first_of p -> last_of p' = true ->
  well_flagged (pages ++ [p']).
Proof.
  intros Hflag Hnum Hfirst Hlast i q Hq.
  rewrite length_app. change (List.length [p']) with 1%nat.
  destruct (Nat.lt_ge_cases i (List.length pages)) as [Hlt|Hge].
  - rewrite nth_error_app1 in Hq by assumption.
    destruct (Hflag i q) as (? & ? & Hopen).
    { now rewrite nth_error_app1. }
    repeat split; auto.
    destruct (Nat.eqb_spec (S i) (List.length pages + 1)); [lia|].
    apply Hopen. rewrite length_app. simpl. lia.
  - rewrite nth_error_app2 in Hq by assumption.
    destruct (i - List.length pages)%nat as [|[|j]] eqn:E; simpl in Hq;
      try discriminate.
    inversion Hq; subst q. assert (i = List.length pages) by lia. subst i.
    destruct (Hflag (List.length pages) p) as (? & ? & _).
    { now rewrite nth_error_app2, Nat.sub_diag by lia. }
    rewrite Hnum, Hfirst, Hlast. repeat split; auto.
    destruct (Nat.eqb_spec (S (List.length pages)) (List.length pages + 1)); [reflexivity|lia].
Qed.

Lemma smart_markLast_well_flagged pages :
  flagged_but_last pages -> well_flagged (SmartPaginator.markLast pages).
Proof.
  destruct pages as [|a rest] using rev_ind; intros Hflag.
  - intros [|i] p Hp; discriminate.
  - rewrite smart_markLast_snoc. now apply well_flagged_snoc with (p := a).
Qed.

Lemma smart_markLast_paragraphs pages :
  map SmartPaginator.paragraphs (SmartPaginator.markLast pages)
  = map SmartPaginator.paragraphs pages
  /\ map SmartPaginator.content (SmartPaginator.markLast pages)
     = map SmartPaginator.content pages.
Proof.
  destruct pages as [|a rest] using rev_ind; [split; reflexivity|].
  rewrite smart_markLast_snoc, !map_app. split; reflexivity.
Qed.

(** *** The loop *)

Section Loop.
Variable page : PlaywrightPage.
Variable options : SmartPaginator.SmartPaginatorOptions.
Variable all : list jsstring.
Variables firstHeight baseHeight : Q.

Local Abbreviation loop :=
  (SmartPaginator.paginate_loop loadThemeCSS page options all firstHeight baseHeight).

(** The pages pushed so far hold exactly the paragraphs before the cursor. *)
Lemma paginate_loop_sound (fuel : nat) :
  forall pages currentIndex result,
    0 <= currentIndex ->
    List.concat (map SmartPaginator.paragraphs pages) = firstn (Z.to_nat currentIndex) all ->
    Forall page_holds_its_paragraphs pages ->
    all_unmarked pages ->
    loop fuel pages currentIndex = Returns result ->
    List.concat (map SmartPaginator.paragraphs result) = all
    /\ Forall page_holds_its_paragraphs result
    /\ all_unmarked result.
Proof.
  induction fuel as [|fuel IH]; intros pages idx result Hidx Hcat Hhold Hnum Hrun;
    simpl in Hrun; destruct (Z.ltb_spec idx (len all)) as [Hlt|Hge];
    try discriminate.
  - inversion Hrun; subst result. split; [|now split].
    rewrite Hcat. apply firstn_all2. unfold len in Hge. lia.
  - destruct (SmartPaginator.findPageBreak _ _ _ _ _ _) as [count| |] eqn:Hcount;
      simpl in Hrun; try discriminate.
    apply findPageBreak_at_least_one in Hcount.
    apply IH in Hrun; [exact Hrun | lia | | |].
    + rewrite map_app, concat_app, Hcat. simpl. rewrite app_nil_r.
      apply slice_extends_prefix; lia.
    + apply Forall_app. split; [assumption|]. constructor; [|constructor].
      split; [reflexivity|]. simpl. apply slice_nonempty; lia.
    + apply all_unmarked_snoc; auto.
  - inversion Hrun; subst result. split; [|now split].
    rewrite Hcat. apply firstn_all2. unfold len in Hge. lia.
Qed.

(** With a tab that always answers, the loop ends within one iteration per
    remaining paragraph. *)
Lemma paginate_loop_returns (fuel : nat) :
  always_answers page ->
  forall pages currentIndex,
    (Z.to_nat (len all - currentIndex) <= fuel)%nat ->
    exists result, loop fuel pages currentIndex = Returns result.
Proof.
  intros Hpage. induction fuel as [|fuel IH]; intros pages idx Hfuel; simpl;
    destruct (Z.ltb_spec idx (len all)) as [Hlt|Hge]; eauto; try lia.
  destruct (findPageBreak_returns page all idx options
              (if (List.length pages =? 0)%nat then firstHeight else baseHeight) Hpage)
    as (count & Hcount).
  rewrite Hcount. simpl. apply findPageBreak_at_least_one in Hcount.
  apply IH. lia.
Qed.

(** Nor does the fuel end the page loop: every page takes at least one
    paragraph. *)
Lemma paginate_loop_fuel_suffices (fuel : nat) :
  (forall html el, page html el <> Diverges) ->
  forall pages currentIndex,
    (Z.to_nat (len all - currentIndex) <= fuel)%nat ->
    loop fuel pages currentIndex <> Diverges.
Proof.
  intros Hpage. induction fuel as [|fuel IH]; intros pages idx Hfuel; simpl;
    destruct (Z.ltb_spec idx (len all)) as [Hlt|Hge]; try discriminate; try lia.
  destruct (SmartPaginator.findPageBreak _ _ _ _ _ _) as [count| |] eqn:Hcount;
    simpl; [| discriminate | now apply findPageBreak_fuel_suffices in Hcount].
  apply findPageBreak_at_least_one in Hcount. apply IH. lia.
Qed.

End Loop.

Lemma measureAvailableHeight_returns page options hasTitle dimensions :
  always_answers page ->
  exists budget,
    SmartPaginator.measureAvailableHeight loadThemeCSS page options hasTitle dimensions
    = Returns budget.
Proof.
  intros Hpage. unfold SmartPaginator.measureAvailableHeight.
  destruct (Hpage (SmartPaginator.measureHTML
                     (loadThemeCSS match SmartPaginator.theme options with
                                   | Some t => t | None => minimal end)
                     (FONT_SIZES match SmartPaginator.fontSize options with
                                 | Some f => f | None => medium end)
                     hasTitle dimensions) MeasureContentId) as (found & ->).
  simpl. eauto.
Qed.

(** What a completed run of [smartPaginate] returns. *)
Lemma smartPaginate_sound browser text options pages :
  SmartPaginator.smartPaginate loadThemeCSS browser text options = Returns pages ->
  List.concat (map SmartPaginator.paragraphs pages)
  = SmartPaginator.splitParagraphs (SmartPaginator.cleanText text)
  /\ Forall page_holds_its_paragraphs pages
  /\ well_flagged pages.
Proof.
  unfold SmartPaginator.smartPaginate.
  set (all := SmartPaginator.splitParagraphs (SmartPaginator.cleanText text)).
  destruct (List.length all =? 0)%nat eqn:Hempty.
  - intros E; inversion E. apply Nat.eqb_eq in Hempty.
    destruct all; [|discriminate]. split; [reflexivity|]. split; [constructor|].
    intros [|i] p Hp; discriminate.
  - destruct (SmartPaginator.measureAvailableHeight _ _ _ _ _) as [firstHeight| |];
      simpl; try discriminate.
    destruct (SmartPaginator.measureAvailableHeight _ _ _ _ _) as [baseHeight| |];
      simpl; try discriminate.
    destruct (SmartPaginator.paginate_loop _ _ _ _ _ _ _ _ _) as [result| |] eqn:Hloop;
      simpl; try discriminate.
    intros E; inversion E; subst pages.
    apply paginate_loop_sound in Hloop;
      [| lia | reflexivity | constructor | intros [|i] p Hp; discriminate].
    destruct Hloop as (Hcat & Hhold & Hnum).
    destruct (smart_markLast_paragraphs result) as (Hpar & Hcont).
    rewrite Hpar. split; [exact Hcat|]. split.
    + rewrite Forall_forall in *. intros p Hp.
      destruct result as [|a rest] using rev_ind; [destruct Hp|].
      rewrite smart_markLast_snoc in Hp. apply in_app_or in Hp.
      destruct Hp as [Hp|[<-|[]]]; [apply Hhold, in_or_app; now left|].
      apply (Hhold a), in_or_app. right. now left.
    + apply smart_markLast_well_flagged, all_unmarked_flagged_but_last, Hnum.
Qed.

Lemma smartPaginate_returns browser text options :
  (forall w h, always_answers (browser w h)) ->
  exists pages,
    SmartPaginator.smartPaginate loadThemeCSS browser text options = Returns pages.
Proof.
  intros Hbrowser. unfold SmartPaginator.smartPaginate.
  destruct (_ =? 0)%nat; [eauto|].
  set (page := browser 1080 _).
  destruct (measureAvailableHeight_returns page options
              match SmartPaginator.hasTitle options with Some b => b | None => false end
              (DIMENSIONS match SmartPaginator.ratio options with
                          | Some r => r | None => ratio_3_4 end)
              (Hbrowser _ _)) as (b1 & ->).
  destruct (measureAvailableHeight_returns page options false
              (DIMENSIONS match SmartPaginator.ratio options with
                          | Some r => r | None => ratio_3_4 end)
              (Hbrowser _ _)) as (b2 & ->).
  simpl.
  destruct (paginate_loop_returns page options
              (SmartPaginator.splitParagraphs (SmartPaginator.cleanText text))
              b1 b2 (List.length (SmartPaginator.splitParagraphs
                                    (SmartPaginator.cleanText text)))
              (Hbrowser _ _) [] 0) as (result & ->).
  - unfold len. lia.
  - simpl. eauto.
Qed.

(** A run of [smartPaginate] without outcome is a call of the browser
    without outcome, never the model's loops running out. *)
Lemma smartPaginate_fuel_suffices browser text options :
  (forall w h html el, browser w h html el <> Diverges) ->
  SmartPaginator.smartPaginate loadThemeCSS browser text options <> Diverges.
Proof.
  intros Hbrowser.
  assert (Hmeasure : forall page hasTitle dimensions,
            (forall html el, page html el <> Diverges) ->
            SmartPaginator.measureAvailableHeight loadThemeCSS page options hasTitle
              dimensions <> Diverges).
  { intros page hasTitle dimensions Hpage.
    unfold SmartPaginator.measureAvailableHeight.
    destruct (page _ MeasureContentId) as [found| |] eqn:Hfound; simpl;
      [discriminate | discriminate | now apply Hpage in Hfound]. }
  unfold SmartPaginator.smartPaginate.
  destruct (_ =? 0)%nat; [discriminate|].
  set (page := browser 1080 _).
  set (dimensions := DIMENSIONS _).
  pose proof (Hmeasure page match SmartPaginator.hasTitle options with
                            | Some b => b | None => false end dimensions
                (Hbrowser _ _)) as H1.
  destruct (SmartPaginator.measureAvailableHeight loadThemeCSS page options
              match SmartPaginator.hasTitle options with
              | Some b => b | None => false end dimensions) as [h1| |];
    simpl; [| discriminate | contradiction].
  pose proof (Hmeasure page false dimensions (Hbrowser _ _)) as H2.
  destruct (SmartPaginator.measureAvailableHeight loadThemeCSS page options false
              dimensions) as [h2| |];
    simpl; [| discriminate | contradiction].
  set (all := SmartPaginator.splitParagraphs (SmartPaginator.cleanText text)).
  pose proof (paginate_loop_fuel_suffices page options all h1 h2 (List.length all)
                (Hbrowser _ _) [] 0 ltac:(unfold len; lia)) as Hloop.
  destruct (SmartPaginator.paginate_loop loadThemeCSS page options all h1 h2
              (List.length all) [] 0);
    simpl; [discriminate | discriminate | contradiction].
Qed.

(** Joining groups and then the joined groups is joining all at once. *)
Lemma join_app (sep : jsstring) (a b : list jsstring) :
  a <> [] -> b <> [] -> join sep (a ++ b) = join sep a ++ sep ++ join sep b.
Proof.
  intros Ha Hb. induction a as [|x a IH]; [contradiction|].
  destruct a as [|y a].
  - destruct b; [contradiction|reflexivity].
  - change (join sep ((x :: y :: a) ++ b)) with (x ++ sep ++ join sep ((y :: a) ++ b)).
    rewrite IH by discriminate.
    change (join sep (x :: y :: a)) with (x ++ sep ++ join sep (y :: a)).
    now rewrite <- !app_assoc.
Qed.

Lemma join_concat (sep : jsstring) (groups : list (list jsstring)) :
  Forall (fun g => g <> []) groups ->
  join sep (map (join sep) groups) = join sep (List.concat groups).
Proof.
  induction 1 as [|g groups Hg Hgroups IH]; [reflexivity|].
  destruct groups as [|g' groups].
  - simpl. now rewrite app_nil_r.
  - change (join sep (map (join sep) (g :: g' :: groups)))
      with (join sep g ++ sep ++ join sep (map (join sep) (g' :: groups))).
    rewrite IH. change (List.concat (g :: g' :: groups)) with (g ++ List.concat (g' :: groups)).
    rewrite join_app; [reflexivity | assumption |].
    inversion Hgroups; subst. simpl. destruct g'; [contradiction|discriminate].
Qed.

(** C2. Whenever [smartPaginate] returns pages, the pages partition the
    paragraph list of the cleaned text: their [paragraphs] fields
    concatenated in page order are that list, nothing dropped, duplicated
    or reordered; each page's [content] is its paragraphs joined by the
    paragraph separator, and the contents joined by the separator split
    back into the same paragraph list.  With a browser whose tabs always
    answer, [smartPaginate] does return pages. *)
Theorem smartPaginate_partitions_paragraphs browser text options :
  (forall pages,
     SmartPaginator.smartPaginate loadThemeCSS browser text options = Returns pages ->
     List.concat (map SmartPaginator.paragraphs pages)
     = SmartPaginator.splitParagraphs (SmartPaginator.cleanText text)
     /\ Forall (fun p => SmartPaginator.content p
                         = join (nl ++ nl) (SmartPaginator.paragraphs p)) pages
     /\ SmartPaginator.splitParagraphs
          (join (nl ++ nl) (map SmartPaginator.content pages))
        = SmartPaginator.splitParagraphs (SmartPaginator.cleanText text))
  /\ ((forall w h, always_answers (browser w h)) ->
      exists pages,
        SmartPaginator.smartPaginate loadThemeCSS browser text options
        = Returns pages).
Proof.
  split; [|apply smartPaginate_returns].
  intros pages Hrun. apply smartPaginate_sound in Hrun.
  destruct Hrun as (Hcat & Hhold & _). split; [exact Hcat|]. split.
  - eapply Forall_impl; [|exact Hhold]. now intros p [Hp _].
  - replace (map SmartPaginator.content pages)
      with (map (join (nl ++ nl)) (map SmartPaginator.paragraphs pages)).
    + rewrite join_concat.
      * rewrite Hcat. apply splitParagraphs_join.
        apply Forall_forall. intros p. apply splitParagraphs_are_paragraphs.
      * rewrite Forall_map. eapply Forall_impl; [|exact Hhold]. now intros p [_ Hp].
    + rewrite map_map. apply map_ext_Forall.
      eapply Forall_impl; [|exact Hhold]. now intros p [Hp _].
Qed.

End SmartPaginate.

Lemma smartPaginate_partitions_paragraphs_witness :
  exists pages,
    SmartPaginator.smartPaginate noCSS rulerBrowser
      (lit "a" ++ nl ++ lit "b" ++ nl ++ nl ++ lit "c") defaults = Returns pages
    /\ List.concat (map SmartPaginator.paragraphs pages) = abc
    /\ List.length pages = 2%nat.
Proof.
  destruct (proj2 (smartPaginate_partitions_paragraphs noCSS rulerBrowser
                     (lit "a" ++ nl ++ lit "b" ++ nl ++ nl ++ lit "c") defaults))
    as (pages & Hpages).
  - intros w h html el. destruct el; eexists; reflexivity.
  - exists pages. split; [exact Hpages|].
    pose proof (proj1 (smartPaginate_partitions_paragraphs noCSS rulerBrowser
                         (lit "a" ++ nl ++ lit "b" ++ nl ++ nl ++ lit "c") defaults)
                  pages Hpages) as (Hcat & _).
    split; [exact Hcat|].
    vm_compute in Hpages. inversion Hpages. reflexivity.
Defined.

(** ** [findPageBreak]: the largest prefix that fits *)

Section LargestFit.

Variable loadThemeCSS : Theme -> jsstring.

Local Open Scope Z_scope.

(** What a probe renders: the page skeleton around the paragraphs from
    [startIndex], [k] of them. *)
Lemma probe_is_skeleton paragraphs startIndex options k :
  0 <= startIndex -> 0 <= k ->
  SmartPaginator.probe loadThemeCSS paragraphs startIndex options k
  = skeletonAround
      (loadThemeCSS match SmartPaginator.theme options with
                    | Some t => t | None => minimal end)
      (FONT_SIZES match SmartPaginator.fontSize options with
                  | Some f => f | None => medium end)
      (window paragraphs startIndex k).
Proof.
  intros Hs Hk.
  unfold SmartPaginator.probe, SmartPaginator.probeHTML, skeletonAround, window.
  rewrite slice_window by assumption.
  unfold markupUpToFooter, markupAfterFooter.
  generalize (join nl (map SmartPaginator.paragraphToHtml
                         (firstn (Z.to_nat k) (skipn (Z.to_nat startIndex) paragraphs))))
    (loadThemeCSS match SmartPaginator.theme options with
                  | Some t => t | None => minimal end)
    (num (title_px (FONT_SIZES match SmartPaginator.fontSize options with
                               | Some f => f | None => medium end)))
    (num (content_px (FONT_SIZES match SmartPaginator.fontSize options with
                                 | Some f => f | None => medium end))).
  intros. cbn [join]. rewrite <- ?app_assoc. reflexivity.
Qed.

(** C1. For every paragraph list, every start index [s] below its length
    and every budget [h]: when the content height the tab reports for the
    page skeleton around paragraphs [s, s + k) is a function [measure] of
    those paragraphs, monotone non-decreasing in their number [k],
    [findPageBreak] returns a count [k] with [1 <= k <= length - s]; if the
    paragraphs [s, s + j) measure at most [h] for some [j], [k] is the
    largest such number; and if even the single paragraph at [s] measures
    above [h], [k] is 1 (whatever the sign of [h]). *)
Theorem findPageBreak_largest_fit page paragraphs startIndex options
    (measure : list jsstring -> Q) (h : Q) :
  let css := loadThemeCSS match SmartPaginator.theme options with
                          | Some t => t | None => minimal end in
  let fontConfig := FONT_SIZES match SmartPaginator.fontSize options with
                               | Some f => f | None => medium end in
  let shown := window paragraphs startIndex in
  let n := len paragraphs - startIndex in
  0 <= startIndex < len paragraphs ->
  (forall k, 1 <= k <= n ->
             measuredHeight page (skeletonAround css fontConfig (shown k))
             = Returns (measure (shown k))) ->
  (forall i j, 1 <= i <= j -> j <= n -> (measure (shown i) <= measure (shown j))%Q) ->
  exists k,
    SmartPaginator.findPageBreak loadThemeCSS page paragraphs startIndex options h
    = Returns k
    /\ 1 <= k <= n
    /\ ((exists j, 1 <= j <= n /\ (measure (shown j) <= h)%Q) ->
        (measure (shown k) <= h)%Q
        /\ forall j, 1 <= j <= n -> (measure (shown j) <= h)%Q -> j <= k)
    /\ (~ (measure (shown 1%Z) <= h)%Q -> k = 1).
Proof.
  intros css fontConfig shown n Hstart Hmeasured Hmono.
  apply (findPageBreak_largest_among_heights loadThemeCSS page paragraphs startIndex
           options (fun k => measure (shown k))).
  - intros k Hk. unfold probeHeight.
    rewrite probe_is_skeleton by lia. exact (Hmeasured k Hk).
  - lia.
  - exact Hmono.
Qed.

End LargestFit.

Lemma findPageBreak_largest_fit_witness :
  exists k,
    SmartPaginator.findPageBreak noCSS lengthPage abc 1 defaults 340 = Returns k
    /\ k = 1%Z
    /\ (skeletonLength (window abc 1 k) <= 340)%Q
    /\ forall j, (1 <= j <= 2)%Z ->
                 (skeletonLength (window abc 1 j) <= 340)%Q -> (j <= k)%Z.
Proof.
  destruct (findPageBreak_largest_fit noCSS lengthPage abc 1 defaults skeletonLength 340)
    as (k & Hk & _ & Hfit & _).
  - vm_compute. split; [discriminate|reflexivity].
  - intros k _. reflexivity.
  - intros i j Hi Hj. change (len abc - 1)%Z with 2%Z in Hj.
    assert (Hc : ((i = 1 /\ j = 1) \/ (i = 1 /\ j = 2) \/ (i = 2 /\ j = 2))%Z) by lia.
    destruct Hc as [ [ -> -> ] | [ [ -> -> ] | [ -> -> ] ] ]; vm_compute; discriminate.
  - exists k. split; [exact Hk|].
    assert (Hone : k = 1%Z) by (vm_compute in Hk; now inversion Hk).
    split; [exact Hone|].
    apply Hfit. exists 1%Z. split; [vm_compute; split; discriminate|].
    vm_compute. discriminate.
Defined.

(** ** Probe markup against page markup *)

Section Markup.

Variable loadThemeCSS : Theme -> jsstring.

Lemma slice_incl {A : Type} (l : list A) (s e : Z) (x : A) :
  In x (slice l s e) -> In x l.
Proof.
  unfold slice. intros H.
  set (k := Z.to_nat (relativeIndex (Z.of_nat (List.length l)) s)) in *.
  rewrite <- (firstn_skipn k l). apply in_or_app. right.
  set (m := Z.to_nat _) in H.
  rewrite <- (firstn_skipn m (skipn k l)). apply in_or_app. now left.
Qed.

(** The content block: the probe's per-paragraph markup is what the
    compositor derives from the page text. *)
Lemma probe_body_is_page_body (ps : list jsstring) :
  Forall is_paragraph ps ->
  join nl (map SmartPaginator.paragraphToHtml ps)
  = Renderer.paragraphsToHtml (join (nl ++ nl) ps).
Proof.
  intros Hps. unfold Renderer.paragraphsToHtml.
  change (filter _ (splitNewlines ?t)) with (SmartPaginator.splitParagraphs t).
  rewrite splitParagraphs_join by exact Hps. reflexivity.
Qed.

(** C7, as the code has it. For paragraphs as the paginator produces them
    and the same theme and font scale, a probe of [findPageBreak] and the
    plain content page built from the probed paragraphs have the same
    content block: the probe's per-paragraph markup equals
    [paragraphsToHtml] of the page content.  The rest of the two documents
    is the same bytes except the two numbers of the footer: the probe
    always writes [<span>1</span> / 1], the compositor the page's number
    and the total.  So the documents are byte-identical for a page
    numbered 1 of 1. *)
Theorem probe_markup_matches_page_markup
    paragraphs startIndex k options renderOptions page totalPages :
  Forall is_paragraph paragraphs ->
  Renderer.theme renderOptions = SmartPaginator.theme options ->
  Renderer.fontSize renderOptions = SmartPaginator.fontSize options ->
  content page = join (nl ++ nl) (slice paragraphs startIndex (startIndex + k)) ->
  let css := loadThemeCSS match SmartPaginator.theme options with
                          | Some t => t | None => minimal end in
  let fontConfig := FONT_SIZES match SmartPaginator.fontSize options with
                               | Some f => f | None => medium end in
  let body := Renderer.paragraphsToHtml (content page) in
  join nl (map SmartPaginator.paragraphToHtml
             (slice paragraphs startIndex (startIndex + k))) = body
  /\ SmartPaginator.probe loadThemeCSS paragraphs startIndex options k
     = markupUpToFooter css fontConfig body
         ++ lit "1" ++ lit "</span> / " ++ lit "1" ++ markupAfterFooter
  /\ Renderer.generateContentHTML loadThemeCSS page totalPages renderOptions
     = markupUpToFooter css fontConfig body
         ++ num (pageNumber page) ++ lit "</span> / " ++ num totalPages
         ++ markupAfterFooter
  /\ (pageNumber page = 1%Z -> totalPages = 1%Z ->
      SmartPaginator.probe loadThemeCSS paragraphs startIndex options k
      = Renderer.generateContentHTML loadThemeCSS page totalPages renderOptions).
Proof.
  intros Hps Htheme Hfont Hcontent css fontConfig body.
  assert (Hbody : join nl (map SmartPaginator.paragraphToHtml
                             (slice paragraphs startIndex (startIndex + k))) = body).
  { unfold body. rewrite Hcontent. apply probe_body_is_page_body.
    rewrite Forall_forall in *. intros p Hp. eapply Hps, slice_incl, Hp. }
  assert (Hprobe : SmartPaginator.probe loadThemeCSS paragraphs startIndex options k
                   = markupUpToFooter css fontConfig body
                       ++ lit "1" ++ lit "</span> / " ++ lit "1" ++ markupAfterFooter).
  { unfold SmartPaginator.probe, SmartPaginator.probeHTML. rewrite Hbody.
    fold css. fold fontConfig. unfold markupUpToFooter, markupAfterFooter.
    generalize body css (num (title_px fontConfig)) (num (content_px fontConfig)).
    intros. cbn [join]. rewrite <- ?app_assoc. reflexivity. }
  assert (Hpage : Renderer.generateContentHTML loadThemeCSS page totalPages renderOptions
                  = markupUpToFooter css fontConfig body
                      ++ num (pageNumber page) ++ lit "</span> / " ++ num totalPages
                      ++ markupAfterFooter).
  { unfold Renderer.generateContentHTML. rewrite Htheme, Hfont.
    fold css. fold fontConfig. fold body.
    unfold markupUpToFooter, markupAfterFooter.
    generalize body css (num (title_px fontConfig)) (num (content_px fontConfig))
      (num (pageNumber page)) (num totalPages).
    intros. cbn [join]. rewrite <- ?app_assoc. reflexivity. }
  split; [exact Hbody|]. split; [exact Hprobe|]. split; [exact Hpage|].
  intros H1 Ht. rewrite Hprobe, Hpage, H1, Ht. reflexivity.
Qed.

End Markup.

Lemma abc_are_paragraphs : Forall is_paragraph abc.
Proof.
  repeat constructor; intros [E|[]]; discriminate E.
Qed.

Lemma probe_markup_matches_page_markup_witness :
  join nl (map SmartPaginator.paragraphToHtml (slice abc 2 (2 + 1)))
  = Renderer.paragraphsToHtml (content secondPage).
Proof.
  exact (proj1 (probe_markup_matches_page_markup noCSS abc 2 1 defaults
                  renderDefaults secondPage 2
                  abc_are_paragraphs eq_refl eq_refl eq_refl)).
Defined.

(** C7 as stated does not hold for the footer: for the second of two pages
    the compositor writes [<span>2</span> / 2] where the probe of the same
    paragraph wrote [<span>1</span> / 1]. *)
Lemma probe_footer_is_not_page_footer :
  (exists first,
     SmartPaginator.smartPaginateCompat noCSS rulerBrowser
       (lit "a" ++ nl ++ lit "b" ++ nl ++ lit "c") defaults
     = Returns [first; secondPage])
  /\ SmartPaginator.probe noCSS abc 2 defaults 1
     <> Renderer.generateContentHTML noCSS secondPage 2 renderDefaults
  /\ ~ probe_markup_is_page_markup.
Proof.
  assert (Hdiff : SmartPaginator.probe noCSS abc 2 defaults 1
                  <> Renderer.generateContentHTML noCSS secondPage 2 renderDefaults).
  { intros H. vm_compute in H. discriminate H. }
  split; [eexists; vm_compute; reflexivity|]. split; [exact Hdiff|].
  intros H. apply Hdiff.
  apply H; [exact abc_are_paragraphs | reflexivity..].
Qed.

(** ** [splitIntoSentences] *)

Section Sentences.

Import Paginator.

(** *** White space and [trim] *)

Lemma trimStart_blank (s : jsstring) :
  truthy (trimStart s) = negb (forallb is_space s).
Proof.
  induction s as [|c s IH]; [reflexivity|].
  simpl. destruct (is_space c); [exact IH | reflexivity].
Qed.

Lemma trimStart_keeps_blankness (s : jsstring) :
  forallb is_space (trimStart s) = forallb is_space s.
Proof.
  induction s as [|c s IH]; [reflexivity|].
  simpl. destruct (is_space c) eqn:E; [exact IH|].
  simpl. now rewrite E.
Qed.

Lemma forallb_rev {A : Type} (f : A -> bool) (l : list A) :
  forallb f (rev l) = forallb f l.
Proof.
  induction l as [|x l IH]; [reflexivity|].
  simpl. rewrite forallb_app, IH. simpl. rewrite andb_true_r. apply andb_comm.
Qed.

Lemma truthy_rev (s : jsstring) : truthy (rev s) = truthy s.
Proof.
  destruct s as [|c s]; [reflexivity|]. simpl.
  destruct (rev s ++ [c]) eqn:E; [|reflexivity].
  destruct (rev s); discriminate.
Qed.

(** A string survives [trim] exactly when it has a code unit that is not
    white space. *)
Lemma truthy_trim (s : jsstring) :
  truthy (trim s) = negb (forallb is_space s).
Proof.
  unfold trim, trimEnd.
  now rewrite truthy_rev, trimStart_blank, forallb_rev, trimStart_keeps_blankness.
Qed.

Lemma ender_is_not_space (c : N) : is_ender c = true -> is_space c = false.
Proof.
  unfold is_ender. rewrite !orb_true_iff, !N.eqb_eq.
  intros [[[[[[->| ->]| ->]| ->]| ->]| ->]| ->]; reflexivity.
Qed.

Lemma run_is_not_blank (fragment run : jsstring) :
  all_enders run -> run <> [] -> truthy (trim (fragment ++ run)) = true.
Proof.
  intros Hrun Hne. rewrite truthy_trim, forallb_app.
  destruct run as [|c run]; [contradiction|].
  unfold all_enders in Hrun. simpl in Hrun. apply andb_true_iff in Hrun.
  simpl. rewrite (ender_is_not_space c) by apply Hrun.
  now rewrite andb_false_r.
Qed.

(** *** The array of parts *)

Lemma onHead_onHead (a b : jsstring) (parts : list jsstring) :
  onHead a (onHead b parts) = onHead (a ++ b) parts.
Proof.
  destruct parts; simpl; [reflexivity|]. now rewrite app_assoc.
Qed.

Lemma splitEnders_from_acc (s : jsstring) :
  forall in_run cur,
    splitEnders_from in_run cur s = onHead cur (splitEnders_from in_run [] s).
Proof.
  induction s as [|c s IH]; intros in_run cur; simpl.
  - destruct in_run; simpl; now rewrite app_nil_r.
  - destruct (is_ender c), in_run; simpl;
      rewrite ?app_nil_r; try reflexivity;
      rewrite (IH _ (cur ++ [c])), (IH _ [c]), onHead_onHead; reflexivity.
Qed.

Lemma alternating_onHead (c : N) (inner : bool) (parts : list jsstring) :
  is_ender c = false ->
  alternating false parts -> alternating inner (onHead [c] parts).
Proof.
  intros Hc. destruct parts as [|piece rest]; [intros []|].
  simpl. intros [Hpiece Hrest]. split.
  - unfold no_enders in *. simpl. now rewrite Hc.
  - destruct rest as [|run rest']; [exact I|].
    destruct Hrest as (_ & ? & ? & ?). repeat split; auto. discriminate.
Qed.

(** What the scan returns from either state, with nothing read yet. *)
Lemma splitEnders_from_shape (s : jsstring) :
  (alternating false (splitEnders_from false [] s)
   /\ List.concat (splitEnders_from false [] s) = s)
  /\ (exists run rest,
        splitEnders_from true [] s = run :: rest
        /\ all_enders run /\ alternating true rest
        /\ run ++ List.concat rest = s).
Proof.
  induction s as [|c s [[HF HFcat] (run & rest & HR & Hrun & Hrest & HRcat)]].
  - split; [split; [repeat split | reflexivity]|].
    exists nil, [nil]. repeat split.
  - simpl. destruct (is_ender c) eqn:Hc.
    + assert (Hrun' : all_enders (c :: run))
        by (unfold all_enders in *; simpl; now rewrite Hc).
      rewrite (splitEnders_from_acc s true [c]), HR. simpl. split.
      * split; [|now rewrite HRcat].
        repeat split; auto; discriminate.
      * exists (c :: run), rest. repeat split; auto. simpl. now rewrite HRcat.
    + rewrite (splitEnders_from_acc s false [c]). split.
      * split; [now apply alternating_onHead|].
        destruct (splitEnders_from false [] s); [destruct HF|].
        simpl in *. now rewrite HFcat.
      * exists nil, (onHead [c] (splitEnders_from false [] s)).
        repeat split; [now apply alternating_onHead|].
        destruct (splitEnders_from false [] s); [destruct HF|].
        simpl in *. now rewrite HFcat.
Qed.

Lemma splitEnders_shape (text : jsstring) :
  alternating false (splitEnders text) /\ List.concat (splitEnders text) = text.
Proof.
  exact (proj1 (splitEnders_from_shape text)).
Qed.

(** *** Pairing the parts into sentences *)

Lemma parts_pair_ind (P : list jsstring -> Prop) :
  P [] ->
  (forall piece, P [piece]) ->
  (forall piece run rest, P rest -> P (piece :: run :: rest)) ->
  forall parts, P parts.
Proof.
  intros Hnil Hone Hpair parts.
  enough (H : P parts /\ forall x, P (x :: parts)) by apply H.
  induction parts as [|y parts [IH IHx]]; split; auto.
Qed.

Lemma collectSentences_pair (piece run : jsstring) (rest : list jsstring) :
  all_enders run -> run <> [] ->
  collectSentences (piece :: run :: rest)
  = (piece ++ run) :: collectSentences rest.
Proof.
  intros Hrun Hne. simpl. destruct run as [|c run]; [contradiction|].
  cbn [truthy]. now rewrite run_is_not_blank.
Qed.

Lemma no_enders_head (s : jsstring) :
  no_enders s -> s <> [] -> forall run, starts_without_ender (s ++ run).
Proof.
  intros Hs Hne run. destruct s as [|c s]; [contradiction|].
  exists c, (s ++ run). split; [reflexivity|].
  unfold no_enders in Hs. simpl in Hs. apply andb_true_iff in Hs.
  now apply negb_true_iff.
Qed.

Lemma collectSentences_spec (parts : list jsstring) :
  forall inner,
    alternating inner parts ->
    let sentences := collectSentences parts in
    Forall is_sentence sentences
    /\ Forall ends_with_run (removelast sentences)
    /\ Forall starts_without_ender (if inner then sentences else tl sentences)
    /\ (exists tail,
          List.concat parts = List.concat sentences ++ tail
          /\ truthy (trim tail) = false /\ no_enders tail)
    /\ (Forall not_whitespace_only (pieces parts) ->
        List.concat sentences = List.concat parts).
Proof.
  induction parts as [|piece|piece run rest IH] using parts_pair_ind;
    intros inner Halt; [destruct Halt| |].
  - destruct Halt as [Hpiece _]. cbn [collectSentences]. rewrite app_nil_r.
    destruct (truthy (trim piece)) eqn:Hkeep; cbn zeta.
    + split; [|split; [|split; [|split]]].
      * constructor; [|constructor]. exists piece, nil.
        rewrite app_nil_r. repeat split; auto.
      * constructor.
      * destruct inner; [|constructor]. constructor; [|constructor].
        rewrite <- (app_nil_r piece). apply no_enders_head; [assumption|].
        intros ->. discriminate Hkeep.
      * exists nil. rewrite app_nil_r. repeat split.
      * reflexivity.
    + split; [|split; [|split; [|split]]]; try constructor.
      * destruct inner; constructor.
      * exists piece. simpl. rewrite app_nil_r. repeat split; assumption.
      * intros Hall. inversion Hall as [|? ? [->|Hne] _]; [reflexivity|congruence].
  - destruct Halt as (Hpiece & Hinner & Hrun & Hne & Hrest).
    rewrite collectSentences_pair by assumption. cbn zeta.
    destruct (IH true Hrest) as (Hsent & Hends & Hstarts & (tail & Hcat & Htail) & Hall).
    assert (Hshape : ends_with_run (piece ++ run))
      by (exists piece, run; repeat split; assumption).
    split; [|split; [|split; [|split]]].
    + constructor; [|exact Hsent]. exists piece, run. repeat split; auto.
      now apply run_is_not_blank.
    + cbn [removelast]. destruct (collectSentences rest); constructor; assumption.
    + destruct inner; [|exact Hstarts]. constructor; [|exact Hstarts].
      apply no_enders_head; auto.
    + exists tail. split; [|exact Htail].
      cbn [List.concat]. rewrite Hcat. now rewrite <- !app_assoc.
    + intros Hpieces. cbn [pieces] in Hpieces. inversion Hpieces; subst.
      cbn [List.concat]. rewrite Hall by assumption. now rewrite <- app_assoc.
Qed.

Lemma splitIntoSentences_sentences (text s : jsstring) :
  In s (splitIntoSentences text) -> is_sentence s /\ s <> [].
Proof.
  intros Hin.
  destruct (collectSentences_spec (splitEnders text) false
              (proj1 (splitEnders_shape text))) as (Hall & _).
  rewrite Forall_forall in Hall. specialize (Hall s Hin).
  split; [exact Hall|]. destruct Hall as (? & ? & _ & _ & _ & Hkeep).
  intros ->. discriminate Hkeep.
Qed.

(** The terminators are the seven characters of the pattern. *)
Lemma is_ender_terminators (c : N) :
  is_ender c = true <-> In c terminators.
Proof.
  unfold is_ender, terminators. cbn [In].
  rewrite !orb_true_iff, !N.eqb_eq. intuition congruence.
Qed.

(** C8. For every string, [splitIntoSentences] cuts after each maximal
    run of the terminators, which are the seven characters 。！？；.!? and
    no other: every returned sentence is text without terminators
    followed by a run of terminators and is not whitespace-only; every
    returned sentence but the last ends with a non-empty run; no returned
    sentence after the first starts with a terminator (a run always goes
    to the sentence before it); the returned sentences concatenated are
    the input up to a whitespace-only tail without terminators; and when
    no fragment between the runs is whitespace-only, they concatenate to
    the input. *)
Theorem splitIntoSentences_cuts_after_runs (text : jsstring) :
  let sentences := splitIntoSentences text in
  (forall c, is_ender c = true <-> In c terminators)
  /\ Forall is_sentence sentences
  /\ Forall ends_with_run (removelast sentences)
  /\ Forall starts_without_ender (tl sentences)
  /\ (exists tail,
        text = List.concat sentences ++ tail
        /\ truthy (trim tail) = false /\ no_enders tail)
  /\ (Forall not_whitespace_only (fragments text) ->
      List.concat sentences = text).
Proof.
  destruct (splitEnders_shape text) as [Halt Hcat].
  destruct (collectSentences_spec (splitEnders text) false Halt)
    as (H1 & H2 & H3 & H4 & H5).
  rewrite Hcat in H4, H5. unfold splitIntoSentences, fragments.
  split; [apply is_ender_terminators | auto].
Qed.

End Sentences.

Lemma splitIntoSentences_cuts_after_runs_witness :
  Paginator.splitIntoSentences sevenEnders
  = [ lit "a" ++ [65307]%N; lit "b?"; lit " c" ++ [12290]%N; lit "d" ++ [65281]%N;
      lit "e" ++ [65311]%N; lit "f."; lit "g!"; lit "h" ]
  /\ List.concat (Paginator.splitIntoSentences sevenEnders) = sevenEnders
  /\ Forall ends_with_run (removelast (Paginator.splitIntoSentences sevenEnders))
  /\ List.concat (Paginator.splitIntoSentences (lit "Hi!? Go. on"))
     = lit "Hi!? Go. on".
Proof.
  split; [reflexivity|].
  destruct (splitIntoSentences_cuts_after_runs sevenEnders)
    as (_ & _ & Hruns & _ & _ & Hcat).
  split; [|split; [exact Hruns|]].
  - apply Hcat. repeat constructor; right; reflexivity.
  - apply (proj2 (proj2 (proj2 (proj2 (proj2
             (splitIntoSentences_cuts_after_runs (lit "Hi!? Go. on"))))))).
    repeat constructor; right; reflexivity.
Defined.

(** ** [paginateText]: numbering and flags *)

Section PaginateTextFlags.

Import Paginator.

Variables firstPageMaxChars maxChars : Z.

Local Abbreviation flushIfOver := (Paginator.flushIfOver firstPageMaxChars maxChars).
Local Abbreviation addSentence := (Paginator.addSentence firstPageMaxChars maxChars).
Local Abbreviation addParagraph := (Paginator.addParagraph firstPageMaxChars maxChars).

Lemma flushIfOver_unmarked (n : Z) (st : State) :
  all_unmarked (pages st) -> all_unmarked (pages (flushIfOver n st)).
Proof.
  intros Hst. unfold Paginator.flushIfOver.
  destruct (_ && _)%bool; [|exact Hst].
  apply all_unmarked_snoc; auto; reflexivity.
Qed.

Lemma fold_addSentence_unmarked (sentences : list jsstring) :
  forall st,
    all_unmarked (pages st) ->
    all_unmarked (pages (fold_left addSentence sentences st)).
Proof.
  induction sentences as [|s sentences IH]; intros st Hst; [exact Hst|].
  apply IH. now apply flushIfOver_unmarked.
Qed.

Lemma addParagraph_unmarked (st : State) (raw : jsstring) :
  all_unmarked (pages st) -> all_unmarked (pages (addParagraph st raw)).
Proof.
  intros Hst. unfold Paginator.addParagraph.
  destruct (_ >? _)%Z.
  - now apply fold_addSentence_unmarked, flushIfOver_unmarked.
  - now apply flushIfOver_unmarked.
Qed.

Lemma fold_addParagraph_unmarked (paragraphs : list jsstring) :
  forall st,
    all_unmarked (pages st) ->
    all_unmarked (pages (fold_left addParagraph paragraphs st)).
Proof.
  induction paragraphs as [|p paragraphs IH]; intros st Hst; [exact Hst|].
  apply IH. now apply addParagraph_unmarked.
Qed.

Lemma markLast_snoc (pages : list Page) (p : Page) :
  markLast (pages ++ [p])
  = pages ++ [ {| content := content p; pageNumber := pageNumber p;
                  isFirst := isFirst p; isLast := true |} ].
Proof.
  induction pages as [|a pages IH]; [reflexivity|].
  change ((a :: pages) ++ [p]) with (a :: (pages ++ [p])).
  destruct (pages ++ [p]) as [|b rest] eqn:E.
  - destruct pages; discriminate.
  - change (markLast (a :: b :: rest)) with (a :: markLast (b :: rest)).
    now rewrite IH.
Qed.

Lemma markLast_well_flagged (pages : list Page) :
  flagged_but_last pages -> well_flagged (markLast pages).
Proof.
  destruct pages as [|a rest] using rev_ind; intros Hflag.
  - intros [|i] p Hp; discriminate.
  - rewrite markLast_snoc. now apply well_flagged_snoc with (p := a).
Qed.

Lemma markLast_content (pages : list Page) :
  map content (markLast pages) = map content pages.
Proof.
  destruct pages as [|a rest] using rev_ind; [reflexivity|].
  now rewrite markLast_snoc, !map_app.
Qed.

Lemma paginateFrom_well_flagged (paragraphs : list jsstring) :
  well_flagged (paginateFrom firstPageMaxChars maxChars paragraphs).
Proof.
  unfold paginateFrom, finish.
  set (st := fold_left _ _ _).
  assert (Hst : all_unmarked (pages st)).
  { apply fold_addParagraph_unmarked. intros [|i] p Hp; discriminate. }
  apply markLast_well_flagged.
  destruct (truthy _).
  - apply all_unmarked_snoc; auto; reflexivity.
  - now apply all_unmarked_flagged_but_last.
Qed.

End PaginateTextFlags.

(** C5. The pages of a completed run, of [smartPaginate] and of
    [paginateText] alike, are numbered from 1 without gaps (the page at
    index [i] has [pageNumber = i + 1]), [isFirst] is true exactly at index
    0 and [isLast] exactly at index [n - 1]; so each flag is true on exactly
    one page when there is a page, and on the same page when there is only
    one. *)
Theorem pages_are_numbered_and_flagged :
  (forall loadThemeCSS browser text options pages,
     SmartPaginator.smartPaginate loadThemeCSS browser text options = Returns pages ->
     well_flagged pages)
  /\ (forall adjustCharsForLanguage text options,
        well_flagged (Paginator.paginateText adjustCharsForLanguage text options)).
Proof.
  split.
  - intros css browser text options pages Hrun.
    now apply smartPaginate_sound in Hrun.
  - intros adjust text options. apply paginateFrom_well_flagged.
Qed.

Lemma pages_are_numbered_and_flagged_witness :
  exists pages,
    SmartPaginator.smartPaginate noCSS rulerBrowser
      (lit "a" ++ nl ++ lit "b" ++ nl ++ lit "c") defaults = Returns pages
    /\ List.length pages = 2%nat
    /\ well_flagged pages.
Proof.
  eexists. split; [vm_compute; reflexivity|]. split; [reflexivity|].
  apply (proj1 pages_are_numbered_and_flagged noCSS rulerBrowser
           (lit "a" ++ nl ++ lit "b" ++ nl ++ lit "c") defaults).
  vm_compute. reflexivity.
Defined.

(** ** [paginateText]: pages against their limits *)

Section PaginateTextLimits.

Import Paginator.

Variables firstPageMaxChars maxChars : Z.

Local Abbreviation limit := (getCurrentMaxChars firstPageMaxChars maxChars).
Local Abbreviation flushIfOver := (Paginator.flushIfOver firstPageMaxChars maxChars).
Local Abbreviation flushIfOverT := (Paginator.flushIfOverT firstPageMaxChars maxChars).
Local Abbreviation addSentenceT := (Paginator.addSentenceT firstPageMaxChars maxChars).
Local Abbreviation addParagraphT := (Paginator.addParagraphT firstPageMaxChars maxChars).
Local Abbreviation within := (page_within firstPageMaxChars maxChars).
Local Abbreviation invariant := (trace_invariant firstPageMaxChars maxChars).

Local Open Scope Z_scope.

(** *** The traced loop runs the loop of the source *)

Lemma flushIfOverT_state (n : Z) (t : Traced) :
  state (flushIfOverT n t) = flushIfOver n (state t).
Proof.
  unfold Paginator.flushIfOverT, Paginator.flushIfOver.
  now destruct (_ && _)%bool.
Qed.

Lemma fold_addSentenceT_state (paragraph : jsstring) (sentences : list jsstring) :
  forall t,
    state (fold_left (addSentenceT paragraph) sentences t)
    = fold_left (addSentence firstPageMaxChars maxChars) sentences (state t).
Proof.
  induction sentences as [|s sentences IH]; intros t; [reflexivity|].
  simpl. now rewrite IH.
Qed.

Lemma addParagraphT_state (t : Traced) (raw : jsstring) :
  state (addParagraphT t raw) = addParagraph firstPageMaxChars maxChars (state t) raw.
Proof.
  unfold Paginator.addParagraphT, addParagraph.
  rewrite flushIfOverT_state. destruct (_ >? _).
  - now rewrite fold_addSentenceT_state, flushIfOverT_state.
  - reflexivity.
Qed.

Lemma fold_addParagraphT_state (paragraphs : list jsstring) :
  forall t,
    state (fold_left addParagraphT paragraphs t)
    = fold_left (addParagraph firstPageMaxChars maxChars) paragraphs (state t).
Proof.
  induction paragraphs as [|p paragraphs IH]; intros t; [reflexivity|].
  simpl. now rewrite IH, addParagraphT_state.
Qed.

(** *** Counted characters *)

Lemma strlen_nonneg (s : jsstring) : 0 <= strlen s.
Proof. unfold strlen, len. lia. Qed.

Lemma totalLength_app (us vs : list TextUnit) :
  totalLength (us ++ vs) = totalLength us + totalLength vs.
Proof.
  induction us as [|u us IH]; simpl; [reflexivity|]. rewrite IH. lia.
Qed.

Lemma totalLength_nonneg (us : list TextUnit) : 0 <= totalLength us.
Proof.
  induction us as [|u us IH]; simpl; [lia|].
  assert (0 <= unitLength u) by (destruct u; apply strlen_nonneg). lia.
Qed.

Lemma textOf_app (us vs : list TextUnit) :
  textOf (us ++ vs) = textOf us ++ textOf vs.
Proof.
  unfold textOf. now rewrite map_app, concat_app.
Qed.

(** A page with a unit has text. *)
Lemma textOf_truthy (us : list TextUnit) :
  Forall (unit_ok firstPageMaxChars maxChars) us ->
  truthy (textOf us) = match us with [] => false | _ => true end.
Proof.
  intros Hus. destruct us as [|u us]; [reflexivity|].
  inversion Hus as [|? ? Hu _]; subst. unfold textOf. simpl.
  destruct u as [p|paragraph s]; simpl.
  - destruct p; reflexivity.
  - destruct Hu as [Hin _]. apply splitIntoSentences_sentences in Hin.
    destruct s; [now destruct Hin|reflexivity].
Qed.

(** *** The invariant *)

Lemma invariant_units_ok (t : Traced) :
  invariant t -> Forall (unit_ok firstPageMaxChars maxChars) (currentUnits t).
Proof.
  intros (_ & _ & _ & [->|[H _]] & _); [constructor | exact H].
Qed.

Lemma limit_of_pages (st : State) :
  limit_of firstPageMaxChars maxChars (List.length (pages st)) = limit st.
Proof. reflexivity. Qed.

(** Emitting the page being built keeps the record of emitted pages. *)
Lemma emitted_snoc (t : Traced) (last : bool) :
  invariant t ->
  truthy (currentPageContent (state t)) = true ->
  forall i units page,
    nth_error (emitted t ++ [currentUnits t]) i = Some units ->
    nth_error (pages (state t) ++ [newPage (state t) last]) i = Some page ->
    units <> []
    /\ within (limit_of firstPageMaxChars maxChars i) units
    /\ content page = trim (textOf units).
Proof.
  intros Hinv Htext i units page Hunits Hpage.
  pose proof (invariant_units_ok t Hinv) as Hok.
  destruct Hinv as (Hlen & _ & Hcontent & Hcur & Hemitted).
  destruct (Nat.lt_ge_cases i (List.length (emitted t))) as [Hlt|Hge].
  - rewrite nth_error_app1 in Hunits by assumption.
    rewrite nth_error_app1 in Hpage by (rewrite <- Hlen; assumption).
    eauto.
  - rewrite nth_error_app2 in Hunits by assumption.
    rewrite nth_error_app2 in Hpage by (rewrite <- Hlen; assumption).
    rewrite <- Hlen in Hpage.
    destruct (i - List.length (emitted t))%nat as [|[|j]] eqn:E; simpl in *;
      try discriminate.
    inversion Hunits; subst units. inversion Hpage; subst page.
    assert (i = List.length (pages (state t))) by lia. subst i.
    rewrite Hcontent, (textOf_truthy _ Hok) in Htext.
    destruct Hcur as [Hnil|Hwithin]; [rewrite Hnil in Htext; discriminate|].
    split; [intros Hnil; rewrite Hnil in Htext; discriminate|].
    split; [exact Hwithin|]. simpl. now rewrite Hcontent.
Qed.

Lemma flushIfOverT_invariant (n : Z) (t : Traced) :
  invariant t ->
  invariant (flushIfOverT n t)
  /\ (currentUnits (flushIfOverT n t) = []
      \/ currentCharCount (state (flushIfOverT n t)) + n
         <= limit (state (flushIfOverT n t))).
Proof.
  intros Hinv. unfold Paginator.flushIfOverT, Paginator.flushIfOver.
  destruct (_ && _)%bool eqn:Hcond.
  - apply andb_true_iff in Hcond. destruct Hcond as [_ Htext].
    split; [|now left]. unfold trace_invariant. cbn [state emitted currentUnits
      pages currentPageContent currentCharCount].
    split; [rewrite !length_app; simpl; f_equal; apply Hinv|].
    split; [reflexivity|]. split; [reflexivity|]. split; [now left|].
    now apply emitted_snoc.
  - split; [exact Hinv|].
    apply andb_false_iff in Hcond. destruct Hcond as [Hfits|Hempty].
    + right. rewrite Z.gtb_ltb in Hfits. apply Z.ltb_ge in Hfits. exact Hfits.
    + left. destruct Hinv as (_ & _ & Hcontent & Hcur & _).
      destruct Hcur as [Hnil|[Hok _]]; [exact Hnil|].
      rewrite Hcontent, (textOf_truthy _ Hok) in Hempty.
      destruct (currentUnits t); [reflexivity|discriminate].
Qed.

(** Appending a unit to the page being built, after the flush test. *)
Lemma append_unit_invariant (t : Traced) (u : TextUnit) (st : State) :
  invariant t ->
  unit_ok firstPageMaxChars maxChars u ->
  pages st = pages (state t) ->
  currentPageContent st = currentPageContent (state t) ++ unitText u ->
  currentCharCount st = currentCharCount (state t) + unitLength u ->
  (currentUnits t = [] ->
   limit (state t) < unitLength u -> exists paragraph s, u = Sentence paragraph s) ->
  (currentUnits t = []
   \/ currentCharCount (state t) + unitLength u <= limit (state t)) ->
  invariant {| state := st; emitted := emitted t;
               currentUnits := currentUnits t ++ [u] |}.
Proof.
  intros Hinv Hu Hpages Hcontent Hcount Hover Hroom.
  pose proof (invariant_units_ok t Hinv) as Hok.
  destruct Hinv as (Hlen & Hcnt & Htext & Hcur & Hemitted).
  unfold trace_invariant. cbn [state emitted currentUnits].
  rewrite Hpages, Hcontent, Hcount, totalLength_app, textOf_app.
  split; [exact Hlen|]. split; [simpl; lia|].
  split; [unfold textOf at 2; simpl; now rewrite app_nil_r, Htext|].
  split; [|exact Hemitted].
  right. unfold Paginator.getCurrentMaxChars. rewrite Hpages.
  fold (limit (state t)).
  split; [apply Forall_app; split; [exact Hok | now constructor]|].
  rewrite totalLength_app. simpl totalLength at 2 4. rewrite !Z.add_0_r.
  destruct Hroom as [Hnil|Hfits].
  - rewrite Hnil in *. simpl. split; [simpl; lia|].
    intros Hgt. destruct (Hover eq_refl Hgt) as (paragraph & s & ->). eauto.
  - rewrite <- Hcnt. split; [intros _; exact Hfits | lia].
Qed.

Lemma addSentenceT_invariant (paragraph : jsstring) (t : Traced) (s : jsstring) :
  invariant t ->
  In s (splitIntoSentences paragraph) ->
  (firstPageMaxChars < strlen paragraph \/ maxChars < strlen paragraph) ->
  invariant (addSentenceT paragraph t s).
Proof.
  intros Hinv Hin Hbig.
  destruct (flushIfOverT_invariant (strlen s) t Hinv) as [Hinv' Hroom].
  unfold Paginator.addSentenceT.
  apply append_unit_invariant; auto.
  - split; assumption.
  - unfold addSentence. now rewrite flushIfOverT_state.
  - unfold addSentence. now rewrite flushIfOverT_state.
  - unfold addSentence. now rewrite flushIfOverT_state.
  - eauto.
Qed.

Lemma fold_addSentenceT_invariant (paragraph : jsstring) (sentences : list jsstring) :
  (firstPageMaxChars < strlen paragraph \/ maxChars < strlen paragraph) ->
  (forall s, In s sentences -> In s (splitIntoSentences paragraph)) ->
  forall t, invariant t ->
            invariant (fold_left (addSentenceT paragraph) sentences t).
Proof.
  intros Hbig. induction sentences as [|s sentences IH]; intros Hsub t Hinv;
    [exact Hinv|].
  simpl. apply IH; [intros; apply Hsub; now right|].
  apply addSentenceT_invariant; auto. apply Hsub. now left.
Qed.

Lemma addParagraphT_invariant (t : Traced) (raw : jsstring) :
  invariant t -> invariant (addParagraphT t raw).
Proof.
  intros Hinv.
  destruct (flushIfOverT_invariant (strlen (trim raw)) t Hinv) as [Hinv' Hroom].
  unfold Paginator.addParagraphT.
  destruct (Z.gtb_spec (strlen (trim raw))
              (limit (state (flushIfOverT (strlen (trim raw)) t)))) as [Hbig|Hfits].
  - apply fold_addSentenceT_invariant; auto.
    unfold Paginator.getCurrentMaxChars in Hbig.
    destruct (_ =? _)%nat; lia.
  - apply append_unit_invariant; auto.
    + exact I.
    + unfold addParagraph. rewrite <- flushIfOverT_state.
      destruct (Z.gtb_spec (strlen (trim raw))
                  (limit (state (flushIfOverT (strlen (trim raw)) t))));
        [lia|reflexivity].
    + unfold addParagraph. rewrite <- flushIfOverT_state.
      destruct (Z.gtb_spec (strlen (trim raw))
                  (limit (state (flushIfOverT (strlen (trim raw)) t))));
        [lia|reflexivity].
    + unfold addParagraph. rewrite <- flushIfOverT_state.
      destruct (Z.gtb_spec (strlen (trim raw))
                  (limit (state (flushIfOverT (strlen (trim raw)) t))));
        [lia|reflexivity].
    + simpl. intros _ Hgt. lia.
Qed.

Lemma fold_addParagraphT_invariant (paragraphs : list jsstring) :
  forall t, invariant t -> invariant (fold_left addParagraphT paragraphs t).
Proof.
  induction paragraphs as [|p paragraphs IH]; intros t Hinv; [exact Hinv|].
  simpl. now apply IH, addParagraphT_invariant.
Qed.

Lemma markLast_nth (X : list Page) (i : nat) (page : Page) :
  nth_error (markLast X) i = Some page ->
  exists page', nth_error X i = Some page' /\ content page' = content page.
Proof.
  intros Hpage.
  pose proof (f_equal (fun l => nth_error l i) (markLast_content X)) as E.
  cbv beta in E. rewrite !nth_error_map, Hpage in E.
  destruct (nth_error X i) as [page'|]; [|discriminate].
  exists page'. split; [reflexivity|]. now inversion E.
Qed.

Lemma markLast_length (X : list Page) : List.length (markLast X) = List.length X.
Proof.
  rewrite <- (length_map content (markLast X)), markLast_content.
  apply length_map.
Qed.

Lemma initialT_invariant : invariant initialT.
Proof.
  unfold trace_invariant. simpl.
  split; [reflexivity|]. split; [reflexivity|]. split; [reflexivity|].
  split; [now left|]. intros [|i] us pg H; discriminate H.
Qed.

(** The pages of the source loop against the record of the traced one. *)
Lemma paginateFrom_within_limits (paragraphs : list jsstring) :
  let pages := paginateFrom firstPageMaxChars maxChars paragraphs in
  let trace := tracePages firstPageMaxChars maxChars paragraphs in
  List.length trace = List.length pages
  /\ forall i page units,
       nth_error pages i = Some page ->
       nth_error trace i = Some units ->
       units <> []
       /\ within (limit_of firstPageMaxChars maxChars i) units
       /\ content page = trim (textOf units).
Proof.
  unfold paginateFrom, tracePages, finish, finishT.
  pose proof (fold_addParagraphT_invariant paragraphs initialT initialT_invariant)
    as Hinv.
  rewrite <- (fold_addParagraphT_state paragraphs initialT : _ = fold_left _ _ initial).
  set (t := fold_left addParagraphT paragraphs initialT) in *.
  cbv zeta. rewrite markLast_length.
  destruct (truthy (trim (currentPageContent (state t)))) eqn:Hlast.
  - split; [rewrite !length_app; simpl; f_equal; apply Hinv|].
    intros i page units Hpage Hunits.
    destruct (markLast_nth _ _ _ Hpage) as (page' & Hpage' & <-).
    apply (emitted_snoc t true Hinv) with (i := i); auto.
    destruct (currentPageContent (state t)); [discriminate Hlast|reflexivity].
  - split; [apply Hinv|].
    intros i page units Hpage Hunits.
    destruct (markLast_nth _ _ _ Hpage) as (page' & Hpage' & <-).
    destruct Hinv as (_ & _ & _ & _ & Hemitted). eauto.
Qed.

End PaginateTextLimits.

(** C10. Every page [paginateText] emits was built from at least one
    unit, whole paragraphs and sentences of split paragraphs, and its
    text is those units put together; a page of two or more units counts
    at most the limit of its position ([firstPageMaxChars] for the first
    page, [maxChars] for a later one); and a page counts more than its
    limit only when it is a single sentence, one that
    [splitIntoSentences] returned for a paragraph longer than a limit. *)
Theorem paginateText_pages_within_limits adjustCharsForLanguage text options :
  let firstPageMaxChars :=
    Paginator.firstPageMaxCharsOf adjustCharsForLanguage text options in
  let maxChars := Paginator.maxCharsOf adjustCharsForLanguage text options in
  let pages := Paginator.paginateText adjustCharsForLanguage text options in
  let trace :=
    Paginator.tracePages firstPageMaxChars maxChars
      (Paginator.splitParagraphs (Paginator.cleanText text)) in
  List.length trace = List.length pages
  /\ forall i page units,
       nth_error pages i = Some page ->
       nth_error trace i = Some units ->
       content page = trim (textOf units)
       /\ units <> []
       /\ ((2 <= List.length units)%nat ->
           (Paginator.totalLength units <= limit_of firstPageMaxChars maxChars i)%Z)
       /\ ((limit_of firstPageMaxChars maxChars i < Paginator.totalLength units)%Z ->
           exists paragraph sentence,
             units = [Paginator.Sentence paragraph sentence]
             /\ In sentence (Paginator.splitIntoSentences paragraph)
             /\ (firstPageMaxChars < strlen paragraph
                 \/ maxChars < strlen paragraph)%Z).
Proof.
  intros firstPageMaxChars maxChars pages trace.
  destruct (paginateFrom_within_limits firstPageMaxChars maxChars
              (Paginator.splitParagraphs (Paginator.cleanText text)))
    as [Hlen Hpages].
  split; [exact Hlen|].
  intros i page units Hpage Hunits.
  destruct (Hpages i page units Hpage Hunits) as (Hne & (Hok & Hmany & Hover) & Htext).
  repeat split; auto.
  intros Hgt. destruct (Hover Hgt) as (paragraph & sentence & ->).
  exists paragraph, sentence. split; [reflexivity|].
  inversion Hok as [|? ? Hu _]; subst. exact Hu.
Qed.

Lemma paginateText_pages_within_limits_witness :
  exists page paragraph sentence,
    nth_error (Paginator.paginateText noAdjust shortAndLong fiveChars) 1 = Some page
    /\ content page = lit "cd efgh."
    /\ [Paginator.Sentence (lit "cd efgh. ij") (lit "cd efgh.")]
       = [Paginator.Sentence paragraph sentence]
    /\ In sentence (Paginator.splitIntoSentences paragraph)
    /\ (5 < strlen paragraph \/ 5 < strlen paragraph)%Z.
Proof.
  eexists. 
  destruct (proj2 (paginateText_pages_within_limits noAdjust shortAndLong fiveChars)
              1%nat _ [Paginator.Sentence (lit "cd efgh. ij") (lit "cd efgh.")]
              eq_refl eq_refl) as (Htext & _ & _ & Hover).
  destruct (Hover eq_refl) as (paragraph & sentence & Hunits & Hin & Hbig).
  exists paragraph, sentence.
  split; [reflexivity|]. split; [exact Htext|]. split; [exact Hunits|].
  split; [exact Hin | exact Hbig].
Defined.

(** * Further properties *)

(** ** [findPageBreak] with an arbitrary oracle *)

Section FindPageBreakAnyOracle.

Variable loadThemeCSS : Theme -> jsstring.
Variable page : PlaywrightPage.
Variable paragraphs : list jsstring.
Variable startIndex : Z.
Variable options : SmartPaginator.SmartPaginatorOptions.

Local Open Scope Z_scope.

(** Whatever the tab answers, a search that returns ends on the count it
    started from or on a midpoint it tried. *)
Lemma loop_result_range (h : Q) (fuel : nat) :
  forall low high result r,
    SmartPaginator.findPageBreak_loop loadThemeCSS page paragraphs startIndex
      options h fuel low high result = Returns r ->
    r = result \/ low <= r <= high.
Proof.
  induction fuel as [|fuel IH]; intros low high result r Hrun; simpl in Hrun;
    destruct (Z.leb_spec low high) as [Hle|Hgt]; try discriminate;
    try (inversion Hrun; now left).
  pose proof (midpoint_bounds _ _ Hle) as Hmid.
  destruct (page _ ContentClass) as [found| |]; simpl in Hrun; try discriminate.
  destruct (Qle_bool _ h); apply IH in Hrun; lia.
Qed.

Lemma findPageBreak_within_remaining_any (h : Q) (k : Z) :
  SmartPaginator.findPageBreak loadThemeCSS page paragraphs startIndex options h
  = Returns k ->
  1 <= k /\ (startIndex < len paragraphs -> k <= len paragraphs - startIndex).
Proof.
  unfold SmartPaginator.findPageBreak.
  destruct (SmartPaginator.findPageBreak_loop _ _ _ _ _ _ _ _ _ _) as [r| |] eqn:Hrun;
    simpl; intros E; inversion E; subst k.
  apply loop_result_range in Hrun.
  destruct (Z.gtb_spec r 0); lia.
Qed.

(** X1. Whatever the oracle reports, a count that [findPageBreak] returns
    is at least 1 and, for a start index below the length, at most the
    number of paragraphs that remain. *)
Theorem findPageBreak_within_remaining (h : Q) (k : Z) :
  SmartPaginator.findPageBreak loadThemeCSS page paragraphs startIndex options h
  = Returns k ->
  1 <= k /\ (startIndex < len paragraphs -> k <= len paragraphs - startIndex).
Proof.
  exact (findPageBreak_within_remaining_any h k).
Qed.

(** X2. With every probe answered, monotone or not, the count returned is
    a boundary of the measurements: either its prefix fits the budget and
    the prefix one paragraph longer (when there is one) does not, or it is
    1 and even the single paragraph does not fit. *)
Theorem findPageBreak_settles_at_boundary (heights : Z -> Q) (h : Q) :
  startIndex < len paragraphs ->
  (forall k, 1 <= k <= len paragraphs - startIndex ->
             probeHeight loadThemeCSS page paragraphs startIndex options k
             = Returns (heights k)) ->
  exists k,
    SmartPaginator.findPageBreak loadThemeCSS page paragraphs startIndex options h
    = Returns k
    /\ 1 <= k <= len paragraphs - startIndex
    /\ (((heights k <= h)%Q
         /\ (k < len paragraphs - startIndex -> ~ (heights (k + 1)%Z <= h)%Q))
        \/ (k = 1 /\ ~ (heights 1%Z <= h)%Q)).
Proof.
  intros Hstart Hprobes.
  destruct (findPageBreak_boundary loadThemeCSS page paragraphs startIndex options
              heights Hprobes h) as (r & Hr & H0 & Hn & Hfits & Hnext).
  unfold SmartPaginator.findPageBreak. rewrite Hr. simpl.
  destruct (Z.gtb_spec r 0) as [Hpos|Hzero].
  - exists r. split; [reflexivity|]. split; [lia|]. left. split.
    + apply Qle_bool_iff, Hfits. lia.
    + intros Hlt Hfit. apply Qle_bool_iff in Hfit.
      rewrite Hnext in Hfit by lia. discriminate.
  - assert (r = 0) by lia. subst r.
    exists 1. split; [reflexivity|]. split; [lia|]. right. split; [reflexivity|].
    intros Hfit. apply Qle_bool_iff in Hfit. simpl in Hnext.
    rewrite Hnext in Hfit by lia. discriminate.
Qed.

End FindPageBreakAnyOracle.

Lemma findPageBreak_within_remaining_witness :
  (1 <= 2 /\ (0 < len abc -> 2 <= len abc - 0))%Z.
Proof.
  apply (findPageBreak_within_remaining noCSS lengthPage abc 0 defaults 344 2).
  reflexivity.
Defined.

Lemma findPageBreak_settles_at_boundary_witness :
  let heights := zigzagHeights in
  exists k,
    SmartPaginator.findPageBreak noCSS (zigzagPage abc) abc 0 defaults 10 = Returns k
    /\ (1 <= k <= len abc - 0)%Z
    /\ ((heights k <= 10 /\ ((k < len abc - 0)%Z -> ~ heights (k + 1)%Z <= 10))
        \/ (k = 1%Z /\ ~ heights 1%Z <= 10)).
Proof.
  apply (findPageBreak_settles_at_boundary noCSS (zigzagPage abc) abc 0 defaults
           zigzagHeights 10).
  - reflexivity.
  - intros k Hk. change (len abc - 0)%Z with 3%Z in Hk.
    assert (Hc : (k = 1 \/ k = 2 \/ k = 3)%Z) by lia.
    destruct Hc as [->|[->| ->]]; reflexivity.
Defined.

(** ** Cleaning and blank text *)

Section BlankText.

Lemma forallb_repeat_LF (n : nat) : forallb is_space (repeat LF n) = true.
Proof. induction n as [|n IH]; simpl; auto. Qed.

Lemma emitNewlines_blank (n : nat) : forallb is_space (emitNewlines n) = true.
Proof.
  unfold emitNewlines. destruct (3 <=? n)%nat; [reflexivity | apply forallb_repeat_LF].
Qed.

Lemma replaceCRLF_cons2 (c d : N) (r : jsstring) :
  replaceCRLF (c :: d :: r)
  = if ((c =? CR) && (d =? LF))%N then LF :: replaceCRLF r
    else c :: replaceCRLF (d :: r).
Proof. reflexivity. Qed.

Lemma replaceCRLF_blankness (s : jsstring) :
  forallb is_space (replaceCRLF s) = forallb is_space s.
Proof.
  enough (H : forall n s, (List.length s <= n)%nat ->
                          forallb is_space (replaceCRLF s) = forallb is_space s)
    by (apply (H (List.length s)); lia).
  clear s. induction n as [|n IH]; intros s Hlen.
  - destruct s; [reflexivity | simpl in Hlen; lia].
  - destruct s as [|c [|d r]]; [reflexivity | reflexivity |].
    rewrite replaceCRLF_cons2.
    destruct ((c =? CR) && (d =? LF))%N eqn:E.
    + apply andb_true_iff in E. destruct E as [Ec Ed].
      apply N.eqb_eq in Ec, Ed. subst c d.
      change (forallb is_space (LF :: replaceCRLF r))
        with (forallb is_space (replaceCRLF r)).
      assert (Hr : (List.length r <= n)%nat) by (simpl in Hlen; lia).
      rewrite (IH r Hr). reflexivity.
    + change (forallb is_space (c :: replaceCRLF (d :: r)))
        with (is_space c && forallb is_space (replaceCRLF (d :: r)))%bool.
      assert (Hr : (List.length (d :: r) <= n)%nat) by (simpl in *; lia).
      rewrite (IH (d :: r) Hr). reflexivity.
Qed.

Lemma collapseNewlines_from_blankness (s : jsstring) :
  forall pending,
    forallb is_space (collapseNewlines_from pending s) = forallb is_space s.
Proof.
  induction s as [|c s IH]; intros pending; simpl.
  - apply emitNewlines_blank.
  - destruct (N.eqb_spec c LF) as [->|_].
    + rewrite IH. reflexivity.
    + rewrite forallb_app, emitNewlines_blank. simpl. now rewrite IH.
Qed.

Lemma trim_blankness (s : jsstring) :
  forallb is_space (trim s) = forallb is_space s.
Proof.
  unfold trim, trimEnd.
  now rewrite forallb_rev, trimStart_keeps_blankness, forallb_rev,
    trimStart_keeps_blankness.
Qed.

Lemma trim_nil_iff (s : jsstring) :
  trim s = [] <-> forallb is_space s = true.
Proof.
  pose proof (truthy_trim s) as H. destruct (trim s) eqn:E; simpl in H.
  - split; [intros _|reflexivity]. now destruct (forallb is_space s).
  - split; [discriminate|]. intros Hb. rewrite Hb in H. discriminate.
Qed.

Lemma cleanText_nil_iff (text : jsstring) :
  SmartPaginator.cleanText text = [] <-> forallb is_space text = true.
Proof.
  unfold SmartPaginator.cleanText. rewrite trim_nil_iff.
  unfold collapseNewlines.
  now rewrite collapseNewlines_from_blankness, replaceCRLF_blankness.
Qed.

Lemma splitNewlines_from_blankness (s : jsstring) :
  forall in_run cur,
    (in_run = true -> cur = []) ->
    forallb (forallb is_space) (splitNewlines_from in_run cur s)
    = (forallb is_space cur && forallb is_space s)%bool.
Proof.
  induction s as [|c s IH]; intros in_run cur Hrun; simpl.
  - now rewrite !andb_true_r.
  - destruct (N.eqb_spec c LF) as [->|_].
    + destruct in_run; simpl; rewrite IH by reflexivity; simpl.
      * now rewrite (Hrun eq_refl).
      * reflexivity.
    + rewrite IH by discriminate. rewrite forallb_app. simpl.
      now rewrite andb_true_r, andb_assoc.
Qed.

Lemma filter_nil_iff {A : Type} (f : A -> bool) (l : list A) :
  filter f l = [] <-> forallb (fun x => negb (f x)) l = true.
Proof.
  induction l as [|x l IH]; simpl; [tauto|].
  destruct (f x); simpl; [split; discriminate | exact IH].
Qed.

(** No paragraph exactly when the text is white space only. *)
Lemma no_paragraph_iff_blank (text : jsstring) :
  SmartPaginator.splitParagraphs (SmartPaginator.cleanText text) = []
  <-> forallb is_space text = true.
Proof.
  unfold SmartPaginator.splitParagraphs. rewrite filter_nil_iff.
  assert (Hsame : forall l : list jsstring,
            forallb (fun p => negb (truthy (trim p))) l
            = forallb (forallb is_space) l).
  { induction l as [|p l IH]; simpl; [reflexivity|].
    now rewrite truthy_trim, negb_involutive, IH. }
  rewrite Hsame. unfold splitNewlines. rewrite splitNewlines_from_blankness by discriminate.
  simpl. unfold SmartPaginator.cleanText, collapseNewlines.
  now rewrite trim_blankness, collapseNewlines_from_blankness, replaceCRLF_blankness.
Qed.

End BlankText.

(** ** [smartPaginate]: edge cases and page counts *)

Section SmartPaginateMore.

Variable loadThemeCSS : Theme -> jsstring.

Local Open Scope Z_scope.

(** X3. [smartPaginate] returns no page exactly for a text that is white
    space only; for such a text it returns at once, whatever the browser
    would do. *)
Theorem smartPaginate_no_page_iff_blank browser text options :
  (forallb is_space text = true ->
   SmartPaginator.smartPaginate loadThemeCSS browser text options = Returns [])
  /\ (SmartPaginator.smartPaginate loadThemeCSS browser text options = Returns [] ->
      forallb is_space text = true).
Proof.
  split.
  - intros Hblank. apply no_paragraph_iff_blank in Hblank.
    unfold SmartPaginator.smartPaginate. now rewrite Hblank.
  - intros Hrun. apply smartPaginate_sound in Hrun.
    apply no_paragraph_iff_blank. now destruct Hrun as [<- _].
Qed.

Lemma concat_length_nonempty {A : Type} (groups : list (list A)) :
  Forall (fun g => g <> []) groups ->
  (List.length groups <= List.length (List.concat groups))%nat.
Proof.
  induction 1 as [|g groups Hg _ IH]; simpl; [lia|].
  rewrite length_app. destruct g; [contradiction|]. simpl. lia.
Qed.

(** X4. Every page of a completed run holds at least one paragraph, so
    there are at most as many pages as paragraphs, and at least one page
    when there is a paragraph. *)
Theorem smartPaginate_page_count browser text options pages :
  SmartPaginator.smartPaginate loadThemeCSS browser text options = Returns pages ->
  Forall (fun p => SmartPaginator.paragraphs p <> []) pages
  /\ (List.length pages
      <= List.length (SmartPaginator.splitParagraphs (SmartPaginator.cleanText text)))%nat
  /\ (SmartPaginator.splitParagraphs (SmartPaginator.cleanText text) <> [] ->
      pages <> []).
Proof.
  intros Hrun. apply smartPaginate_sound in Hrun. destruct Hrun as (Hcat & Hhold & _).
  assert (Hne : Forall (fun p => SmartPaginator.paragraphs p <> []) pages)
    by (eapply Forall_impl; [|exact Hhold]; now intros p [_ Hp]).
  split; [exact Hne|]. split.
  - rewrite <- Hcat, <- (length_map SmartPaginator.paragraphs pages).
    apply concat_length_nonempty. now rewrite Forall_map.
  - intros Hall ->. now apply Hall.
Qed.

(** When the first search takes every paragraph, the loop ends with one
    page. *)
Lemma paginate_loop_takes_all page options all firstHeight baseHeight :
  all <> [] ->
  SmartPaginator.findPageBreak loadThemeCSS page all 0 options firstHeight
  = Returns (len all) ->
  SmartPaginator.paginate_loop loadThemeCSS page options all firstHeight baseHeight
    (List.length all) [] 0
  = Returns [ {| SmartPaginator.content := join (nl ++ nl) all;
                 SmartPaginator.pageNumber := 1;
                 SmartPaginator.isFirst := true;
                 SmartPaginator.isLast := false;
                 SmartPaginator.paragraphs := all |} ].
Proof.
  intros Hne Hfind. destruct all as [|a rest] eqn:Hall; [contradiction|].
  rewrite <- Hall in *. replace (List.length all) with (S (List.length rest))
    by (rewrite Hall; reflexivity).
  cbn [SmartPaginator.paginate_loop].
  assert (Hpos : 0 < len all) by (rewrite Hall; unfold len; simpl; lia).
  apply Z.ltb_lt in Hpos. rewrite Hpos.
  cbn [List.length Nat.eqb]. rewrite Hfind. cbn [bind].
  rewrite (slice_window all 0 (len all)) by (unfold len; lia).
  cbn [Z.to_nat skipn app]. unfold len at 1 2 3. cbn [List.length Z.of_nat Z.add].
  rewrite Nat2Z.id, firstn_all.
  destruct (List.length rest); cbn [SmartPaginator.paginate_loop];
    unfold len; rewrite Z.ltb_irrefl; reflexivity.
Qed.

(** X5. A text of one paragraph gives exactly one page, first and last
    at once, holding that paragraph, whatever the tab measures, as long as
    it answers. *)
Theorem smartPaginate_single_paragraph browser text options p :
  SmartPaginator.splitParagraphs (SmartPaginator.cleanText text) = [p] ->
  (forall w h, always_answers (browser w h)) ->
  SmartPaginator.smartPaginate loadThemeCSS browser text options
  = Returns [ {| SmartPaginator.content := p;
                 SmartPaginator.pageNumber := 1;
                 SmartPaginator.isFirst := true;
                 SmartPaginator.isLast := true;
                 SmartPaginator.paragraphs := [p] |} ].
Proof.
  intros Hone Hbrowser. unfold SmartPaginator.smartPaginate. rewrite Hone.
  cbn [List.length Nat.eqb].
  set (page := browser 1080 _).
  destruct (measureAvailableHeight_returns loadThemeCSS page options
              match SmartPaginator.hasTitle options with Some b => b | None => false end
              (DIMENSIONS match SmartPaginator.ratio options with
                          | Some r => r | None => ratio_3_4 end)
              (Hbrowser _ _)) as (b1 & ->).
  destruct (measureAvailableHeight_returns loadThemeCSS page options false
              (DIMENSIONS match SmartPaginator.ratio options with
                          | Some r => r | None => ratio_3_4 end)
              (Hbrowser _ _)) as (b2 & ->).
  cbn [bind].
  destruct (findPageBreak_returns loadThemeCSS page [p] 0 options b1 (Hbrowser _ _))
    as (k & Hk).
  pose proof (findPageBreak_within_remaining_any loadThemeCSS page [p] 0 options b1 k Hk)
    as [Hlow Hhigh].
  assert (k = len [p]) by (unfold len in *; simpl in *; lia). subst k.
  change 1%nat with (List.length [p]).
  rewrite (paginate_loop_takes_all page options [p] b1 b2) by (discriminate || exact Hk).
  reflexivity.
Qed.

(** X6. When every prefix of the paragraphs measures within the budget of
    the first page, the run gives a single page with all the paragraphs. *)
Theorem smartPaginate_everything_fits browser text options budget base :
  let all := SmartPaginator.splitParagraphs (SmartPaginator.cleanText text) in
  let dimensions := DIMENSIONS match SmartPaginator.ratio options with
                               | Some r => r | None => ratio_3_4 end in
  let page := browser 1080 (height dimensions) in
  all <> [] ->
  SmartPaginator.measureAvailableHeight loadThemeCSS page options
    match SmartPaginator.hasTitle options with Some b => b | None => false end
    dimensions = Returns budget ->
  SmartPaginator.measureAvailableHeight loadThemeCSS page options false dimensions
  = Returns base ->
  (forall k, 1 <= k <= len all ->
             exists hk, probeHeight loadThemeCSS page all 0 options k = Returns hk
                        /\ (hk <= budget)%Q) ->
  SmartPaginator.smartPaginate loadThemeCSS browser text options
  = Returns [ {| SmartPaginator.content := join (nl ++ nl) all;
                 SmartPaginator.pageNumber := 1;
                 SmartPaginator.isFirst := true;
                 SmartPaginator.isLast := true;
                 SmartPaginator.paragraphs := all |} ].
Proof.
  intros all dimensions page Hne Hfirst Hbase Hfit.
  unfold SmartPaginator.smartPaginate. fold all. fold dimensions. fold page.
  destruct (List.length all =? 0)%nat eqn:Hlen.
  { apply Nat.eqb_eq in Hlen. destruct all; [contradiction|discriminate]. }
  rewrite Hfirst, Hbase. cbn [bind].
  assert (Hprobes : forall k, 1 <= k <= len all - 0 ->
            probeHeight loadThemeCSS page all 0 options k
            = Returns (answeredHeight loadThemeCSS page all 0 options k)).
  { intros k Hk. destruct (Hfit k ltac:(lia)) as (hk & Hhk & _).
    unfold answeredHeight. now rewrite Hhk. }
  destruct (findPageBreak_boundary loadThemeCSS page all 0 options _ Hprobes budget)
    as (r & Hr & H0 & Hn & _ & Hnext).
  assert (Hpos : 0 < len all) by (unfold len; destruct all; [contradiction|simpl; lia]).
  assert (r = len all).
  { destruct (Z_lt_le_dec r (len all - 0)) as [Hlt|]; [|lia].
    specialize (Hnext Hlt). destruct (Hfit (r + 1) ltac:(lia)) as (hk & Hhk & Hle).
    unfold answeredHeight in Hnext. rewrite Hhk in Hnext.
    apply Qle_bool_iff in Hle. congruence. }
  subst r.
  rewrite (paginate_loop_takes_all page options all budget base Hne).
  - reflexivity.
  - unfold SmartPaginator.findPageBreak. rewrite Hr. cbn [bind].
    destruct (Z.gtb_spec (len all) 0); [reflexivity|lia].
Qed.

(** X7. The pages [smartPaginateCompat] hands to the renderer keep the
    numbering and the flags, and their texts joined by the paragraph
    separator split back into the paragraphs of the cleaned text. *)
Theorem smartPaginateCompat_keeps_pages browser text options pages :
  SmartPaginator.smartPaginateCompat loadThemeCSS browser text options
  = Returns pages ->
  well_flagged pages
  /\ SmartPaginator.splitParagraphs (join (nl ++ nl) (map content pages))
     = SmartPaginator.splitParagraphs (SmartPaginator.cleanText text)
  /\ Forall (fun page => truthy (content page) = true) pages.
Proof.
  unfold SmartPaginator.smartPaginateCompat.
  destruct (SmartPaginator.smartPaginate _ _ _ _) as [smart| |] eqn:Hrun;
    simpl; intros E; inversion E; subst pages; clear E.
  apply smartPaginate_sound in Hrun. destruct Hrun as (Hcat & Hhold & Hflags).
  assert (Hps : Forall is_paragraph
                  (SmartPaginator.splitParagraphs (SmartPaginator.cleanText text)))
    by (apply Forall_forall; intros p; apply splitParagraphs_are_paragraphs).
  split; [|split].
  - intros i q Hq. rewrite nth_error_map in Hq.
    destruct (nth_error smart i) as [p|] eqn:Hp; [|discriminate].
    inversion Hq; subst q. rewrite length_map. exact (Hflags i p Hp).
  - rewrite map_map. cbn [content].
    replace (map (fun p => SmartPaginator.content p) smart)
      with (map (join (nl ++ nl)) (map SmartPaginator.paragraphs smart)).
    + rewrite join_concat.
      * rewrite Hcat. now apply splitParagraphs_join.
      * rewrite Forall_map. eapply Forall_impl; [|exact Hhold]. now intros p [_ Hp].
    + rewrite map_map. apply map_ext_Forall.
      eapply Forall_impl; [|exact Hhold]. now intros p [Hp _].
  - rewrite Forall_map. rewrite Forall_forall in *. intros p Hp. cbn [content].
    destruct (Hhold p Hp) as [Hcontent Hne]. rewrite Hcontent.
    destruct (SmartPaginator.paragraphs p) as [|a rest] eqn:Hpar; [contradiction|].
    assert (Ha : is_paragraph a).
    { apply Hps. rewrite <- Hcat. apply in_concat.
      exists (SmartPaginator.paragraphs p). split; [now apply in_map|].
      rewrite Hpar. now left. }
    destruct Ha as [_ Ha]. destruct a; [discriminate Ha|].
    destruct rest; reflexivity.
Qed.

End SmartPaginateMore.

Lemma smartPaginate_no_page_iff_blank_witness :
  SmartPaginator.smartPaginate noCSS silentBrowser blankText defaults = Returns []
  /\ SmartPaginator.smartPaginate noCSS rulerBrowser abcText defaults <> Returns [].
Proof.
  split.
  - apply (proj1 (smartPaginate_no_page_iff_blank noCSS silentBrowser blankText defaults)).
    reflexivity.
  - intros Hrun.
    apply (proj2 (smartPaginate_no_page_iff_blank noCSS rulerBrowser abcText defaults))
      in Hrun.
    discriminate Hrun.
Defined.

Lemma smartPaginate_page_count_witness :
  exists pages,
    SmartPaginator.smartPaginate noCSS rulerBrowser abcText defaults = Returns pages
    /\ Forall (fun p => SmartPaginator.paragraphs p <> []) pages
    /\ (List.length pages <= 3)%nat.
Proof.
  eassert (Hrun : SmartPaginator.smartPaginate noCSS rulerBrowser abcText defaults
                  = Returns _) by (vm_compute; reflexivity).
  eexists. split; [exact Hrun|].
  destruct (smartPaginate_page_count noCSS rulerBrowser abcText defaults _ Hrun)
    as (Hne & Hlen & _).
  split; [exact Hne|exact Hlen].
Defined.

Lemma smartPaginate_single_paragraph_witness :
  SmartPaginator.smartPaginate noCSS rulerBrowser (nl ++ lit "a " ++ nl) defaults
  = Returns [ {| SmartPaginator.content := lit "a";
                 SmartPaginator.pageNumber := 1;
                 SmartPaginator.isFirst := true;
                 SmartPaginator.isLast := true;
                 SmartPaginator.paragraphs := [lit "a"] |} ].
Proof.
  apply (smartPaginate_single_paragraph noCSS rulerBrowser (nl ++ lit "a " ++ nl)
           defaults (lit "a")).
  - reflexivity.
  - intros w h html el. destruct el; eexists; reflexivity.
Defined.

Lemma smartPaginate_everything_fits_witness :
  SmartPaginator.smartPaginate noCSS lengthBrowser abcText defaults
  = Returns [ {| SmartPaginator.content :=
                   lit "a" ++ nl ++ nl ++ lit "b" ++ nl ++ nl ++ lit "c";
                 SmartPaginator.pageNumber := 1;
                 SmartPaginator.isFirst := true;
                 SmartPaginator.isLast := true;
                 SmartPaginator.paragraphs := abc |} ].
Proof.
  refine (smartPaginate_everything_fits noCSS lengthBrowser abcText defaults _ _ _ _ _ _).
  - discriminate.
  - vm_compute. reflexivity.
  - vm_compute. reflexivity.
  - intros k Hk. change (len _) with 3%Z in Hk.
    assert (Hcases : k = 1%Z \/ k = 2%Z \/ k = 3%Z) by lia.
    destruct Hcases as [ -> | [ -> | -> ] ]; eexists; (split; [vm_compute; reflexivity|]);
      vm_compute; discriminate.
Defined.

Lemma smartPaginateCompat_keeps_pages_witness :
  exists pages,
    SmartPaginator.smartPaginateCompat noCSS rulerBrowser abcText defaults = Returns pages
    /\ well_flagged pages
    /\ SmartPaginator.splitParagraphs (join (nl ++ nl) (map content pages)) = abc.
Proof.
  eassert (Hrun : SmartPaginator.smartPaginateCompat noCSS rulerBrowser abcText defaults
                  = Returns _) by (vm_compute; reflexivity).
  eexists. split; [exact Hrun|].
  destruct (smartPaginateCompat_keeps_pages noCSS rulerBrowser abcText defaults _ Hrun)
    as (Hflags & Hsplit & _).
  split; [exact Hflags|exact Hsplit].
Defined.

(** ** [escapeHtml]: what escaping keeps *)

Section EscapeHtmlMore.

Lemma escapeChar_nonempty (c : N) : escapeChar c <> [].
Proof.
  unfold escapeChar.
  repeat match goal with
         | |- context [(c =? ?k)%N] => destruct (c =? k)%N; [discriminate|]
         end.
  discriminate.
Qed.

(** No output of one code unit is a prefix of the output of another. *)
Lemma escapeChar_prefix_free (c d : N) (r1 r2 : jsstring) :
  escapeChar c ++ r1 = escapeChar d ++ r2 -> c = d /\ r1 = r2.
Proof.
  unfold escapeChar.
  destruct (N.eqb_spec c 38) as [->|]; [|
  destruct (N.eqb_spec c 60) as [->|]; [|
  destruct (N.eqb_spec c 62) as [->|]; [|
  destruct (N.eqb_spec c 34) as [->|]; [|
  destruct (N.eqb_spec c 39) as [->|]]]]];
  (destruct (N.eqb_spec d 38) as [->|]; [|
   destruct (N.eqb_spec d 60) as [->|]; [|
   destruct (N.eqb_spec d 62) as [->|]; [|
   destruct (N.eqb_spec d 34) as [->|]; [|
   destruct (N.eqb_spec d 39) as [->|]]]]]);
  simpl; intros H; inversion H; subst; try (split; reflexivity); congruence.
Qed.

Lemma flat_map_escapeChar_injective (a b : jsstring) :
  flat_map escapeChar a = flat_map escapeChar b -> a = b.
Proof.
  revert b. induction a as [|c a IH]; intros [|d b] H; simpl in H.
  - reflexivity.
  - symmetry in H. apply app_eq_nil in H. now destruct (escapeChar_nonempty d).
  - apply app_eq_nil in H. now destruct (escapeChar_nonempty c).
  - apply escapeChar_prefix_free in H. destruct H as [-> H]. f_equal. now apply IH.
Qed.

(** X8. Escaping loses nothing: two texts with the same escaped form are
    the same text. *)
Theorem escapeHtml_injective (a b : jsstring) :
  Renderer.escapeHtml a = Renderer.escapeHtml b -> a = b.
Proof.
  rewrite !escapeHtml_per_char. apply flat_map_escapeChar_injective.
Qed.

Lemma escapeHtml_injective_witness :
  lit "<b>" = [60; 98; 62]%N.
Proof.
  apply (escapeHtml_injective (lit "<b>") [60; 98; 62]%N). reflexivity.
Defined.

Lemma escapeChar_length (c : N) : (1 <= List.length (escapeChar c))%nat.
Proof.
  unfold escapeChar.
  repeat match goal with
         | |- context [(c =? ?k)%N] => destruct (c =? k)%N; [simpl; lia|]
         end.
  simpl; lia.
Qed.

Lemma flat_map_escapeChar_plain (s : jsstring) :
  flat_map escapeChar s = s <-> forallb is_plain s = true.
Proof.
  induction s as [|c s IH]; simpl; [tauto|].
  rewrite andb_true_iff, <- IH. unfold is_plain.
  destruct (escapeChar_cases c) as [(E & H38 & H60 & H62 & H34 & H39)|He].
  - rewrite E. simpl.
    destruct (N.eqb_spec c 38); [contradiction|].
    destruct (N.eqb_spec c 60); [contradiction|].
    destruct (N.eqb_spec c 62); [contradiction|].
    destruct (N.eqb_spec c 34); [contradiction|].
    destruct (N.eqb_spec c 39); [contradiction|]. simpl.
    split; [intros H; injection H as H; now split | intros [_ ->]; reflexivity].
  - split.
    + intros H. exfalso.
      assert (Hlen : List.length (escapeChar c ++ flat_map escapeChar s)
                     = List.length (c :: s)) by now rewrite H.
      rewrite length_app in Hlen. simpl in Hlen.
      assert (Hs : (List.length s <= List.length (flat_map escapeChar s))%nat).
      { clear. induction s as [|x s IHs]; simpl; [lia|].
        rewrite length_app. pose proof (escapeChar_length x). lia. }
      destruct (entity_shape _ He) as (body & E & _).
      assert (2 <= List.length (escapeChar c))%nat; [|lia].
      revert He. unfold entities. simpl.
      intros [<-|[<-|[<-|[<-|[<-|[]]]]]]; simpl; lia.
    + intros [Hc _]. exfalso. revert He Hc. unfold escapeChar, entities.
      destruct (c =? 38)%N; [discriminate|].
      destruct (c =? 60)%N; [discriminate|].
      destruct (c =? 62)%N; [discriminate|].
      destruct (c =? 34)%N; [discriminate|].
      destruct (c =? 39)%N; [discriminate|].
      simpl. intros [H|[H|[H|[H|[H|[]]]]]]; discriminate H.
Qed.

(** X9. [escapeHtml] leaves a text as it is exactly when the text has
    none of the five special characters, and it is only on such texts
    that escaping twice gives what escaping once gives. *)
Theorem escapeHtml_fixes_plain_text (s : jsstring) :
  (Renderer.escapeHtml s = s <-> forallb is_plain s = true)
  /\ (Renderer.escapeHtml (Renderer.escapeHtml s) = Renderer.escapeHtml s
      <-> forallb is_plain s = true).
Proof.
  rewrite !escapeHtml_per_char. split; [apply flat_map_escapeChar_plain|].
  split.
  - intros H. apply flat_map_escapeChar_injective in H.
    now apply flat_map_escapeChar_plain.
  - intros H. apply flat_map_escapeChar_plain in H. now rewrite !H.
Qed.

(** X10. [escapeHtml] works piece by piece and never shortens: the
    escaped form of a concatenation is the concatenation of the escaped
    forms, and it has at least as many code units as the text. *)
Theorem escapeHtml_piecewise (a b : jsstring) :
  Renderer.escapeHtml (a ++ b) = Renderer.escapeHtml a ++ Renderer.escapeHtml b
  /\ (strlen a <= strlen (Renderer.escapeHtml a))%Z.
Proof.
  rewrite !escapeHtml_per_char. split; [apply flat_map_app|].
  unfold strlen. apply inj_le.
  induction a as [|x a IH]; simpl; [lia|].
  rewrite length_app. pose proof (escapeChar_length x). lia.
Qed.


End EscapeHtmlMore.

Lemma escapeHtml_fixes_plain_text_witness :
  Renderer.escapeHtml (lit "plain text") = lit "plain text"
  /\ forallb is_plain (lit "a<b") = false.
Proof.
  split.
  - apply (proj2 (proj1 (escapeHtml_fixes_plain_text (lit "plain text")))).
    reflexivity.
  - destruct (forallb is_plain (lit "a<b")) eqn:Hplain; [|reflexivity].
    apply (proj2 (proj1 (escapeHtml_fixes_plain_text (lit "a<b")))) in Hplain.
    discriminate Hplain.
Defined.

(** ** [autoPaginate]: the linear scan *)

Section AutoPaginate.

Variable loadThemeCSS : Theme -> jsstring.

Local Open Scope Z_scope.

Section AutoLoop.
Variable page : AutoPaginator.AutoTab.
Variable options : AutoPaginator.AutoPaginatorOptions.
Variable all : list jsstring.

Local Abbreviation scan := (AutoPaginator.scan loadThemeCSS page options all).
Local Abbreviation aloop := (AutoPaginator.paginate_loop loadThemeCSS page options all).
Local Abbreviation over := (overflowsAt loadThemeCSS page options all).

Lemma scan_first_overflow (fuel : nat) (s : Z) (b : bool) :
  forall i r,
    scan fuel s i i b = Returns r ->
    i <= len all ->
    i <= r <= len all
    /\ (forall j, i <= j < r -> over s b j = Returns false)
    /\ (r < len all -> over s b r = Returns true).
Proof.
  induction fuel as [|fuel IH]; intros i r Hrun Hi; simpl in Hrun;
    destruct (Z.ltb_spec i (len all)) as [Hlt|Hge]; try discriminate.
  - inversion Hrun; subst r. repeat split; lia.
  - destruct (page _) as [found| |] eqn:Hpage; simpl in Hrun; try discriminate.
    destruct (AutoPaginator.overflowsOf found) eqn:Hover.
    + inversion Hrun; subst r. split; [lia|]. split; [intros; lia|].
      intros _. unfold overflowsAt. rewrite Hpage. simpl. now rewrite Hover.
    + destruct (IH _ _ Hrun ltac:(lia)) as (Hr & Hbelow & Hat).
      split; [lia|]. split; [|exact Hat].
      intros j Hj. destruct (Z.eq_dec j i) as [->|]; [|apply Hbelow; lia].
      unfold overflowsAt. rewrite Hpage. simpl. now rewrite Hover.
  - inversion Hrun; subst r. repeat split; lia.
Qed.

Lemma scan_returns (fuel : nat) (s : Z) (b : bool) :
  (forall html, exists found, page html = Returns found) ->
  forall i e, (Z.to_nat (len all - i) <= fuel)%nat ->
              exists r, scan fuel s i e b = Returns r.
Proof.
  intros Hpage. induction fuel as [|fuel IH]; intros i e Hfuel; simpl;
    destruct (Z.ltb_spec i (len all)) as [Hlt|Hge]; eauto; try lia.
  destruct (Hpage (AutoPaginator.generateMeasureHTML loadThemeCSS
                     (slice all s (i + 1)) options
                     (b && match AutoPaginator.hasTitle options with
                           | Some t => t | None => false end)))
    as (found & ->).
  simpl. destruct (AutoPaginator.overflowsOf found); eauto. apply IH. lia.
Qed.

Lemma scan_fuel_suffices (fuel : nat) (s : Z) (b : bool) :
  (forall html, page html <> Diverges) ->
  forall i e, (Z.to_nat (len all - i) <= fuel)%nat ->
              scan fuel s i e b <> Diverges.
Proof.
  intros Hpage. induction fuel as [|fuel IH]; intros i e Hfuel; simpl;
    destruct (Z.ltb_spec i (len all)) as [Hlt|Hge]; try discriminate; try lia.
  destruct (page _) as [found| |] eqn:Hfound; simpl;
    [| discriminate | now apply Hpage in Hfound].
  destruct (AutoPaginator.overflowsOf found); [discriminate|]. apply IH. lia.
Qed.

Lemma scan_nothing_overflows (fuel : nat) (s : Z) (b : bool) :
  forall i,
    (forall j, i <= j < len all -> over s b j = Returns false) ->
    (Z.to_nat (len all - i) <= fuel)%nat ->
    i <= len all ->
    scan fuel s i i b = Returns (len all).
Proof.
  induction fuel as [|fuel IH]; intros i Hfit Hfuel Hi; simpl;
    destruct (Z.ltb_spec i (len all)) as [Hlt|Hge]; try lia;
    try (f_equal; lia).
  pose proof (Hfit i ltac:(lia)) as Hat. unfold overflowsAt in Hat.
  destruct (page _) as [found| |]; simpl in Hat; try discriminate.
  simpl. inversion Hat as [Hover]. rewrite Hover.
  apply IH; [intros; apply Hfit; lia | lia | lia].
Qed.

Lemma auto_loop_sound (fuel : nat) :
  forall pages s n result,
    0 <= s -> n = len pages ->
    (exists groups,
        List.concat groups = firstn (Z.to_nat s) all
        /\ Forall (fun g => g <> []) groups
        /\ map content pages = map (join (nl ++ nl)) groups) ->
    auto_flags all pages s ->
    aloop fuel pages s n = Returns result ->
    pages_partition all result /\ well_flagged result.
Proof.
  induction fuel as [|fuel IH]; intros pages s n result Hs Hn Hgroups Hflags Hrun;
    simpl in Hrun; destruct (Z.ltb_spec s (len all)) as [Hlt|Hge]; try discriminate.
  1, 3: inversion Hrun; subst result; destruct Hgroups as (groups & Hcat & Hne & Hmap);
    (split;
     [ exists groups; rewrite firstn_all2 in Hcat by (unfold len in Hge; lia); auto
     | intros i p Hp; destruct (Hflags i p Hp) as (? & ? & Hlast);
       cbn [number_of first_of last_of Page_PageLike];
       repeat split; auto; rewrite Hlast;
       destruct (Z.leb_spec (len all) s); [|lia]; now rewrite andb_true_r ]).
  destruct (AutoPaginator.scan _ _ _ _ _ _ _ _ _) as [r| |] eqn:Hscan;
      simpl in Hrun; try discriminate.
    apply scan_first_overflow in Hscan; [|lia]. destruct Hscan as (Hr & _).
    set (e := if r <=? s then s + 1 else r) in *.
    assert (He : s < e <= len all) by (unfold e; destruct (Z.leb_spec r s); lia).
    eapply IH; [ | | | | exact Hrun].
    + lia.
    + unfold len. rewrite length_app. simpl. unfold len in Hn. lia.
    + destruct Hgroups as (groups & Hcat & Hne & Hmap).
      exists (groups ++ [slice all s e]). split; [|split].
      * rewrite concat_app, Hcat. simpl. rewrite app_nil_r.
        replace e with (s + (e - s)) by lia. apply slice_extends_prefix; lia.
      * apply Forall_app. split; [exact Hne|]. constructor; [|constructor].
        replace e with (s + (e - s)) by lia. apply slice_nonempty; lia.
      * rewrite !map_app, Hmap. reflexivity.
    + intros i p Hp. rewrite length_app. simpl List.length.
      destruct (Nat.lt_ge_cases i (List.length pages)) as [Hi|Hi].
      * rewrite nth_error_app1 in Hp by assumption.
        destruct (Hflags i p Hp) as (? & ? & Hlast). repeat split; auto.
        rewrite Hlast. destruct (Z.leb_spec (len all) s); [lia|].
        rewrite andb_false_r.
        destruct (Nat.eqb_spec (S i) (List.length pages + 1)); [lia|reflexivity].
      * rewrite nth_error_app2 in Hp by assumption.
        destruct (i - List.length pages)%nat as [|k] eqn:Hk;
          [|destruct k; discriminate Hp].
        inversion Hp; subst p. cbn [pageNumber isFirst isLast].
        assert (i = List.length pages) by lia. subst i. unfold len in Hn. subst n.
        repeat split.
        -- destruct (Z.eqb_spec (Z.of_nat (List.length pages) + 1) 1);
             destruct (Nat.eqb_spec (List.length pages) 0); (reflexivity || lia).
        -- destruct (Nat.eqb_spec (S (List.length pages)) (List.length pages + 1));
             [reflexivity|lia].
Qed.

Lemma auto_loop_returns (fuel : nat) :
  (forall html, exists found, page html = Returns found) ->
  forall pages s n,
    (Z.to_nat (len all - s) <= fuel)%nat ->
    exists result, aloop fuel pages s n = Returns result.
Proof.
  intros Hpage. induction fuel as [|fuel IH]; intros pages s n Hfuel; simpl;
    destruct (Z.ltb_spec s (len all)) as [Hlt|Hge]; eauto; try lia.
  destruct (scan_returns (Z.to_nat (len all - s)) s (n + 1 =? 1) Hpage s s (Nat.le_refl _))
    as (r & Hr).
  rewrite Hr. simpl. apply IH. destruct (Z.leb_spec r s); [lia|].
  apply scan_first_overflow in Hr; lia.
Qed.

Lemma auto_loop_fuel_suffices (fuel : nat) :
  (forall html, page html <> Diverges) ->
  forall pages s n,
    (Z.to_nat (len all - s) <= fuel)%nat ->
    aloop fuel pages s n <> Diverges.
Proof.
  intros Hpage. induction fuel as [|fuel IH]; intros pages s n Hfuel; simpl;
    destruct (Z.ltb_spec s (len all)) as [Hlt|Hge]; try discriminate; try lia.
  destruct (AutoPaginator.scan _ _ _ _ _ _ _ _ _) as [r| |] eqn:Hscan; simpl;
    [| discriminate | now apply scan_fuel_suffices in Hscan].
  apply IH. destruct (Z.leb_spec r s); [lia|].
  apply scan_first_overflow in Hscan; lia.
Qed.

(** When every paragraph overflows already alone, each gets a page. *)
Lemma auto_loop_all_overflow (fuel : nat) :
  (forall s, 0 <= s < len all -> over s (s =? 0) s = Returns true) ->
  forall pages s,
    0 <= s ->
    (Z.to_nat (len all - s) <= fuel)%nat ->
    exists result,
      aloop fuel pages s s = Returns result
      /\ map content result = map content pages ++ skipn (Z.to_nat s) all.
Proof.
  intros Hover. induction fuel as [|fuel IH]; intros pages s Hs Hfuel; simpl;
    destruct (Z.ltb_spec s (len all)) as [Hlt|Hge]; try lia.
  - exists pages. split; [reflexivity|].
    rewrite skipn_all2 by (unfold len in Hge; lia). now rewrite app_nil_r.
  - assert (Hscan : scan (Z.to_nat (len all - s)) s s s (s + 1 =? 1) = Returns s).
    { destruct (Z.to_nat (len all - s)) eqn:Hn; [lia|]. simpl.
      destruct (Z.ltb_spec s (len all)); [|lia].
      pose proof (Hover s ltac:(lia)) as Hat. unfold overflowsAt in Hat.
      replace (s + 1 =? 1) with (s =? 0)
        by (destruct (Z.eqb_spec s 0); destruct (Z.eqb_spec (s + 1) 1); (reflexivity || lia)).
      destruct (page _) as [found| |]; simpl in Hat; try discriminate.
      simpl. inversion Hat as [Hfound]. now rewrite Hfound. }
    rewrite Hscan. simpl. rewrite Z.leb_refl.
    destruct (IH (pages ++
                    [ {| content := join (nl ++ nl) (slice all s (s + 1));
                         pageNumber := s + 1;
                         isFirst := (s + 1 =? 1);
                         isLast := (len all <=? s + 1) |} ]) (s + 1))
      as (result & Hrun & Hmap); [lia | lia |].
    exists result. split; [exact Hrun|]. rewrite Hmap, map_app, <- app_assoc.
    f_equal. cbn [map content app].
    rewrite slice_window by lia.
    replace (Z.to_nat (s + 1)) with (S (Z.to_nat s)) by lia.
    assert (Hlen : (Z.to_nat s < List.length all)%nat) by (unfold len in Hlt; lia).
    revert Hlen. generalize (Z.to_nat s). clear. intros n.
    revert all. induction n as [|n IHn]; intros [|x l] Hlen; simpl in *; try lia.
    + reflexivity.
    + apply IHn. lia.
  - exists pages. split; [reflexivity|].
    rewrite skipn_all2 by (unfold len in Hge; lia). now rewrite app_nil_r.
Qed.

(** X15. The scan of one page stops at the first overflow: every try
    before the index it returns was reported to fit, and unless that index
    is the end of the paragraphs the try at it was reported to overflow. *)
Theorem scan_stops_at_first_overflow (startIdx endIdx : Z) (isFirstPage : bool) :
  0 <= startIdx <= len all ->
  AutoPaginator.scan loadThemeCSS page options all
    (Z.to_nat (len all - startIdx)) startIdx startIdx startIdx isFirstPage
  = Returns endIdx ->
  startIdx <= endIdx <= len all
  /\ (forall i, startIdx <= i < endIdx ->
                overflowsAt loadThemeCSS page options all startIdx isFirstPage i
                = Returns false)
  /\ (endIdx < len all ->
      overflowsAt loadThemeCSS page options all startIdx isFirstPage endIdx
      = Returns true).
Proof.
  intros Hstart Hrun. apply scan_first_overflow in Hrun; [exact Hrun|lia].
Qed.

End AutoLoop.

Lemma autoPaginate_sound browser text options pages :
  AutoPaginator.autoPaginate loadThemeCSS browser text options = Returns pages ->
  pages_partition (AutoPaginator.splitParagraphs (AutoPaginator.cleanText text)) pages
  /\ well_flagged pages.
Proof.
  unfold AutoPaginator.autoPaginate.
  set (all := AutoPaginator.splitParagraphs (AutoPaginator.cleanText text)).
  destruct (List.length all =? 0)%nat eqn:Hempty.
  - intros E; inversion E. apply Nat.eqb_eq in Hempty.
    destruct all; [|discriminate]. split.
    + exists []. repeat split; constructor.
    + intros [|i] p Hp; discriminate.
  - apply auto_loop_sound; [lia | reflexivity | |].
    + exists []. repeat split; constructor.
    + intros [|i] p Hp; discriminate.
Qed.

(** X12. The pages of a completed [autoPaginate] are the joins of
    consecutive non-empty groups of the paragraphs of the cleaned text, in
    order, none lost or repeated; they are numbered from 1, the first and
    only the first is flagged first, the last and only the last is flagged
    last; and their texts joined by blank lines split back into the
    paragraphs. *)
Theorem autoPaginate_partitions_paragraphs browser text options pages :
  AutoPaginator.autoPaginate loadThemeCSS browser text options = Returns pages ->
  pages_partition (AutoPaginator.splitParagraphs (AutoPaginator.cleanText text)) pages
  /\ well_flagged pages
  /\ AutoPaginator.splitParagraphs (join (nl ++ nl) (map content pages))
     = AutoPaginator.splitParagraphs (AutoPaginator.cleanText text).
Proof.
  intros Hrun. apply autoPaginate_sound in Hrun. destruct Hrun as [Hpart Hflags].
  split; [exact Hpart|]. split; [exact Hflags|].
  destruct Hpart as (groups & Hcat & Hne & Hmap).
  rewrite Hmap, join_concat by exact Hne. rewrite Hcat.
  apply splitParagraphs_join. apply Forall_forall. intros p.
  apply splitParagraphs_are_paragraphs.
Qed.

(** X13. With a tab that settles every call, [autoPaginate] returns
    pages; and whatever the tab answers, short of hanging, the loops end
    on their own. *)
Theorem autoPaginate_returns browser text options :
  ((forall w h html, exists found, browser w h html = Returns found) ->
   exists pages,
     AutoPaginator.autoPaginate loadThemeCSS browser text options = Returns pages)
  /\ ((forall w h html, browser w h html <> Diverges) ->
      AutoPaginator.autoPaginate loadThemeCSS browser text options <> Diverges).
Proof.
  unfold AutoPaginator.autoPaginate. split; intros Hbrowser;
    destruct (List.length _ =? 0)%nat; eauto; try discriminate.
  - apply auto_loop_returns; [apply Hbrowser | unfold len; lia].
  - apply auto_loop_fuel_suffices; [apply Hbrowser | unfold len; lia].
Qed.

(** X14. [autoPaginate] returns no page exactly for a text that is white
    space only, and then without opening a tab. *)
Theorem autoPaginate_no_page_iff_blank browser text options :
  (forallb is_space text = true ->
   AutoPaginator.autoPaginate loadThemeCSS browser text options = Returns [])
  /\ (AutoPaginator.autoPaginate loadThemeCSS browser text options = Returns [] ->
      forallb is_space text = true).
Proof.
  split.
  - intros Hblank. apply no_paragraph_iff_blank in Hblank.
    unfold AutoPaginator.autoPaginate.
    change (AutoPaginator.splitParagraphs (AutoPaginator.cleanText text))
      with (SmartPaginator.splitParagraphs (SmartPaginator.cleanText text)).
    now rewrite Hblank.
  - intros Hrun. apply autoPaginate_sound in Hrun.
    destruct Hrun as [(groups & Hcat & _ & Hmap) _].
    apply no_paragraph_iff_blank.
    destruct groups; [|discriminate Hmap]. symmetry. exact Hcat.
Qed.

(** X16. When the tab reports an overflow for every paragraph tried
    alone, as it does when the measuring frame is missing, each paragraph
    gets a page of its own. *)
Theorem autoPaginate_all_overflow browser text options :
  let all := AutoPaginator.splitParagraphs (AutoPaginator.cleanText text) in
  let dimensions := DIMENSIONS match AutoPaginator.ratio options with
                               | Some r => r | None => ratio_3_4 end in
  let page := browser (width dimensions) (height dimensions) in
  (forall s, 0 <= s < len all ->
             overflowsAt loadThemeCSS page options all s (s =? 0) s = Returns true) ->
  exists pages,
    AutoPaginator.autoPaginate loadThemeCSS browser text options = Returns pages
    /\ map content pages = all.
Proof.
  intros all dimensions page Hover. unfold AutoPaginator.autoPaginate. fold all.
  destruct (List.length all =? 0)%nat eqn:Hempty.
  - apply Nat.eqb_eq in Hempty. exists []. split; [reflexivity|].
    destruct all; [reflexivity|discriminate].
  - destruct (auto_loop_all_overflow page options all (List.length all) Hover [] 0)
      as (result & Hrun & Hmap); [lia | unfold len; lia |].
    exists result. split; [exact Hrun | exact Hmap].
Qed.

(** X17. When the tab reports no overflow for any prefix of the
    paragraphs, the whole text is one page, first and last at once. *)
Theorem autoPaginate_nothing_overflows browser text options :
  let all := AutoPaginator.splitParagraphs (AutoPaginator.cleanText text) in
  let dimensions := DIMENSIONS match AutoPaginator.ratio options with
                               | Some r => r | None => ratio_3_4 end in
  let page := browser (width dimensions) (height dimensions) in
  all <> [] ->
  (forall i, 0 <= i < len all ->
             overflowsAt loadThemeCSS page options all 0 true i = Returns false) ->
  AutoPaginator.autoPaginate loadThemeCSS browser text options
  = Returns [ {| content := join (nl ++ nl) all; pageNumber := 1;
                 isFirst := true; isLast := true |} ].
Proof.
  intros all dimensions page Hne Hfit. unfold AutoPaginator.autoPaginate. fold all.
  destruct all as [|a rest] eqn:Hall; [contradiction|]. rewrite <- Hall in *.
  replace (List.length all) with (S (List.length rest)) by now rewrite Hall.
  cbn [Nat.eqb AutoPaginator.paginate_loop].
  assert (Hpos : 0 < len all) by (rewrite Hall; unfold len; simpl; lia).
  destruct (Z.ltb_spec 0 (len all)); [|lia].
  change (0 + 1 =? 1) with true.
  rewrite (scan_nothing_overflows page options all _ 0 true 0 Hfit); [|lia|lia].
  cbn [bind]. destruct (Z.leb_spec (len all) 0); [lia|].
  change (slice all 0 (len all)) with (slice all 0 (0 + len all)).
  rewrite (slice_window all 0 (len all)) by lia.
  cbn [Z.to_nat skipn app]. unfold len at 1. rewrite Nat2Z.id, firstn_all.
  rewrite Z.leb_refl.
  destruct (List.length rest); cbn [AutoPaginator.paginate_loop];
    rewrite Z.ltb_irrefl; reflexivity.
Qed.

End AutoPaginate.

Lemma autoPaginate_partitions_paragraphs_witness :
  exists pages,
    AutoPaginator.autoPaginate noCSS (stripBrowser 790) abcText autoDefaults
    = Returns pages
    /\ pages_partition abc pages
    /\ well_flagged pages
    /\ List.length pages = 2%nat.
Proof.
  eassert (Hrun : AutoPaginator.autoPaginate noCSS (stripBrowser 790) abcText autoDefaults
                  = Returns _) by (vm_compute; reflexivity).
  eexists. split; [exact Hrun|].
  destruct (autoPaginate_partitions_paragraphs noCSS (stripBrowser 790) abcText
              autoDefaults _ Hrun) as (Hpart & Hflags & _).
  split; [exact Hpart|]. split; [exact Hflags|reflexivity].
Defined.

Lemma autoPaginate_returns_witness :
  exists pages,
    AutoPaginator.autoPaginate noCSS (stripBrowser 790) abcText autoDefaults
    = Returns pages.
Proof.
  apply (proj1 (autoPaginate_returns noCSS (stripBrowser 790) abcText autoDefaults)).
  intros w h html. eexists. reflexivity.
Defined.

Lemma autoPaginate_no_page_iff_blank_witness :
  AutoPaginator.autoPaginate noCSS (fun _ _ _ => Throws) blankText autoDefaults
  = Returns []
  /\ AutoPaginator.autoPaginate noCSS framelessBrowser abcText autoDefaults
     <> Returns [].
Proof.
  split.
  - apply (proj1 (autoPaginate_no_page_iff_blank noCSS (fun _ _ _ => Throws)
                    blankText autoDefaults)).
    reflexivity.
  - intros Hrun.
    apply (proj2 (autoPaginate_no_page_iff_blank noCSS framelessBrowser abcText
                    autoDefaults)) in Hrun.
    discriminate Hrun.
Defined.

Lemma scan_stops_at_first_overflow_witness :
  overflowsAt noCSS (stripBrowser 790 1080%Z 1440%Z) autoDefaults abc 0 true 1
  = Returns false
  /\ overflowsAt noCSS (stripBrowser 790 1080%Z 1440%Z) autoDefaults abc 0 true 2
     = Returns true.
Proof.
  destruct (scan_stops_at_first_overflow noCSS (stripBrowser 790 1080%Z 1440%Z)
              autoDefaults abc 0 2 true) as (_ & Hbelow & Hat).
  - vm_compute. split; discriminate.
  - vm_compute. reflexivity.
  - split; [apply Hbelow; lia | apply Hat; vm_compute; reflexivity].
Defined.

Lemma autoPaginate_all_overflow_witness :
  exists pages,
    AutoPaginator.autoPaginate noCSS framelessBrowser abcText autoDefaults
    = Returns pages
    /\ map content pages = abc.
Proof.
  apply (autoPaginate_all_overflow noCSS framelessBrowser abcText autoDefaults).
  intros s Hs. reflexivity.
Defined.

Lemma autoPaginate_nothing_overflows_witness :
  AutoPaginator.autoPaginate noCSS (stripBrowser 1000) abcText autoDefaults
  = Returns [ {| content := lit "a" ++ nl ++ nl ++ lit "b" ++ nl ++ nl ++ lit "c";
                 pageNumber := 1; isFirst := true; isLast := true |} ].
Proof.
  refine (autoPaginate_nothing_overflows noCSS (stripBrowser 1000) abcText
            autoDefaults _ _).
  - discriminate.
  - intros i Hi. change (len _) with 3%Z in Hi.
    assert (Hcases : i = 0%Z \/ i = 1%Z \/ i = 2%Z) by lia.
    destruct Hcases as [ -> | [ -> | -> ] ]; vm_compute; reflexivity.
Defined.

(** ** The sentence splitter of the automatic paginator *)

Lemma collectTrimmed_trims (parts : list jsstring) :
  AutoPaginator.collectTrimmed parts = map trim (Paginator.collectSentences parts).
Proof.
  induction parts as [|piece|piece run rest IH] using parts_pair_ind.
  - reflexivity.
  - cbn [AutoPaginator.collectTrimmed Paginator.collectSentences].
    destruct (truthy (trim (piece ++ []))); reflexivity.
  - cbn [AutoPaginator.collectTrimmed Paginator.collectSentences].
    rewrite map_app, IH.
    destruct (truthy (trim (piece ++ (if truthy run then run else []))));
      reflexivity.
Qed.

(** X18. The automatic paginator's [splitIntoSentences] never returns an
    empty array: it returns the sentences of the paginator's splitter,
    each trimmed, and the text itself as the only entry when there is no
    sentence. *)
Theorem auto_splitIntoSentences_never_empty (text : jsstring) :
  AutoPaginator.splitIntoSentences text <> []
  /\ (Paginator.splitIntoSentences text <> [] ->
      AutoPaginator.splitIntoSentences text
      = map trim (Paginator.splitIntoSentences text))
  /\ (Paginator.splitIntoSentences text = [] ->
      AutoPaginator.splitIntoSentences text = [text]).
Proof.
  unfold AutoPaginator.splitIntoSentences, Paginator.splitIntoSentences.
  rewrite collectTrimmed_trims.
  destruct (Paginator.collectSentences (Paginator.splitEnders text)) as [|s rest].
  - split; [discriminate|]. split; [contradiction | reflexivity].
  - assert (Hpos : (len (map trim (s :: rest)) >? 0)%Z = true).
    { unfold len. simpl List.length. apply Z.gtb_lt. lia. }
    rewrite Hpos. split; [discriminate|]. split; [intros _; reflexivity | discriminate].
Qed.

Lemma auto_splitIntoSentences_never_empty_witness :
  AutoPaginator.splitIntoSentences (lit " Hi!  Go. ") = [lit "Hi!"; lit "Go."]
  /\ AutoPaginator.splitIntoSentences (lit "  ") = [lit "  "].
Proof.
  split.
  - apply (proj1 (proj2 (auto_splitIntoSentences_never_empty (lit " Hi!  Go. ")))).
    discriminate.
  - apply (proj2 (proj2 (auto_splitIntoSentences_never_empty (lit "  ")))).
    reflexivity.
Defined.

(** ** [paginateText]: nothing lost, nothing empty *)

Section PaginateTextCoverage.

Import Paginator.

Variables firstPageMaxChars maxChars : Z.

Local Abbreviation flushIfOverT := (Paginator.flushIfOverT firstPageMaxChars maxChars).
Local Abbreviation addSentenceT := (Paginator.addSentenceT firstPageMaxChars maxChars).
Local Abbreviation addParagraphT := (Paginator.addParagraphT firstPageMaxChars maxChars).

Lemma flushIfOverT_allUnits (n : Z) (t : Traced) :
  allUnits (flushIfOverT n t) = allUnits t.
Proof.
  unfold Paginator.flushIfOverT, allUnits. destruct (_ && _)%bool; [|reflexivity].
  cbn [emitted currentUnits]. rewrite concat_app. simpl.
  now rewrite !app_nil_r.
Qed.

Lemma addSentenceT_allUnits (paragraph : jsstring) (t : Traced) (s : jsstring) :
  allUnits (addSentenceT paragraph t s) = allUnits t ++ [Sentence paragraph s].
Proof.
  rewrite <- (flushIfOverT_allUnits (strlen s) t).
  unfold Paginator.addSentenceT, allUnits. cbn [emitted currentUnits].
  now rewrite app_assoc.
Qed.

Lemma fold_addSentenceT_allUnits (paragraph : jsstring) (sentences : list jsstring) :
  forall t,
    allUnits (fold_left (addSentenceT paragraph) sentences t)
    = allUnits t ++ map (Sentence paragraph) sentences.
Proof.
  induction sentences as [|s sentences IH]; intros t; cbn [fold_left map].
  - now rewrite app_nil_r.
  - rewrite IH, addSentenceT_allUnits, <- app_assoc. reflexivity.
Qed.

Lemma addParagraphT_allUnits (t : Traced) (raw : jsstring) :
  exists block,
    block_of raw block /\ allUnits (addParagraphT t raw) = allUnits t ++ block.
Proof.
  unfold Paginator.addParagraphT. destruct (_ >? _)%Z.
  - eexists. split; [right; reflexivity|].
    now rewrite fold_addSentenceT_allUnits, flushIfOverT_allUnits.
  - eexists. split; [left; reflexivity|].
    rewrite <- (flushIfOverT_allUnits (strlen (trim raw)) t).
    unfold allUnits. cbn [emitted currentUnits]. now rewrite app_assoc.
Qed.

Lemma fold_addParagraphT_allUnits (paragraphs : list jsstring) :
  forall t,
    exists blocks,
      Forall2 block_of paragraphs blocks
      /\ allUnits (fold_left addParagraphT paragraphs t)
         = allUnits t ++ List.concat blocks.
Proof.
  induction paragraphs as [|p paragraphs IH]; intros t; simpl.
  - exists []. split; [constructor | now rewrite app_nil_r].
  - destruct (addParagraphT_allUnits t p) as (block & Hblock & Hstep).
    destruct (IH (addParagraphT t p)) as (blocks & Hblocks & Hrest).
    exists (block :: blocks). split; [now constructor|].
    rewrite Hrest, Hstep, <- app_assoc. reflexivity.
Qed.

(** A paragraph that is not white space only has a sentence. *)
Lemma splitIntoSentences_nonblank (text : jsstring) :
  truthy (trim text) = true -> splitIntoSentences text <> [].
Proof.
  intros Htext Hnone.
  destruct (splitEnders_shape text) as [Halt Hcat].
  destruct (collectSentences_spec (splitEnders text) false Halt)
    as (_ & _ & _ & (tail & Htail & Hblank & _) & _).
  unfold splitIntoSentences in Hnone. rewrite Hnone, Hcat in Htail.
  simpl in Htail. subst tail. congruence.
Qed.

Lemma block_of_nonblank (raw : jsstring) (block : list TextUnit) :
  truthy (trim raw) = true -> block_of raw block ->
  block <> [] /\ Forall unit_nonblank block.
Proof.
  intros Hraw Hblock.
  assert (Htrim : truthy (trim (trim raw)) = true).
  { rewrite truthy_trim, trim_blankness, <- truthy_trim. exact Hraw. }
  destruct Hblock as [->| ->].
  - split; [discriminate|]. constructor; [|constructor].
    unfold unit_nonblank. cbn [unitText].
    rewrite truthy_trim, forallb_app. rewrite truthy_trim in Htrim.
    apply negb_true_iff in Htrim. rewrite Htrim. reflexivity.
  - split.
    + pose proof (splitIntoSentences_nonblank (trim raw) Htrim) as Hne.
      destruct (splitIntoSentences (trim raw)); [contradiction|discriminate].
    + rewrite Forall_map. apply Forall_forall. intros s Hs.
      apply splitIntoSentences_sentences in Hs.
      destruct Hs as [(_ & _ & _ & _ & _ & Hkeep) _]. exact Hkeep.
Qed.

Lemma blocks_nonblank (paragraphs : list jsstring) (blocks : list (list TextUnit)) :
  Forall (fun p => truthy (trim p) = true) paragraphs ->
  Forall2 block_of paragraphs blocks ->
  Forall unit_nonblank (List.concat blocks)
  /\ (paragraphs <> [] -> List.concat blocks <> []).
Proof.
  intros Hps Hblocks. induction Hblocks as [|p block ps blocks Hblock _ IH].
  - split; [constructor | contradiction].
  - inversion Hps as [|? ? Hp Hrest]; subst.
    destruct (block_of_nonblank p block Hp Hblock) as [Hne Hall].
    destruct (IH Hrest) as [Hunits _]. simpl. split.
    + apply Forall_app. now split.
    + intros _. destruct block; [contradiction|discriminate].
Qed.

Lemma textOf_nonblank (units : list TextUnit) :
  units <> [] -> Forall unit_nonblank units -> truthy (trim (textOf units)) = true.
Proof.
  intros Hne Hall. destruct units as [|u units]; [contradiction|].
  inversion Hall as [|? ? Hu _]; subst. unfold unit_nonblank in Hu.
  unfold textOf. simpl. rewrite truthy_trim, forallb_app.
  rewrite truthy_trim in Hu. apply negb_true_iff in Hu. now rewrite Hu.
Qed.

(** The units of the finished trace are the blocks of the paragraphs. *)
Lemma tracePages_blocks (paragraphs : list jsstring) :
  Forall (fun p => truthy (trim p) = true) paragraphs ->
  exists blocks,
    Forall2 block_of paragraphs blocks
    /\ List.concat (tracePages firstPageMaxChars maxChars paragraphs)
       = List.concat blocks.
Proof.
  intros Hps. unfold tracePages, finishT.
  destruct (fold_addParagraphT_allUnits paragraphs initialT) as (blocks & Hblocks & Hall).
  pose proof (fold_addParagraphT_invariant firstPageMaxChars maxChars paragraphs
                initialT (initialT_invariant firstPageMaxChars maxChars))
    as (_ & _ & Hcontent & _).
  exists blocks. split; [exact Hblocks|].
  set (t := fold_left addParagraphT paragraphs initialT) in *.
  change (allUnits initialT) with (@nil TextUnit) in Hall. simpl in Hall.
  rewrite <- Hall. unfold allUnits.
  destruct (truthy (trim (currentPageContent (state t)))) eqn:Hlast.
  - rewrite concat_app. simpl. now rewrite app_nil_r.
  - destruct (currentUnits t) as [|u units] eqn:Hcur; [now rewrite app_nil_r|].
    exfalso. rewrite Hcontent in Hlast.
    rewrite textOf_nonblank in Hlast; [discriminate | discriminate |].
    destruct (blocks_nonblank paragraphs blocks Hps Hblocks) as [Hunits _].
    rewrite <- Hall in Hunits. unfold allUnits in Hunits. rewrite Hcur in Hunits.
    apply Forall_app in Hunits. apply Hunits.
Qed.

Lemma paginateFrom_contents (paragraphs : list jsstring) :
  map content (paginateFrom firstPageMaxChars maxChars paragraphs)
  = map (fun units => trim (textOf units))
      (tracePages firstPageMaxChars maxChars paragraphs).
Proof.
  destruct (paginateFrom_within_limits firstPageMaxChars maxChars paragraphs)
    as [Hlen Hpages].
  cbv zeta in Hlen, Hpages.
  assert (Htext : forall i page units,
             nth_error (paginateFrom firstPageMaxChars maxChars paragraphs) i = Some page ->
             nth_error (tracePages firstPageMaxChars maxChars paragraphs) i = Some units ->
             content page = trim (textOf units))
    by (intros i page units Hp Hu; apply (Hpages i page units Hp Hu)).
  clear Hpages. revert Hlen Htext.
  generalize (paginateFrom firstPageMaxChars maxChars paragraphs).
  generalize (tracePages firstPageMaxChars maxChars paragraphs).
  intros trace pages. revert pages.
  induction trace as [|units trace IH]; intros [|page pages] Hlen Htext;
    try discriminate; [reflexivity|].
  simpl. f_equal.
  - exact (Htext 0%nat page units eq_refl eq_refl).
  - apply IH; [simpl in Hlen; lia|].
    intros i p us Hp Hus. exact (Htext (S i) p us Hp Hus).
Qed.

Lemma paginateFrom_nonblank_pages (paragraphs : list jsstring) :
  Forall (fun p => truthy (trim p) = true) paragraphs ->
  Forall (fun page => truthy (content page) = true)
    (paginateFrom firstPageMaxChars maxChars paragraphs)
  /\ (paragraphs <> [] -> paginateFrom firstPageMaxChars maxChars paragraphs <> []).
Proof.
  intros Hps.
  destruct (tracePages_blocks paragraphs Hps) as (blocks & Hblocks & Hcat).
  destruct (blocks_nonblank paragraphs blocks Hps Hblocks) as [Hunits Hsome].
  destruct (paginateFrom_within_limits firstPageMaxChars maxChars paragraphs)
    as [Hlen Hpages].
  cbv zeta in Hlen, Hpages. split.
  - apply Forall_forall. intros page Hin.
    destruct (In_nth_error _ _ Hin) as (i & Hpage).
    destruct (nth_error (tracePages firstPageMaxChars maxChars paragraphs) i)
      as [units|] eqn:Htrace.
    + destruct (Hpages i page units Hpage Htrace) as (Hne & _ & ->).
      apply textOf_nonblank; [exact Hne|].
      rewrite <- Hcat in Hunits. rewrite Forall_forall in *.
      intros u Hu. apply Hunits. apply in_concat. exists units.
      split; [eapply nth_error_In; eassumption | exact Hu].
    + apply nth_error_None in Htrace.
      assert (i < List.length (paginateFrom firstPageMaxChars maxChars paragraphs))%nat
        by (apply nth_error_Some; congruence).
      lia.
  - intros Hne Hnone. rewrite Hnone in Hlen. simpl in Hlen.
    apply length_zero_iff_nil in Hlen. rewrite Hlen in Hcat. simpl in Hcat.
    now apply Hsome.
Qed.

End PaginateTextCoverage.

Lemma paginator_paragraphs_nonblank (text : jsstring) :
  Forall (fun p => truthy (trim p) = true)
    (Paginator.splitParagraphs (Paginator.cleanText text)).
Proof.
  apply Forall_forall. intros p Hp.
  unfold Paginator.splitParagraphs in Hp. apply filter_In in Hp. apply Hp.
Qed.

(** X19. [paginateText] returns no page exactly for a text that is white
    space only. *)
Theorem paginateText_no_page_iff_blank adjustCharsForLanguage text options :
  Paginator.paginateText adjustCharsForLanguage text options = []
  <-> forallb is_space text = true.
Proof.
  unfold Paginator.paginateText. split.
  - intros Hnone. apply no_paragraph_iff_blank.
    destruct (SmartPaginator.splitParagraphs (SmartPaginator.cleanText text))
      as [|p ps] eqn:Hps; [reflexivity|]. exfalso.
    refine (proj2 (paginateFrom_nonblank_pages _ _ _
                     (paginator_paragraphs_nonblank text)) _ Hnone).
    change (Paginator.splitParagraphs (Paginator.cleanText text))
      with (SmartPaginator.splitParagraphs (SmartPaginator.cleanText text)).
    rewrite Hps. discriminate.
  - intros Hblank. apply no_paragraph_iff_blank in Hblank.
    change (Paginator.splitParagraphs (Paginator.cleanText text))
      with (SmartPaginator.splitParagraphs (SmartPaginator.cleanText text)).
    now rewrite Hblank.
Qed.

(** X20. No page of [paginateText] is empty: the text of every page has
    at least one character. *)
Theorem paginateText_no_empty_page adjustCharsForLanguage text options :
  Forall (fun page => truthy (content page) = true)
    (Paginator.paginateText adjustCharsForLanguage text options).
Proof.
  unfold Paginator.paginateText.
  apply paginateFrom_nonblank_pages, paginator_paragraphs_nonblank.
Qed.

(** X21. [paginateText] loses and repeats nothing: the units its pages
    were built from, read in page order, are the paragraphs of the cleaned
    text in order, each either whole and trimmed or as all the sentences
    [splitIntoSentences] returns for it; and the text of each page is its
    units put together and trimmed. *)
Theorem paginateText_covers_every_paragraph adjustCharsForLanguage text options :
  let firstPageMaxChars :=
    Paginator.firstPageMaxCharsOf adjustCharsForLanguage text options in
  let maxChars := Paginator.maxCharsOf adjustCharsForLanguage text options in
  let paragraphs := Paginator.splitParagraphs (Paginator.cleanText text) in
  let trace := Paginator.tracePages firstPageMaxChars maxChars paragraphs in
  map content (Paginator.paginateText adjustCharsForLanguage text options)
  = map (fun units => trim (textOf units)) trace
  /\ exists blocks,
       Forall2 block_of paragraphs blocks
       /\ List.concat trace = List.concat blocks.
Proof.
  intros firstPageMaxChars maxChars paragraphs trace. split.
  - apply paginateFrom_contents.
  - apply tracePages_blocks, paginator_paragraphs_nonblank.
Qed.

(** ** [paginateText]: a text that fits one page *)

Section TrimEdges.

Lemma trimStart_skips_blank (w s : jsstring) :
  forallb is_space w = true -> trimStart (w ++ s) = trimStart s.
Proof.
  induction w as [|c w IH]; [reflexivity|]. simpl.
  intros H. apply andb_true_iff in H. destruct H as [-> Hw]. now apply IH.
Qed.

Lemma trimStart_head (s : jsstring) (c : N) (r : jsstring) :
  trimStart s = c :: r -> is_space c = false.
Proof.
  induction s as [|x s IH]; [discriminate|]. simpl.
  destruct (is_space x) eqn:Hx; [exact IH|].
  intros E. inversion E; subst. exact Hx.
Qed.

Lemma trimStart_snoc (l : jsstring) (c : N) :
  is_space c = false -> trimStart (l ++ [c]) = trimStart l ++ [c].
Proof.
  intros Hc. induction l as [|x l IH]; simpl.
  - now rewrite Hc.
  - destruct (is_space x); [exact IH | reflexivity].
Qed.

(** A trimmed text that is not empty starts and ends with a code unit
    that is not white space. *)
Lemma trim_edges (s : jsstring) :
  trim s <> [] ->
  exists c r d q,
    trim s = c :: r /\ is_space c = false
    /\ rev (trim s) = d :: q /\ is_space d = false.
Proof.
  unfold trim, trimEnd. intros Hne.
  destruct (trimStart s) as [|c y] eqn:Hy; [now contradiction Hne|].
  pose proof (trimStart_head _ _ _ Hy) as Hc. clear Hne.
  assert (E : rev (trimStart (rev (c :: y))) = c :: rev (trimStart (rev y))).
  { simpl rev. rewrite trimStart_snoc by exact Hc.
    now rewrite rev_app_distr. }
  rewrite E. exists c, (rev (trimStart (rev y))).
  assert (Hrev : rev (c :: rev (trimStart (rev y))) = trimStart (rev y) ++ [c])
    by (simpl; now rewrite rev_involutive).
  rewrite Hrev.
  destruct (trimStart (rev y)) as [|d q] eqn:Hq.
  - exists c, []. repeat split; auto.
  - exists d, (q ++ [c]). repeat split; auto.
    exact (trimStart_head _ _ _ Hq).
Qed.

Lemma trimEnd_skips_blank (s w : jsstring) :
  forallb is_space w = true -> trimEnd (s ++ w) = trimEnd s.
Proof.
  intros Hw. unfold trimEnd. rewrite rev_app_distr, trimStart_skips_blank;
    [reflexivity | now rewrite forallb_rev].
Qed.

(** The text of a page of whole paragraphs, trimmed, is the paragraphs
    joined by blank lines. *)
Lemma trim_paragraph_units (paragraphs : list jsstring) :
  paragraphs <> [] ->
  Forall (fun p => truthy (trim p) = true) paragraphs ->
  trim (List.concat (map (fun p => trim p ++ nl ++ nl) paragraphs))
  = join (nl ++ nl) (map trim paragraphs).
Proof.
  intros Hne Hps.
  assert (Hcat : List.concat (map (fun p => trim p ++ nl ++ nl) paragraphs)
                 = join (nl ++ nl) (map trim paragraphs) ++ nl ++ nl).
  { clear Hps. induction paragraphs as [|p ps IH]; [contradiction|].
    destruct ps as [|p' ps]; [simpl; now rewrite app_nil_r|].
    cbn [map List.concat]. cbn [map List.concat] in IH.
    rewrite IH by discriminate.
    change (join (nl ++ nl) (trim p :: trim p' :: map trim ps))
      with (trim p ++ (nl ++ nl) ++ join (nl ++ nl) (trim p' :: map trim ps)).
    now rewrite <- !app_assoc. }
  rewrite Hcat. set (X := join (nl ++ nl) (map trim paragraphs)).
  assert (Hhead : exists c r, X = c :: r /\ is_space c = false).
  { unfold X. destruct paragraphs as [|p ps]; [contradiction|].
    inversion Hps as [|? ? Hp _]; subst.
    destruct (trim_edges p) as (c & r & _ & _ & E & Hc & _).
    { intros E. rewrite truthy_trim in Hp.
      assert (Hb : forallb is_space (trim p) = true) by now rewrite E.
      rewrite trim_blankness in Hb. now rewrite Hb in Hp. }
    destruct ps as [|p' ps]; cbn [map join]; rewrite E; simpl; eauto. }
  assert (Hlast : exists d q, rev X = d :: q /\ is_space d = false).
  { unfold X. clear X Hcat Hhead.
    induction paragraphs as [|p ps IH]; [contradiction|].
    inversion Hps as [|? ? Hp Hrest]; subst.
    destruct ps as [|p' ps].
    - destruct (trim_edges p) as (_ & _ & d & q & _ & _ & E & Hd).
      { intros E. rewrite truthy_trim in Hp.
        assert (Hb : forallb is_space (trim p) = true) by now rewrite E.
        rewrite trim_blankness in Hb. now rewrite Hb in Hp. }
      cbn [map join]. eauto.
    - destruct (IH ltac:(discriminate) Hrest) as (d & q & E & Hd).
      change (join (nl ++ nl) (map trim (p :: p' :: ps)))
        with (trim p ++ (nl ++ nl) ++ join (nl ++ nl) (map trim (p' :: ps))).
      rewrite !rev_app_distr, E. simpl. eauto. }
  destruct Hhead as (c & r & EX & Hc). destruct Hlast as (d & q & ER & Hd).
  assert (Hstart : trimStart (X ++ nl ++ nl) = X ++ (nl ++ nl))
    by (rewrite EX; simpl; now rewrite Hc).
  assert (Hend : trimEnd X = X).
  { unfold trimEnd. rewrite ER. simpl trimStart. rewrite Hd, <- ER.
    apply rev_involutive. }
  unfold trim. rewrite Hstart, trimEnd_skips_blank by reflexivity. exact Hend.
Qed.

End TrimEdges.

Section PaginateTextFits.

Import Paginator.

Variables firstPageMaxChars maxChars : Z.

Local Open Scope Z_scope.

Lemma countedChars_nonneg (paragraphs : list jsstring) : 0 <= countedChars paragraphs.
Proof.
  induction paragraphs as [|p ps IH]; simpl; [lia|].
  pose proof (strlen_nonneg (trim p)). lia.
Qed.

(** While the counted characters stay within the limit of the first
    page, the loop only appends. *)
Lemma fold_addParagraph_fits (paragraphs : list jsstring) :
  forall text count,
    0 <= count ->
    count + countedChars paragraphs <= firstPageMaxChars ->
    fold_left (addParagraph firstPageMaxChars maxChars) paragraphs
      {| pages := []; currentPageContent := text; currentCharCount := count |}
    = {| pages := [];
         currentPageContent :=
           text ++ List.concat (map (fun p => trim p ++ nl ++ nl) paragraphs);
         currentCharCount := count + countedChars paragraphs |}.
Proof.
  induction paragraphs as [|p ps IH]; intros text count Hcount Hfit; simpl.
  - now rewrite app_nil_r, Z.add_0_r.
  - pose proof (strlen_nonneg (trim p)) as Hp.
    pose proof (countedChars_nonneg ps) as Hps. simpl in Hfit.
    unfold addParagraph at 2, flushIfOver, getCurrentMaxChars.
    cbn [pages currentCharCount currentPageContent List.length Nat.eqb].
    destruct (Z.gtb_spec (count + strlen (trim p)) firstPageMaxChars); [lia|].
    cbn [andb pages currentCharCount currentPageContent List.length Nat.eqb].
    destruct (Z.gtb_spec (strlen (trim p)) firstPageMaxChars); [lia|].
    rewrite IH by lia. f_equal; [now rewrite <- !app_assoc | lia].
Qed.

Lemma paginateFrom_fits (paragraphs : list jsstring) :
  paragraphs <> [] ->
  Forall (fun p => truthy (trim p) = true) paragraphs ->
  countedChars paragraphs <= firstPageMaxChars ->
  paginateFrom firstPageMaxChars maxChars paragraphs
  = [ {| content := join (nl ++ nl) (map trim paragraphs);
         pageNumber := 1; isFirst := true; isLast := true |} ].
Proof.
  intros Hne Hps Hfit. unfold paginateFrom, initial.
  rewrite fold_addParagraph_fits by lia.
  unfold finish, newPage. cbn [pages currentPageContent app].
  rewrite trim_paragraph_units by assumption.
  destruct (truthy (join (nl ++ nl) (map trim paragraphs))) eqn:Htext; [reflexivity|].
  exfalso. destruct paragraphs as [|p ps]; [contradiction|].
  inversion Hps as [|? ? Hp _]; subst.
  assert (Htrim : truthy (trim p) = true) by exact Hp.
  destruct (trim p) eqn:E; [discriminate|].
  destruct ps; cbn [map join] in Htext; rewrite E in Htext; discriminate.
Qed.

End PaginateTextFits.

(** X22. A text whose paragraphs, trimmed, count no more characters
    together than the first page allows is a single page, first and last
    at once, holding the trimmed paragraphs separated by blank lines. *)
Theorem paginateText_single_page adjustCharsForLanguage text options :
  let paragraphs := Paginator.splitParagraphs (Paginator.cleanText text) in
  paragraphs <> [] ->
  (countedChars paragraphs
   <= Paginator.firstPageMaxCharsOf adjustCharsForLanguage text options)%Z ->
  Paginator.paginateText adjustCharsForLanguage text options
  = [ {| content := join (nl ++ nl) (map trim paragraphs);
         pageNumber := 1; isFirst := true; isLast := true |} ].
Proof.
  intros paragraphs Hne Hfit. unfold Paginator.paginateText.
  apply paginateFrom_fits; [exact Hne | apply paginator_paragraphs_nonblank | exact Hfit].
Qed.

Lemma paginateText_single_page_witness :
  Paginator.paginateText noAdjust (lit " ab " ++ nl ++ lit "cd") plainOptions
  = [ {| content := lit "ab" ++ nl ++ nl ++ lit "cd";
         pageNumber := 1; isFirst := true; isLast := true |} ].
Proof.
  apply (paginateText_single_page noAdjust (lit " ab " ++ nl ++ lit "cd") plainOptions).
  - discriminate.
  - vm_compute. discriminate.
Defined.

Lemma paginateText_no_page_iff_blank_witness :
  Paginator.paginateText noAdjust blankText plainOptions = [].
Proof.
  apply (proj2 (paginateText_no_page_iff_blank noAdjust blankText plainOptions)).
  reflexivity.
Defined.

(** ** [detectEnglishRatio] and the limits of [paginateText] *)

Section Limits.

Lemma filter_length_le {A : Type} (f : A -> bool) (l : list A) :
  (List.length (filter f l) <= List.length l)%nat.
Proof.
  induction l as [|x l IH]; simpl; [lia|]. destruct (f x); simpl; lia.
Qed.

(** X23. [detectEnglishRatio], read as an exact quotient, lies between 0
    and 1, and is 0 for a text that is white space only. *)
Theorem detectEnglishRatio_range (text : jsstring) :
  (0 <= Paginator.detectEnglishRatio text <= 1)%Q
  /\ (forallb is_space text = true -> Paginator.detectEnglishRatio text = 0%Q).
Proof.
  unfold Paginator.detectEnglishRatio.
  set (cleaned := filter (fun c => negb (is_space c)) text).
  split.
  - destruct (List.length cleaned =? 0)%nat eqn:Hlen.
    + split; discriminate.
    + apply Nat.eqb_neq in Hlen.
      pose proof (filter_length_le Paginator.is_alnum cleaned) as Hle.
      assert (Hpos : (0 < inject_Z (strlen cleaned))%Q).
      { change 0%Q with (inject_Z 0). rewrite <- Zlt_Qlt. unfold strlen, len. lia. }
      split.
      * apply Qle_shift_div_l; [exact Hpos|]. rewrite Qmult_0_l.
        change 0%Q with (inject_Z 0). rewrite <- Zle_Qle. unfold strlen, len. lia.
      * apply Qle_shift_div_r; [exact Hpos|]. rewrite Qmult_1_l.
        rewrite <- Zle_Qle. unfold strlen, len. lia.
  - intros Hblank.
    assert (Hnone : cleaned = []).
    { unfold cleaned. clear cleaned. induction text as [|c text IH]; [reflexivity|].
      simpl in *. apply andb_true_iff in Hblank. destruct Hblank as [-> Hrest].
      simpl. now apply IH. }
    now rewrite Hnone.
Qed.

Lemma detectEnglishRatio_range_witness :
  Paginator.detectEnglishRatio blankText = 0%Q.
Proof.
  apply (proj2 (detectEnglishRatio_range blankText)). reflexivity.
Defined.

(** X24. A [charsPerPage] other than 0 is the page limit as it stands,
    whatever the text and the language adjustment; and unless
    [firstPageChars] is given (0 counts as not given), the limit of the
    first page is never above the limit of the later pages, as long as that
    limit is not negative. *)
Theorem paginateText_limits adjustCharsForLanguage text options :
  (forall n, Paginator.charsPerPage options = Some n -> n <> 0%Z ->
             Paginator.maxCharsOf adjustCharsForLanguage text options = n)
  /\ (Paginator.isFalsy (Paginator.firstPageChars options) = true ->
      (0 <= Paginator.maxCharsOf adjustCharsForLanguage text options)%Z ->
      (Paginator.firstPageMaxCharsOf adjustCharsForLanguage text options
       <= Paginator.maxCharsOf adjustCharsForLanguage text options)%Z).
Proof.
  split.
  - intros n Hn Hnz. unfold Paginator.maxCharsOf. rewrite Hn.
    unfold Paginator.isFalsy, Paginator.orElse.
    destruct (Z.eqb_spec n 0); [contradiction|]. now rewrite andb_false_r.
  - intros Hnone Hmax. unfold Paginator.firstPageMaxCharsOf.
    set (m := Paginator.maxCharsOf adjustCharsForLanguage text options) in *.
    unfold Paginator.isFalsy in Hnone. unfold Paginator.orElse.
    assert (Hfloor : (3 * m / 4 <= m)%Z)
      by (apply Z.div_le_upper_bound; lia).
    destruct (Paginator.firstPageChars options) as [z|];
      [rewrite Hnone|]; destruct (Paginator.hasTitle options) as [[|]|]; lia.
Qed.

Lemma paginateText_limits_witness :
  Paginator.maxCharsOf (fun base _ => (2 * base)%Z) (lit "abc") fiveChars = 5%Z
  /\ (Paginator.firstPageMaxCharsOf noAdjust (lit "abc") plainOptions
      <= Paginator.maxCharsOf noAdjust (lit "abc") plainOptions)%Z.
Proof.
  destruct (paginateText_limits (fun base _ => (2 * base)%Z) (lit "abc") fiveChars)
    as [Hexplicit _].
  destruct (paginateText_limits noAdjust (lit "abc") plainOptions) as [_ Hfirst].
  split.
  - apply Hexplicit; [reflexivity | discriminate].
  - apply Hfirst; [reflexivity | vm_compute; discriminate].
Defined.

End Limits.

(** ** [renderPages] and [textToImages] *)

Section RenderPagesProps.

Variable loadThemeCSS : Theme -> jsstring.
Variable renderPage : RenderPages.Screenshot.
Variable toBase64 : RenderPages.Buffer -> jsstring.

Local Open Scope Z_scope.

Local Abbreviation htmlOf := (RenderPages.htmlOfPage loadThemeCSS).
Local Abbreviation from := (RenderPages.renderPages_from loadThemeCSS renderPage).

Lemma renderPages_from_iff options n (rest : list Page) :
  forall i acc result,
    from options n i rest acc = Returns result
    <-> exists shots,
          result = acc ++ shots
          /\ List.length shots = List.length rest
          /\ forall k page,
               nth_error rest k = Some page ->
               exists image,
                 nth_error shots k = Some image
                 /\ renderPage (htmlOf options n (i + Z.of_nat k) page)
                      (viewportOf options) = Returns image.
Proof.
  induction rest as [|page rest IH]; intros i acc result.
  - cbn [RenderPages.renderPages_from]. split.
    + intros E. inversion E; subst. exists []. rewrite app_nil_r.
      repeat split; auto. intros [|k] p Hp; discriminate.
    + intros (shots & -> & Hlen & _). destruct shots; [|discriminate].
      now rewrite app_nil_r.
  - cbn [RenderPages.renderPages_from]. fold (viewportOf options). split.
    + destruct (renderPage _ _) as [image| |] eqn:Hshot; cbn [bind]; try discriminate.
      intros Hrun. apply IH in Hrun. destruct Hrun as (shots & -> & Hlen & Hshots).
      exists (image :: shots). rewrite <- app_assoc. split; [reflexivity|].
      split; [simpl; lia|]. intros [|k] p Hp.
      * inversion Hp; subst p. exists image. split; [reflexivity|].
        now rewrite Z.add_0_r.
      * destruct (Hshots k p Hp) as (img & Himg & Hok). exists img.
        split; [exact Himg|]. now replace (i + Z.of_nat (S k)) with (i + 1 + Z.of_nat k) by lia.
    + intros (shots & -> & Hlen & Hshots). destruct shots as [|image shots]; [discriminate|].
      destruct (Hshots 0%nat page eq_refl) as (img & Himg & Hok).
      inversion Himg; subst img. rewrite Z.add_0_r in Hok. rewrite Hok. cbn [bind].
      apply IH. exists shots. rewrite <- app_assoc. split; [reflexivity|].
      split; [simpl in Hlen; lia|]. intros k p Hp.
      destruct (Hshots (S k) p Hp) as (img' & Himg' & Hok'). exists img'.
      split; [exact Himg'|]. now replace (i + 1 + Z.of_nat k) with (i + Z.of_nat (S k)) by lia.
Qed.

Lemma renderPages_from_throws options n (rest : list Page) :
  forall i acc k page,
    nth_error rest k = Some page ->
    renderPage (htmlOf options n (i + Z.of_nat k) page) (viewportOf options) = Throws ->
    (forall j earlier, (j < k)%nat -> nth_error rest j = Some earlier ->
                       exists image,
                         renderPage (htmlOf options n (i + Z.of_nat j) earlier)
                           (viewportOf options) = Returns image) ->
    from options n i rest acc = Throws.
Proof.
  induction rest as [|p rest IH]; intros i acc k page Hpage Hthrows Hbefore.
  - destruct k; discriminate.
  - cbn [RenderPages.renderPages_from]. fold (viewportOf options).
    destruct k as [|k].
    + inversion Hpage; subst p. rewrite Z.add_0_r in Hthrows. now rewrite Hthrows.
    + destruct (Hbefore 0%nat p ltac:(lia) eq_refl) as (image & Himage).
      rewrite Z.add_0_r in Himage. rewrite Himage. cbn [bind].
      apply (IH (i + 1) _ k page Hpage).
      * now replace (i + 1 + Z.of_nat k) with (i + Z.of_nat (S k)) by lia.
      * intros j earlier Hj Hearlier.
        destruct (Hbefore (S j) earlier ltac:(lia) Hearlier) as (img & Himg).
        exists img. now replace (i + 1 + Z.of_nat j) with (i + Z.of_nat (S j)) by lia.
Qed.

(** X25. [renderPages] returns exactly when the screenshot of every
    page returns, and then gives one image per page, in page order, each
    the screenshot of the markup of its page at the viewport of the
    ratio. *)
Theorem renderPages_one_image_per_page pages options images :
  RenderPages.renderPages loadThemeCSS renderPage pages options = Returns images
  <-> (List.length images = List.length pages
       /\ forall k page,
            nth_error pages k = Some page ->
            exists image,
              nth_error images k = Some image
              /\ renderPage (RenderPages.htmlOfPage loadThemeCSS options (len pages)
                               (Z.of_nat k) page)
                   (viewportOf options) = Returns image).
Proof.
  unfold RenderPages.renderPages. rewrite renderPages_from_iff. split.
  - intros (shots & -> & Hlen & Hshots). split; [exact Hlen | exact Hshots].
  - intros [Hlen Hshots]. exists images. repeat split; auto.
Qed.

(** X26. One failed screenshot fails the whole job: when the screenshots
    before it return and one is rejected, [renderPages] is rejected and no
    image is handed back. *)
Theorem renderPages_fails_as_a_whole pages options k page :
  nth_error pages k = Some page ->
  renderPage (RenderPages.htmlOfPage loadThemeCSS options (len pages) (Z.of_nat k) page)
    (viewportOf options) = Throws ->
  (forall j earlier, (j < k)%nat -> nth_error pages j = Some earlier ->
                     exists image,
                       renderPage (RenderPages.htmlOfPage loadThemeCSS options
                                     (len pages) (Z.of_nat j) earlier)
                         (viewportOf options) = Returns image) ->
  RenderPages.renderPages loadThemeCSS renderPage pages options = Throws.
Proof.
  intros Hpage Hthrows Hbefore. unfold RenderPages.renderPages.
  apply (renderPages_from_throws options (len pages) pages 0 [] k page Hpage);
    [exact Hthrows | exact Hbefore].
Qed.

(** X27. [textToImages] reports as [pageCount] the number of pages it
    was given, with as many images; it does not look at its [text]
    argument; and for the pages of [paginateText] the count is what
    [estimatePageCount] gives for the same text and options. *)
Theorem textToImages_page_count text pages options images pageCount :
  RenderPages.textToImages loadThemeCSS renderPage toBase64 text pages options
  = Returns (images, pageCount) ->
  pageCount = len pages
  /\ len images = len pages
  /\ (forall other,
        RenderPages.textToImages loadThemeCSS renderPage toBase64 other pages options
        = Returns (images, pageCount))
  /\ (forall adjustCharsForLanguage source paginatorOptions,
        pages = Paginator.paginateText adjustCharsForLanguage source paginatorOptions ->
        pageCount
        = Paginator.estimatePageCount adjustCharsForLanguage source paginatorOptions).
Proof.
  unfold RenderPages.textToImages.
  destruct (RenderPages.renderPages _ _ _ _) as [buffers| |] eqn:Hrun;
    cbn [bind]; try discriminate.
  intros E. inversion E; subst images pageCount. clear E.
  apply renderPages_from_iff in Hrun. destruct Hrun as (shots & E & Hlen & _).
  cbn [app] in E. subst shots.
  assert (Hcount : len (map toBase64 buffers) = len pages)
    by (unfold len; rewrite length_map; lia).
  repeat split; auto.
  intros adjust source paginatorOptions ->. exact Hcount.
Qed.

(** X28. The title goes on the first image only, and only when
    [showCover] is set and the title is not empty: for every other page,
    and without them for every page, [renderPages] builds the plain content
    markup, whatever [aiCoverImage] holds. *)
Theorem title_only_on_first_page options totalPages i page :
  i <> 0
  \/ match Renderer.showCover options with Some b => b | None => false end = false
  \/ match Renderer.title options with Some t => truthy t | None => false end = false ->
  RenderPages.htmlOfPage loadThemeCSS options totalPages i page
  = Renderer.generateContentHTML loadThemeCSS page totalPages options.
Proof.
  unfold RenderPages.htmlOfPage.
  destruct (Renderer.title options) as [title|]; [|reflexivity].
  intros [Hi|[Hcover|Htitle]].
  - destruct (Z.eqb_spec i 0); [contradiction|reflexivity].
  - rewrite Hcover. now rewrite andb_false_r.
  - rewrite Htitle. now rewrite andb_false_r.
Qed.

Lemma skipn_length_app {A : Type} (a b : list A) :
  skipn (List.length a) (a ++ b) = b.
Proof.
  induction a as [|x a IH]; [reflexivity | exact IH].
Qed.

(** X29. The first page with a title is the content page with one line
    more, the heading, right after the opening of the page container: the
    content page is the opening, up to and including the line of the page
    container, and a rest; the title page is the same opening, the heading
    line with the escaped title, and the same rest. *)
Theorem title_page_is_content_page_with_heading page totalPages options :
  let css := loadThemeCSS match Renderer.theme options with
                          | Some t => t | None => minimal end in
  let fontConfig := FONT_SIZES match Renderer.fontSize options with
                               | Some f => f | None => medium end in
  let contentPage := Renderer.generateContentHTML loadThemeCSS page totalPages options in
  let opening := pageOpening css fontConfig in
  let rest := skipn (List.length opening) contentPage in
  contentPage = opening ++ rest
  /\ forall title,
       Renderer.generateFirstPageWithTitleHTML loadThemeCSS title page totalPages
         options
       = opening ++ titleLine title ++ nl ++ rest.
Proof.
  intros css fontConfig contentPage opening rest.
  assert (Hcontent : exists tail,
             contentPage = opening ++ tail
             /\ forall title,
                  Renderer.generateFirstPageWithTitleHTML loadThemeCSS title page
                    totalPages options
                  = opening ++ titleLine title ++ nl ++ tail).
  { unfold contentPage, opening, Renderer.generateContentHTML,
      Renderer.generateFirstPageWithTitleHTML, pageOpening.
    cbv zeta. fold css. fold fontConfig.
    match goal with
    | |- exists tail, join nl ?lines = _ /\ _ => exists (join nl (skipn 12 lines))
    end.
    split; [|intros title; unfold titleLine];
      generalize (Renderer.paragraphsToHtml (content page)) css
        (num (title_px fontConfig)) (num (content_px fontConfig))
        (num (pageNumber page)) (num totalPages);
      intros; cbn [skipn join]; rewrite <- ?app_assoc; reflexivity. }
  destruct Hcontent as (tail & Hpage & Htitled).
  assert (Hrest : rest = tail)
    by (unfold rest; rewrite Hpage; apply skipn_length_app).
  rewrite Hrest. split; [exact Hpage | exact Htitled].
Qed.

End RenderPagesProps.

Lemma renderPages_one_image_per_page_witness :
  RenderPages.renderPages noCSS echoShot [firstPage; secondPage] titled
  = Returns [ Renderer.generateFirstPageWithTitleHTML noCSS (lit "T<1>") firstPage 2
                titled;
              Renderer.generateContentHTML noCSS secondPage 2 titled ].
Proof.
  apply (proj2 (renderPages_one_image_per_page noCSS echoShot
                  [firstPage; secondPage] titled _)).
  split; [reflexivity|].
  intros [|[|k]] page Hpage; [| |destruct k; discriminate Hpage];
    inversion Hpage; subst page; eexists; (split; [reflexivity|]); reflexivity.
Defined.

Lemma renderPages_fails_as_a_whole_witness :
  RenderPages.renderPages noCSS failsOnSecond [firstPage; secondPage] renderDefaults
  = Throws.
Proof.
  apply (renderPages_fails_as_a_whole noCSS failsOnSecond [firstPage; secondPage]
           renderDefaults 1 secondPage).
  - reflexivity.
  - vm_compute. reflexivity.
  - intros [|j] earlier Hj Hearlier; [|lia].
    inversion Hearlier; subst earlier. eexists. vm_compute. reflexivity.
Defined.

Lemma textToImages_page_count_witness :
  exists images,
    RenderPages.textToImages noCSS echoShot (fun buffer => buffer) (lit "unused")
      (Paginator.paginateText noAdjust shortAndLong fiveChars) renderDefaults
    = Returns (images, 3%Z)
    /\ 3%Z = Paginator.estimatePageCount noAdjust shortAndLong fiveChars.
Proof.
  eassert (Hrun : RenderPages.textToImages noCSS echoShot (fun buffer => buffer)
                    (lit "unused")
                    (Paginator.paginateText noAdjust shortAndLong fiveChars)
                    renderDefaults = Returns (_, _)) by (vm_compute; reflexivity).
  eexists. split; [exact Hrun|].
  destruct (textToImages_page_count noCSS echoShot (fun buffer => buffer) _ _ _ _ _ Hrun)
    as (_ & _ & _ & Hestimate).
  apply (Hestimate noAdjust shortAndLong fiveChars). reflexivity.
Defined.

Lemma title_only_on_first_page_witness :
  RenderPages.htmlOfPage noCSS titled 2 1 secondPage
  = Renderer.generateContentHTML noCSS secondPage 2 titled.
Proof.
  apply (title_only_on_first_page noCSS titled 2 1 secondPage). left. discriminate.
Defined.
